(** * FlashT5LENS: the pre-training data pipeline

    A shallow embedding of [src/data/data_collator_pt.py] (the batch
    collator: span masking, sentinel encoding, compaction, segment
    indicators) and of [src/data/pt_data_process.py] (the offline flow
    preprocessor: truncation, packet-order permutation, label arrays),
    followed by the properties the specification states about them.

    numpy arrays are lists, numpy/Python integers are [Z] (narrow dtypes
    with their wrap-around written out), Python floats are IEEE binary64
    values ([spec_float] at precision 53) with the interpreter's rounding
    of every product and quotient, Python exceptions are the [Raise]
    results of an error monad, and the process-global random generator is
    an explicit stream of draws threaded through every randomised call.
    Where the result depends on the NumPy release ([np.ceil] of an
    integer), the release is a field of the configuration. *)

From Stdlib Require Import ZArith QArith Qround Lia String Ascii SpecFloat.
From stdpp Require Import base list.
Local Open Scope Z_scope.

(** ** Exceptions, results and the random stream *)

Inductive exn :=
  | TypeError | ValueError | IndexError | ZeroDivisionError | AssertionError
  | AttributeError | OverflowError.

Inductive result (A : Type) :=
  | Ok (a : A)
  | Raise (e : exn).
Arguments Ok {A} a.
Arguments Raise {A} e.

Definition rbind {A B} (m : result A) (k : A -> result B) : result B :=
  match m with
  | Ok a => k a
  | Raise e => Raise e
  end.

(** The generator behind [np.random]: the draws still to come. *)
Definition rng := list nat.

(** Code that may raise and may consume randomness. *)
Definition M (A : Type) : Type := rng -> result (A * rng).

Definition ret {A} (a : A) : M A := fun g => Ok (a, g).

Definition bind {A B} (m : M A) (k : A -> M B) : M B :=
  fun g => match m g with
           | Ok (a, g') => k a g'
           | Raise e => Raise e
           end.

Definition lift {A} (r : result A) : M A :=
  fun g => match r with
           | Ok a => Ok (a, g)
           | Raise e => Raise e
           end.

Definition raise {A} (e : exn) : M A := fun _ => Raise e.

Notation "x <- m ;; k" := (bind m (fun x => k))
  (at level 100, m at next level, right associativity).
Notation "x <-? m ;; k" := (rbind m (fun x => k))
  (at level 100, m at next level, right associativity).

(** Monadic maps over a list, left to right. *)
Fixpoint rmapM {A B} (f : A -> result B) (l : list A) : result (list B) :=
  match l with
  | [] => Ok []
  | x :: r =>
      y <-? f x ;;
      ys <-? rmapM f r ;;
      Ok (y :: ys)
  end.

Fixpoint mapM {A B} (f : A -> M B) (l : list A) : M (list B) :=
  match l with
  | [] => ret []
  | x :: r =>
      y <- f x ;;
      ys <- mapM f r ;;
      ret (y :: ys)
  end.

(** The same over two lists of one length, as numpy pairs the rows of two
    arrays of one shape. *)
Fixpoint rmapM2 {A B C} (f : A -> B -> result C) (l : list A) (k : list B)
  : result (list C) :=
  match l, k with
  | [], [] => Ok []
  | x :: l', y :: k' =>
      z <-? f x y ;;
      zs <-? rmapM2 f l' k' ;;
      Ok (z :: zs)
  | _, _ => Raise ValueError
  end.

(** One draw below [bound]; an exhausted stream keeps answering 0. *)
Definition draw (bound : nat) (g : rng) : nat * rng :=
  match g with
  | [] => (0%nat, [])
  | x :: g' => ((x mod bound)%nat, g')
  end.

(** [np.random.shuffle]: rearranges its argument; which permutation comes
    out is decided by the stream (each element is put at a drawn place
    among the ones already placed). *)
Fixpoint shuffle {A} (l : list A) (g : rng) : list A * rng :=
  match l with
  | [] => ([], g)
  | x :: r =>
      let '(r', g') := shuffle r g in
      let '(j, g'') := draw (S (length r')) g' in
      (take j r' ++ x :: drop j r', g'')
  end.

(** [np.random.randint(0, high)]. *)
Definition randint (high : Z) : M Z :=
  fun g => if high <=? 0 then Raise ValueError
           else let '(j, g') := draw (Z.to_nat high) g in Ok (Z.of_nat j, g').

(** ** Python floats

    A Python [float] and a numpy [float64] are IEEE 754 binary64 numbers.
    Their arithmetic is the Standard Library's specification of it
    ([SpecFloat] at precision 53 and exponent bound 1024): every operation
    rounds its exact result to the nearest double, ties to even. *)
Definition float : Type := spec_float.

(** The conversion an integer operand of a float operation goes through:
    the nearest double.  numpy integers and the lengths of lists are well
    inside the range of the doubles. *)
Definition of_int (z : Z) : float := binary_normalize 53 1024 z 0 false.


Definition fmul (x y : float) : float := SFmul 53 1024 x y.
Definition fdiv (x y : float) : float := SFdiv 53 1024 x y.

Definition is_zero (x : float) : bool :=
  match x with
  | S754_zero _ => true
  | _ => false
  end.

(** [0.0 < x] *)
Definition positive (x : float) : bool := SFltb (S754_zero false) x.

(** Floats that are zero, NaN or carry the minus sign: their integer part,
    if they have one, is not positive. *)
Definition not_positive (x : float) : Prop :=
  match x with
  | S754_zero _ | S754_nan => True
  | S754_infinity s | S754_finite s _ _ => s = true
  end.

Definition sign_bit (x : float) : bool :=
  match x with
  | S754_zero s | S754_infinity s | S754_finite s _ _ => s
  | S754_nan => false
  end.

(** The double that a decimal literal [n/d] of a configuration denotes:
    for [n] and [d] below 2^53 the division rounds the exact quotient
    once, as the parser of the literal does. *)
Definition decimal (q : Q) : float :=
  fdiv (of_int (Qnum q)) (of_int (Zpos (Qden q))).

(** The exact value of a double.  NaN and the infinities have none:
    [int()] and [round()] refuse them with [ValueError] and
    [OverflowError]. *)
Definition value (x : float) : result Q :=
  match x with
  | S754_zero _ => Ok 0%Q
  | S754_finite s m e =>
      let a := if 0 <=? e then inject_Z (Zpos m * 2 ^ e)
               else Zpos m # 2 ^ Z.to_pos (- e) in
      Ok (if s then - a else a)%Q
  | S754_nan => Raise ValueError
  | S754_infinity _ => Raise OverflowError
  end.

(** The integer nearest to an exact value, ties to the even one. *)
Definition nearest_even (q : Q) : Z :=
  let f := Qfloor q in
  match (q - inject_Z f ?= 1 # 2)%Q with
  | Lt => f
  | Gt => f + 1
  | Eq => if Z.even f then f else f + 1
  end.

(** [int(x)] of a float: truncation towards zero. *)
Definition py_int (x : float) : result Z :=
  q <-? value x ;;
  Ok (if 0 <=? Qnum q then Qfloor q else Qceiling q).


(** ** numpy helpers *)

(** A Python number as a slice bound sees it: an integer (a Python [int]
    or a numpy integer), or a float. *)
Inductive pynum :=
  | PyInt (z : Z)
  | PyFloat (x : float).

Module np.

Definition arange (n : Z) : list Z := map Z.of_nat (seq 0 (Z.to_nat n)).

Fixpoint cumsum_from (acc : Z) (l : list Z) : list Z :=
  match l with
  | [] => []
  | x :: r => (acc + x) :: cumsum_from (acc + x) r
  end.

Definition cumsum (l : list Z) : list Z := cumsum_from 0 l.

(** [np.pad(a, (before, after), constant_values=v)]; a negative width is
    a [ValueError]. *)
Definition pad {A} (a : list A) (before after : Z) (v : A) : result (list A) :=
  if (before <? 0) || (after <? 0) then Raise ValueError
  else Ok (replicate (Z.to_nat before) v ++ a ++ replicate (Z.to_nat after) v).

(** [np.roll(a, 1)]: circular shift to the right by one. *)
Definition roll1 (a : list Z) : list Z :=
  match a with
  | [] => []
  | _ :: _ => drop (length a - 1) a ++ take (length a - 1) a
  end.

(** [np.unique(a, return_counts=True)[1]]: the number of occurrences of
    each distinct value, by ascending value. *)
Fixpoint count_into (x : Z) (acc : list (Z * Z)) : list (Z * Z) :=
  match acc with
  | [] => [(x, 1)]
  | (v, c) :: r =>
      if x <? v then (x, 1) :: acc
      else if x =? v then (v, c + 1) :: r
      else (v, c) :: count_into x r
  end.

Definition unique_counts (a : list Z) : list Z :=
  map snd (foldr count_into [] a).

(** [np.round] of a float64: the nearest integral double, ties to the even
    one; NaN and the infinities are returned as they are. *)
Definition round (x : float) : float :=
  match value x with
  | Ok q => binary_normalize 53 1024 (nearest_even q) 0 (sign_bit x)
  | Raise _ => x
  end.

(** [np.stack([a, b], axis=1)] of two vectors: needs equal shapes. *)
Definition stack2 (a b : list Z) : result (list (Z * Z)) :=
  if (length a =? length b)%nat then Ok (zip a b) else Raise ValueError.

(** [np.reshape(m, [n])] of an array of shape [len(m), 2]. *)
Definition reshape_flat (m : list (Z * Z)) (n : Z) : result (list Z) :=
  if 2 * Z.of_nat (length m) =? n
  then Ok (concat (map (fun p => [p.1; p.2]) m))
  else Raise ValueError.

(** [np.zeros((n,))]. *)
Definition zeros (n : Z) : result (list Z) :=
  if n <? 0 then Raise ValueError else Ok (replicate (Z.to_nat n) 0).

(** An index into an axis of [n] entries: negative ones count from the
    end, anything outside is an [IndexError]. *)
Definition index (n : nat) (i : Z) : result nat :=
  if (0 <=? i) && (i <? Z.of_nat n) then Ok (Z.to_nat i)
  else if (- Z.of_nat n <=? i) && (i <? 0) then Ok (Z.to_nat (i + Z.of_nat n))
  else Raise IndexError.

(** [a[idx] = v] for an integer index array [idx]. *)
Fixpoint put (a : list Z) (idx : list Z) (v : Z) : result (list Z) :=
  match idx with
  | [] => Ok a
  | i :: r =>
      j <-? index (length a) i ;;
      put (<[j := v]> a) r v
  end.

(** The source pins no numpy release, and [np.ceil] of an integer depends
    on it: up to NumPy 2.0 the result is a float64, from NumPy 2.1 on
    integers are left as they are. *)
Inductive version := before_2_1 | from_2_1.

(** [np.ceil] of an integer. *)
Definition ceil (v : version) (z : Z) : pynum :=
  match v with
  | before_2_1 => PyFloat (of_int z)
  | from_2_1 => PyInt z
  end.

End np.

(** Python's [a[:-1]]. *)
Definition drop_last {A} (l : list A) : list A := take (length l - 1) l.

(** ** DataCollatorForPretrain *)

Record DataCollatorForPretrain := {
  PAD_ID : Z;
  EOS_ID : Z;
  HEAD_ID : Z;
  PKT_ID : Z;
  max_length : Z;
  optimal_len : Z;
  max_labels_length : Z;
  noise_density : float;
  mean_noise_span_length : float;
  min_mask_span_length : Z
}.

(** [num_noise_tokens] of [random_spans_noise_mask], after the clamp. *)
Definition num_noise_tokens (self : DataCollatorForPretrain) (length : Z)
  : result Z :=
  n <-? py_int (np.round (fmul (of_int length) (noise_density self))) ;;
  Ok (Z.min (Z.max n 1) (length - 1)).

(** [num_noise_spans] of [random_spans_noise_mask], after the clamp.
    [length] is an entry of the numpy array [segment_len], so [length - 1]
    is a numpy integer, and Python's [min] returns it when it is the
    strictly smaller argument: dividing it by a zero gives an infinity or
    NaN, which [int()] refuses.  Otherwise the dividend is a Python [int],
    and a zero divisor raises [ZeroDivisionError]. *)
Definition num_noise_spans (self : DataCollatorForPretrain) (length : Z)
  : result Z :=
  n <-? py_int (np.round (fmul (of_int length) (noise_density self))) ;;
  let num_noise_tokens := Z.min (Z.max n 1) (length - 1) in
  let numpy_integer := length - 1 <? Z.max n 1 in
  if is_zero (mean_noise_span_length self) && negb numpy_integer
  then Raise ZeroDivisionError else
  k <-? py_int (np.round (fdiv (of_int num_noise_tokens)
                               (mean_noise_span_length self))) ;;
  Ok (Z.max k 1).

(** [_random_segmentation] *)
Definition _random_segmentation (num_items num_segments : Z) : M (list Z) :=
  fun g =>
    let mask_indices :=
      map (fun i => i <? num_segments - 1) (np.arange (num_items - 1)) in
    let '(mask_indices, g') := shuffle mask_indices g in
    let first_in_segment := false :: mask_indices in
    let segment_id := np.cumsum (map Z.b2z first_in_segment) in
    Ok (np.unique_counts segment_id, g').

Definition random_spans_noise_mask
    (self : DataCollatorForPretrain) (length : Z) : M (list bool) :=
  let orig_length := length in
  num_noise_tokens <- lift (num_noise_tokens self length) ;;
  num_noise_spans <- lift (num_noise_spans self length) ;;
  let num_nonnoise_tokens := length - num_noise_tokens in
  noise_span_lengths <- _random_segmentation num_noise_tokens num_noise_spans ;;
  nonnoise_span_lengths <-
    _random_segmentation num_nonnoise_tokens num_noise_spans ;;
  interleaved_span_lengths <- lift (
    m <-? np.stack2 nonnoise_span_lengths noise_span_lengths ;;
    np.reshape_flat m (num_noise_spans * 2)) ;;
  let span_starts := drop_last (np.cumsum interleaved_span_lengths) in
  span_start_indicator <- lift (
    z <-? np.zeros length ;;
    np.put z span_starts 1) ;;
  let span_num := np.cumsum span_start_indicator in
  let is_noise := map (fun n => n mod 2 =? 1) span_num in
  ret (take (Z.to_nat orig_length) is_noise).

(** The loop of [segment_spans_random_mask] over [segment_len]. *)
Fixpoint mask_segments (self : DataCollatorForPretrain)
    (segment_len : list Z) (final_mask : list bool) : M (list bool) :=
  match segment_len with
  | [] => ret final_mask
  | seg_len :: rest =>
      let final_mask := final_mask ++ [false] in
      final_mask <-
        (if min_mask_span_length self <=? seg_len then
           mask <- random_spans_noise_mask self seg_len ;;
           ret (final_mask ++ mask)
         else ret (final_mask ++ replicate (Z.to_nat seg_len) false)) ;;
      mask_segments self rest final_mask
  end.

Definition segment_spans_random_mask
    (self : DataCollatorForPretrain) (attn_mask : list Z) : M (list bool) :=
  let segment_id :=
    np.cumsum (map (fun a => Z.b2z (a =? 0)) (0 :: attn_mask)) in
  let segment_len := map (fun c => c - 1) (np.unique_counts segment_id) in
  final_mask <- mask_segments self segment_len [] ;;
  if (length final_mask =? length attn_mask + 1)%nat
  then ret (drop 1 final_mask)
  else raise AssertionError.

Definition extra_start_token_id : Z := 107.

(** [create_sentinel_ids] on one row of the batch. *)
Definition create_sentinel_row (mask_indices : list Z) : result (list Z) :=
  let start_indices :=
    zip_with (fun m r => m - r * m) mask_indices (np.roll1 mask_indices) in
  start_indices <-?
    match mask_indices with
    | [] => Raise IndexError
    | m0 :: _ => Ok (<[0%nat := m0]> start_indices)
    end ;;
  let sentinel_ids :=
    zip_with (fun s c => if s =? 0 then s else c)
             start_indices (np.cumsum start_indices) in
  let sentinel_ids :=
    map (fun s => if s =? 0 then 0 else extra_start_token_id - s)
        sentinel_ids in
  Ok (zip_with Z.sub sentinel_ids (zip_with Z.sub mask_indices start_indices)).

Definition create_sentinel_ids (mask_indices : list (list Z))
  : result (list (list Z)) :=
  rmapM create_sentinel_row mask_indices.

(** [np.where(sentinel_ids != 0, sentinel_ids, input_ids)] on one row.
    numpy broadcasts: rows of one length are paired entry by entry, a row
    of a single entry is repeated along the other row, and any other pair
    of lengths is a [ValueError]. *)
Definition overlay_row (input_ids sentinel_ids : list Z) : result (list Z) :=
  if (length input_ids =? length sentinel_ids)%nat
  then Ok (zip_with (fun s x => if s =? 0 then x else s) sentinel_ids input_ids)
  else match input_ids, sentinel_ids with
       | [x], _ => Ok (map (fun s => if s =? 0 then x else s) sentinel_ids)
       | _, [s] => Ok (map (fun x => if s =? 0 then x else s) input_ids)
       | _, _ => Raise ValueError
       end.

(** The compaction of one row: [item[item>=0]], and [[:-1]] for labels. *)
Definition shrink_row (is_label : bool) (item : list Z) : list Z :=
  let kept := filter (fun x => 0 <= x) item in
  if is_label then drop_last kept else kept.

Definition filter_row (self : DataCollatorForPretrain)
    (set_length : Z) (is_label : bool) (input_ids sentinel_ids : list Z)
  : result (list Z) :=
  input_ids_full <-? overlay_row input_ids sentinel_ids ;;
  let arr := shrink_row is_label input_ids_full in
  with_eos <-? np.pad arr 0 1 (EOS_ID self) ;;
  np.pad with_eos 0 (set_length - Z.of_nat (length arr) - 1)
         (if is_label then -100 else PAD_ID self).

(** The rows of the two arrays are paired the same way: one by one when
    there are as many, and a single row is repeated for every row of the
    other array. *)
Definition filter_input_ids (self : DataCollatorForPretrain)
    (input_ids sentinel_ids : list (list Z)) (set_length : Z) (is_label : bool)
  : result (list (list Z)) :=
  if (length input_ids =? length sentinel_ids)%nat
  then rmapM2 (filter_row self set_length is_label) input_ids sentinel_ids
  else match input_ids, sentinel_ids with
       | [x], _ => rmapM (filter_row self set_length is_label x) sentinel_ids
       | _, [s] =>
           rmapM (fun x => filter_row self set_length is_label x s) input_ids
       | _, _ => Raise ValueError
       end.

(** [flip_segment_id] on one row: [output[row, col:] = 1 - output[row, col:]]
    at every column where the input is 1. *)
Definition flip_from (col : nat) (output : list Z) : list Z :=
  take col output ++ map (fun x => 1 - x) (drop col output).

Definition flip_row (input : list Z) : list Z :=
  foldl (fun output col =>
           if default 0 (input !! col) =? 1 then flip_from col output
           else output)
        (replicate (length input) 1) (seq 0 (length input)).

Definition flip_segment_id (input_matrix : list (list Z)) : list (list Z) :=
  map flip_row input_matrix.

(** One example handed to the collator, and the batch it returns. *)
Record Example := {
  ex_input_ids : list Z;
  ex_pop_order : list Z;
  ex_nml_labels : list Z
}.

Record Batch := {
  input_ids : list (list Z);
  labels : list (list Z);
  pop_order : list (list Z);
  nml_labels : list (list Z);
  pop_mask : list (list bool);
  nml_mask : list (list bool);
  pkt_seg_ind : list (list Z);
  head_payload_seg_ind : list (list Z)
}.

(** [np.array(rows)]: the rows of a matrix have one length. *)
Definition as_matrix {A} (rows : list (list A)) : result (list (list A)) :=
  match rows with
  | [] => Ok []
  | r0 :: _ =>
      if forallb (fun r => (length r =? length r0)%nat) rows then Ok rows
      else Raise ValueError
  end.

Definition count_valid (row : list Z) : Z :=
  Z.of_nat (length (filter (fun x => x <> -100) row)).

(** [(x == id) & ((labels != -100).sum(axis=1) != 0)[:, np.newaxis]] *)
Definition task_mask (id : Z) (input_ids labels : list (list Z))
  : list (list bool) :=
  zip_with (fun row lab =>
              map (fun x => (x =? id) && negb (count_valid lab =? 0)) row)
           input_ids labels.

Definition count_true (m : list (list bool)) : Z :=
  Z.of_nat (length (filter (fun b => b = true) (concat m))).

(** [sum(batch['nml_labels'][batch['nml_labels'] != -100] >= 0)] *)
Definition count_nonneg_valid (labels : list (list Z)) : Z :=
  Z.of_nat (length (filter (fun x => 0 <= x)
                           (filter (fun x => x <> -100) (concat labels)))).

Definition token_mask (p : Z -> bool) (input_ids : list (list Z))
  : list (list Z) :=
  map (map (fun x => Z.b2z (p x))) input_ids.

(** One row of [spans_noise_masks]: the mask of the first [real_len]
    flags, padded with False to [optimal_len]. *)
Definition spans_noise_mask (self : DataCollatorForPretrain)
    (attn : list Z) (real_len : Z) : M (list bool) :=
  mask <- segment_spans_random_mask self (take (Z.to_nat real_len) attn) ;;
  lift (np.pad mask 0 (optimal_len self - real_len) false).

Definition __call__ (self : DataCollatorForPretrain) (examples : list Example)
  : M Batch :=
  _ <- lift (match examples with [] => Raise IndexError | _ => Ok tt end) ;;
  input_ids <- lift (as_matrix (map ex_input_ids examples)) ;;
  pop_order <- lift (as_matrix (map ex_pop_order examples)) ;;
  nml_labels <- lift (as_matrix (map ex_nml_labels examples)) ;;
  let real_len := map count_valid input_ids in
  let attn_mask :=
    map (map (fun x => if (x =? PKT_ID self) || (x =? HEAD_ID self)
                       then 0 else 1)) input_ids in
  spans_noise_masks <-
    mapM (fun '(attn, real_len) => spans_noise_mask self attn real_len)
         (zip attn_mask real_len) ;;
  input_sentinel <-
    lift (create_sentinel_ids (map (map Z.b2z) spans_noise_masks)) ;;
  let label_spans_noise_masks := map (map negb) spans_noise_masks in
  label_sentinel <-
    lift (create_sentinel_ids (map (map Z.b2z) label_spans_noise_masks)) ;;
  new_input_ids <-
    lift (filter_input_ids self input_ids input_sentinel
                           (max_length self) false) ;;
  labels <-
    lift (filter_input_ids self input_ids label_sentinel
                           (max_labels_length self) true) ;;
  let pop_mask := task_mask (PKT_ID self) new_input_ids pop_order in
  let nml_mask := task_mask (HEAD_ID self) new_input_ids nml_labels in
  if negb (count_true nml_mask =? Z.quot (count_nonneg_valid nml_labels) 4)
  then raise AssertionError else
  let pkt_token_mask := token_mask (fun x => x =? PKT_ID self) new_input_ids in
  let pkt_seg_index :=
    map (fun row => zip_with Z.sub (np.cumsum row) row) pkt_token_mask in
  let seg_token_mask :=
    token_mask (fun x => (x =? HEAD_ID self) || (x =? PKT_ID self))
               new_input_ids in
  let flipped_seg_mask := flip_segment_id seg_token_mask in
  let head_payload_seg_ind :=
    zip_with (zip_with Z.lxor) flipped_seg_mask seg_token_mask in
  (* the message of this ValueError reads [self.input_length], an attribute
     the class never sets *)
  if existsb (fun row => negb (Z.of_nat (length row) =? max_length self))
             new_input_ids
  then raise AttributeError else
  if existsb (fun row => negb (Z.of_nat (length row) =? max_labels_length self))
             labels
  then raise ValueError else
  ret {| input_ids := new_input_ids; labels := labels;
         pop_order := pop_order; nml_labels := nml_labels;
         pop_mask := pop_mask; nml_mask := nml_mask;
         pkt_seg_ind := pkt_seg_index;
         head_payload_seg_ind := head_payload_seg_ind |}.

(** ** pt_data_process: the offline flow preprocessor *)

Definition py_neg (x : pynum) : pynum :=
  match x with
  | PyInt z => PyInt (- z)
  | PyFloat x => PyFloat (SFopp x)
  end.

(** [a / b] on Python ints: the double nearest to the quotient (the
    operands are list lengths, far below 2^53, so their conversion is
    exact). *)
Definition py_div (a b : Z) : result float :=
  if b =? 0 then Raise ZeroDivisionError else Ok (fdiv (of_int a) (of_int b)).

(** [l[:stop]]: a list accepts only integers as slice bounds. *)
Definition slice_to {A} (l : list A) (stop : pynum) : result (list A) :=
  match stop with
  | PyInt z =>
      Ok (if 0 <=? z then take (Z.to_nat z) l
          else take (length l - Z.to_nat (- z)) l)
  | PyFloat _ => Raise TypeError
  end.

(** [dst[:len(src)] = src] on a row of dtype int8: the values wrap, the
    shapes must agree (a single value broadcasts). *)
Definition wrap8 (z : Z) : Z := (z + 128) mod 256 - 128.

Definition assign_prefix (dst src : list Z) : result (list Z) :=
  let n := Nat.min (length src) (length dst) in
  if (length src =? n)%nat then Ok (map wrap8 src ++ drop n dst)
  else if (length src =? 1)%nat
  then Ok (replicate n (wrap8 (default 0 (head src))) ++ drop n dst)
  else Raise ValueError.

(** [np.full((width,), v)]. *)
Definition full_row (width v : Z) : result (list Z) :=
  if width <? 0 then Raise ValueError else Ok (replicate (Z.to_nat width) v).

Module pt.

Record config := {
  numpy : np.version;
  decode : Z -> string;
  EOS_ID : Z;
  HEAD_ID : Z;
  PKT_ID : Z;
  optim_len : Z;
  pkt_per_flow : Z;
  pop_percent : float;
  pop_switch_gap : Z;
  nml_label_gap : Z
}.

Definition has_hash (s : string) : bool :=
  existsb (fun c => Ascii.eqb c "#"%char) (list_ascii_of_string s).

(** [s.replace('#', '')] *)
Definition remove_hash (s : string) : string :=
  string_of_list_ascii
    (List.filter (fun c => negb (Ascii.eqb c "#"%char))
                 (list_ascii_of_string s)).

Definition short (s : string) : bool := (String.length s <? 4)%nat.

(** [l[-k]] for [k = 1, 2]. *)
Definition from_end (l : list Z) (k : nat) : result Z :=
  if (k <=? length l)%nat
  then Ok (default 0 (l !! (length l - k)%nat))
  else Raise IndexError.

Definition _trunc_sanity_check (c : config) (truncted_content : list Z)
  : result (list Z) :=
  if (0 <? length truncted_content)%nat then
    str <-? (x <-? from_end truncted_content 1 ;; Ok (decode c x)) ;;
    if negb (has_hash str) && short str then
      Ok (take (length truncted_content - 1) truncted_content)
    else if has_hash str then
      str2 <-? (x <-? from_end truncted_content 2 ;; Ok (decode c x)) ;;
      let str2 := (str2 ++ remove_hash str)%string in
      if negb (has_hash str2) && short str2 then
        Ok (take (length truncted_content - 2) truncted_content)
      else Ok truncted_content
    else Ok truncted_content
  else Ok truncted_content.

(** [groupby(input_text, key=lambda k: k != PKT_ID)], keeping the groups
    whose key is true: the maximal runs free of [<pkt>]. *)
Fixpoint split_packets (pkt_id : Z) (cur : list Z) (l : list Z)
  : list (list Z) :=
  match l with
  | [] => match cur with [] => [] | _ => [cur] end
  | x :: r =>
      if x =? pkt_id
      then match cur with
           | [] => split_packets pkt_id [] r
           | _ => cur :: split_packets pkt_id [] r
           end
      else split_packets pkt_id (cur ++ [x]) r
  end.

(** [pkt.index(HEAD_ID)] *)
Fixpoint list_index (x : Z) (l : list Z) : result nat :=
  match l with
  | [] => Raise ValueError
  | y :: r => if y =? x then Ok 0%nat
              else i <-? list_index x r ;; Ok (S i)
  end.

Record hd_pd := { header : list Z; raw : list Z }.

Definition split_header (c : config) (pkt : list Z) : result hd_pd :=
  i <-? list_index (HEAD_ID c) pkt ;;
  Ok {| header := take i pkt; raw := drop (S i) pkt |}.

Definition sum_len {A} (f : A -> list Z) (l : list A) : Z :=
  foldr (fun x acc => Z.of_nat (length (f x)) + acc) 0 l.

(** [x[:-np.ceil(int(delete_len * ratio))]] followed by the sanity check. *)
Definition cut_end (c : config) (delete_len : Z) (ratio : float) (x : list Z)
  : result (list Z) :=
  k <-? py_int (fmul (of_int delete_len) ratio) ;;
  x <-? slice_to x (py_neg (np.ceil (numpy c) k)) ;;
  _trunc_sanity_check c x.

(** The branch of [tokenize_pt_func] taken when [current_len > optim_len]. *)
Definition truncate (c : config) (current_len : Z) (packets : list (list Z))
  : result (list (list Z)) :=
  let packet_num := Z.of_nat (length packets) in
  let optim_len_wo_special_tokens := optim_len c - packet_num - 1 in
  let delete_len := current_len - optim_len_wo_special_tokens in
  header_payload <-? rmapM (split_header c) packets ;;
  let total_payload_len := sum_len raw header_payload in
  let total_header_len := sum_len header header_payload in
  header_payload <-?
    (if delete_len <=? total_payload_len then
       ratio <-? rmapM (fun pkt => py_div (Z.of_nat (length (raw pkt)))
                                          total_payload_len)
                       header_payload ;;
       rmapM2 (fun pkt r =>
                 raw' <-? cut_end c delete_len r (raw pkt) ;;
                 Ok {| header := header pkt; raw := raw' |})
              header_payload ratio
     else
       let delete_len := delete_len - total_payload_len in
       ratio <-? rmapM (fun pkt => py_div (Z.of_nat (length (header pkt)))
                                          total_header_len)
                       header_payload ;;
       rmapM2 (fun pkt r =>
                 header' <-? cut_end c delete_len r (header pkt) ;;
                 Ok {| header := header'; raw := [] |})
              header_payload ratio) ;;
  Ok (map (fun packet => header packet ++ [HEAD_ID c] ++ raw packet)
          header_payload).

(** [a[i], a[j] = b[j], b[i]] on index arrays. *)
Definition swap_into (a b : list Z) (i j : Z) : result (list Z) :=
  bj <-? (k <-? np.index (length b) j ;; Ok (default 0 (b !! k))) ;;
  bi <-? (k <-? np.index (length b) i ;; Ok (default 0 (b !! k))) ;;
  ki <-? np.index (length a) i ;;
  let a := <[ki := bj]> a in
  kj <-? np.index (length a) j ;;
  Ok (<[kj := bi]> a).

(** [[packets[order] for order in packet_order_permute]] *)
Definition reorder (packets : list (list Z)) (order : list Z)
  : result (list (list Z)) :=
  rmapM (fun o => k <-? np.index (length packets) o ;;
                  Ok (default [] (packets !! k))) order.

(** The packets of a flow: the groups between [<pkt>] tokens, without a
    last group that is the end marker alone ([packets.pop()]). *)
Definition flow_packets (c : config) (input_text : list Z)
  : result (list (list Z)) :=
  let packets := split_packets (PKT_ID c) [] input_text in
  match last packets with
  | None => Raise IndexError
  | Some p =>
      if (default 0 (head p) =? EOS_ID c) && (length p =? 1)%nat
      then Ok (drop_last packets) else Ok packets
  end.

(** The block under [if id_input in pop_index]: the permuted packets
    and the row of [pop_order]. *)
Definition pop_permute (c : config) (packet_num : Z)
    (packets : list (list Z)) (pop_row : list Z)
  : M (list (list Z) * list Z) :=
  let packet_order := np.arange packet_num in
  let packet_order_permute := packet_order in
  packet_order_permute <-
    (if packet_num <=? pop_switch_gap c then ret packet_order_permute
     else
       first_cand <- randint (packet_num - pop_switch_gap c) ;;
       let second_cand := first_cand + pop_switch_gap c in
       lift (swap_into packet_order_permute packet_order
                       first_cand second_cand)) ;;
  pop_row <- lift (assign_prefix pop_row packet_order_permute) ;;
  packets <- lift (reorder packets packet_order_permute) ;;
  ret (packets, pop_row).

(** One round of the loop over [tknzed_input]: the new token list of the
    flow and its row of [pop_order]. *)
Definition process_flow (c : config) (in_pop_index : bool)
    (input_text : list Z) : M (list Z * list Z) :=
  pop_row <- lift (full_row (pkt_per_flow c) (-100)) ;;
  let current_len := Z.of_nat (length input_text) in
  packets <- lift (flow_packets c input_text) ;;
  let packet_num := Z.of_nat (length packets) in
  packets <-
    (if optim_len c <? current_len
     then lift (truncate c current_len packets)
     else ret packets) ;;
  reordered <-
    (if in_pop_index then pop_permute c packet_num packets pop_row
     else ret (packets, pop_row)) ;;
  let '(packets, pop_row) := reordered in
  let packets := map (fun pkt => pkt ++ [PKT_ID c]) packets in
  let tokens := concat packets in
  if Z.of_nat (length tokens) <=? optim_len c - 1
  then ret (tokens, pop_row)
  else raise AssertionError.

(** The row of [nml_labels] of one flow. *)
Definition nml_row (c : config) (actual_label : list Z) : result (list Z) :=
  row <-? full_row (pkt_per_flow c * nml_label_gap c) (-100) ;;
  assign_prefix row actual_label.

(** [np.random.choice(input_index, k, replace=False)] *)
Definition choice (n k : Z) : M (list Z) :=
  fun g =>
    if (k <? 0) || (n <? k) then Raise ValueError
    else let '(p, g') := shuffle (np.arange n) g in
         Ok (take (Z.to_nat k) p, g').

Definition mem (x : Z) (l : list Z) : bool := existsb (Z.eqb x) l.

(** [tokenize_pt_func] on a batch of tokenised flows; the label strings
    are taken already parsed, one flat array per flow. *)
Definition tokenize_pt_func (c : config)
    (tknzed_input : list (list Z)) (nml_actual_labels : list (list Z))
  : M (list (list Z) * list (list Z) * list (list Z)) :=
  let n := Z.of_nat (length tknzed_input) in
  k <- lift (py_int (fmul (of_int n) (pop_percent c))) ;;
  pop_index <- choice n k ;;
  nml_labels <- lift (
    if (length tknzed_input <? length nml_actual_labels)%nat
    then Raise IndexError
    else rmapM (nml_row c)
           (nml_actual_labels ++
            replicate (length tknzed_input - length nml_actual_labels) [])) ;;
  rows <- mapM (fun '(id_input, input_text) =>
                  process_flow c (mem id_input pop_index) input_text)
               (zip (np.arange n) tknzed_input) ;;
  let tknzed_input :=
    map (fun '(i, _) =>
           i ++ replicate (Z.to_nat (optim_len c - Z.of_nat (length i))) (-100))
        rows in
  ret (tknzed_input, map snd rows, nml_labels).

End pt.

(** ** Notions used to state the properties *)

(** Run lengths of a 0/1 step sequence: [cur] entries are already in the
    current run, a [true] starts a new one. *)
Fixpoint runs (cur : nat) (bits : list bool) : list nat :=
  match bits with
  | [] => [cur]
  | true :: r => cur :: runs 1 r
  | false :: r => runs (S cur) r
  end.

(** The same with the value each run sits at, as [np.unique] pairs them. *)
Fixpoint runs_kv (v : Z) (cur : nat) (bits : list bool) : list (Z * Z) :=
  match bits with
  | [] => [(v, Z.of_nat cur)]
  | true :: r => (v, Z.of_nat cur) :: runs_kv (v + 1) 1 r
  | false :: r => runs_kv v (S cur) r
  end.

(** Alternating spans: [c] entries equal to [b], then the next length with
    the other value. *)
Fixpoint paint (b : bool) (L : list nat) : list bool :=
  match L with
  | [] => []
  | c :: r => replicate c b ++ paint (negb b) r
  end.

(** The indicator of the starts of the spans after the current one. *)
Fixpoint ind_tail (L : list nat) : list Z :=
  match L with
  | [] => []
  | c :: r => 1 :: replicate (c - 1) 0 ++ ind_tail r
  end.

Definition interleave (cs ns : list nat) : list nat :=
  concat (map (fun p => [p.1; p.2]) (zip cs ns)).

(** The number of maximal runs of [true] in a mask ([prev] is the entry to
    the left of the list). *)
Fixpoint true_runs (prev : bool) (l : list bool) : nat :=
  match l with
  | [] => 0
  | b :: r => ((if b && negb prev then 1 else 0) + true_runs b r)%nat
  end.

Definition count_noise (l : list bool) : nat :=
  length (filter (fun b => b = true) l).

(** The mask density property as the specification words it: the call
    returns a mask of [length] entries, [noise_count] of them noise, in
    [span_count] maximal runs. *)
Definition mask_density (self : DataCollatorForPretrain) (length : Z) (g : rng)
  : Prop :=
  exists (n k : Z) mask g',
    py_int (np.round (fmul (of_int length) (noise_density self))) = Ok n
    /\ let noise_count := Z.min (Z.max n 1) (length - 1) in
       py_int (np.round (fdiv (of_int noise_count)
                              (mean_noise_span_length self))) = Ok k
       /\ let span_count := Z.max k 1 in
          random_spans_noise_mask self length g = Ok (mask, g')
          /\ Z.of_nat (List.length mask) = length
          /\ Z.of_nat (count_noise mask) = noise_count
          /\ Z.of_nat (true_runs false mask) = span_count.

(** The span starts of a mask: [mask[i] and not mask[i-1]], with [prev] to
    the left of the first entry. *)
Fixpoint starts_from (prev : bool) (mask : list bool) : list bool :=
  match mask with
  | [] => []
  | b :: r => (b && negb prev) :: starts_from b r
  end.

Definition span_starts (mask : list bool) : list bool :=
  starts_from false mask.

(** The 1-based number of the last span that starts at or before [i]. *)
Definition span_number (mask : list bool) (i : nat) : Z :=
  Z.of_nat (count_noise (take (S i) (span_starts mask))).

(** The sentinel row read off the mask from left to right, [k] spans
    having started so far. *)
Fixpoint sentinel_spec (prev : bool) (k : Z) (mask : list bool) : list Z :=
  match mask with
  | [] => []
  | true :: r =>
      if prev then -1 :: sentinel_spec true k r
      else (extra_start_token_id - (k + 1)) :: sentinel_spec true (k + 1) r
  | false :: r => 0 :: sentinel_spec false k r
  end.

(** [<head>] and [<pkt>] are the structural tokens. *)
Definition is_marker (self : DataCollatorForPretrain) (x : Z) : bool :=
  (x =? HEAD_ID self) || (x =? PKT_ID self).

(** [head_payload_seg_ind] of one row, as [__call__] computes it. *)
Definition head_payload_row (self : DataCollatorForPretrain) (row : list Z)
  : list Z :=
  let seg_token_mask := map (fun x => Z.b2z (is_marker self x)) row in
  zip_with Z.lxor (flip_row seg_token_mask) seg_token_mask.

Definition marker_count (self : DataCollatorForPretrain) (l : list Z) : nat :=
  length (filter (fun x => is_marker self x = true) l).

(** The structural token nearest to the end of [l]. *)
Fixpoint last_marker (self : DataCollatorForPretrain) (l : list Z)
  : option Z :=
  match l with
  | [] => None
  | x :: r =>
      match last_marker self r with
      | Some m => Some m
      | None => if is_marker self x then Some x else None
      end
  end.

(** A header region runs from the row start or from behind a [<pkt>] up to
    and including the next [<head>]: position [i] is in one when no
    structural token precedes it or the nearest one that does is [<pkt>]. *)
Definition in_header_region (self : DataCollatorForPretrain)
    (row : list Z) (i : nat) : bool :=
  match last_marker self (take i row) with
  | None => true
  | Some m => m =? PKT_ID self
  end.

(** [<head>] and [<pkt>] take turns along the row; [expect_head] says
    which one is due next. *)
Fixpoint alternates (self : DataCollatorForPretrain) (expect_head : bool)
    (row : list Z) : bool :=
  match row with
  | [] => true
  | x :: r =>
      if x =? HEAD_ID self then expect_head && alternates self false r
      else if x =? PKT_ID self then negb expect_head && alternates self true r
      else alternates self expect_head r
  end.

(** The output row of [flip_segment_id]: the running flag after each
    column, flipped at every 1. *)
Fixpoint flip_spec (p : bool) (seg : list Z) : list Z :=
  match seg with
  | [] => []
  | s :: r =>
      let p' := if s =? 1 then negb p else p in
      Z.b2z p' :: flip_spec p' r
  end.

Definition flip_state (p : bool) (seg : list Z) : bool :=
  foldl (fun p s => if s =? 1 then negb p else p) p seg.

(** The packets of a flow with [<pkt>] put back behind each of them. *)
Definition serialize (c : pt.config) (packets : list (list Z)) : list Z :=
  concat (map (fun pkt => pkt ++ [pt.PKT_ID c]) packets).

(** The Sequence Compactor in the specification's words.  A non-zero
    sentinel takes the place of the token at its position; *)
Fixpoint overlaid (input_ids sentinel_ids : list Z) : list Z :=
  match input_ids, sentinel_ids with
  | x :: input_ids, s :: sentinel_ids =>
      (if s =? 0 then x else s) :: overlaid input_ids sentinel_ids
  | _, _ => []
  end.

(** the negative positions are dropped, the others keep their order; *)
Fixpoint non_negative (l : list Z) : list Z :=
  match l with
  | [] => []
  | x :: r => if x <? 0 then non_negative r else x :: non_negative r
  end.

(** a label row also loses the last entry that was kept. *)
Fixpoint without_last (l : list Z) : list Z :=
  match l with
  | [] => []
  | [_] => []
  | x :: r => x :: without_last r
  end.

Definition compacted (is_label : bool) (input_ids sentinel_ids : list Z)
  : list Z :=
  let kept := non_negative (overlaid input_ids sentinel_ids) in
  if is_label then without_last kept else kept.

(** The row the compactor is to return: end marker, then padding. *)
Definition padded_row (self : DataCollatorForPretrain) (set_length : Z)
    (is_label : bool) (input_ids sentinel_ids : list Z) : list Z :=
  let arr := compacted is_label input_ids sentinel_ids in
  arr ++ [EOS_ID self]
      ++ replicate (Z.to_nat (set_length - Z.of_nat (length arr) - 1))
                   (if is_label then -100 else PAD_ID self).

(** ** Settings and inputs of the examples *)

(** Collator settings used in the examples: the tokenizer ids of the
    source's comments, and a noise density per example. *)
Definition collator (density mean : Q) (min_span : Z) (len : Z)
  : DataCollatorForPretrain :=
  {| PAD_ID := 0; EOS_ID := 1; HEAD_ID := 3; PKT_ID := 4;
     max_length := len; optimal_len := len; max_labels_length := len;
     noise_density := decimal density;
     mean_noise_span_length := decimal mean;
     min_mask_span_length := min_span |}.

(** Preprocessor settings used in the examples: the tokenizer ids of the
    source's comments; every token decodes to four hex digits; every flow
    is selected for POP. *)
Definition flow_config_on (numpy : np.version)
    (optim_len pkt_per_flow pop_switch_gap : Z) : pt.config :=
  {| pt.numpy := numpy;
     pt.decode := fun _ => "abcd"%string;
     pt.EOS_ID := 1; pt.HEAD_ID := 3; pt.PKT_ID := 4;
     pt.optim_len := optim_len; pt.pkt_per_flow := pkt_per_flow;
     pt.pop_percent := decimal 1; pt.pop_switch_gap := pop_switch_gap;
     pt.nml_label_gap := 4 |}.

Definition flow_config : Z -> Z -> Z -> pt.config :=
  flow_config_on np.before_2_1.

(** A flow of one packet that carries five layer labels. *)
Definition five_label_example : Example :=
  {| ex_input_ids := [10; 3; 11; 4; -100; -100];
     ex_pop_order := [-100; -100];
     ex_nml_labels := [0; 2; 3; 2; 1; -100; -100; -100] |}.

(** A row that begins with [<pkt>], as the second example in the source's
    own [__main__] block does. *)
Definition pkt_first_example : Example :=
  {| ex_input_ids := [4; 10; 3; 11; 4; -100];
     ex_pop_order := [-100; -100];
     ex_nml_labels := [0; 2; 3; 2; -100; -100; -100; -100] |}.

(** A flow of one packet with its four layer labels, and the batches the
    collator returns for the two example flows (segments shorter than
    [min_mask_span_length] are not masked, so no randomness is drawn). *)
Definition four_label_example : Example :=
  {| ex_input_ids := [10; 3; 11; 4; -100; -100];
     ex_pop_order := [-100; -100];
     ex_nml_labels := [0; 2; 3; 2; -100; -100; -100; -100] |}.

Definition example_batch (nml : list Z) : Batch :=
  {| input_ids := [[10; 3; 11; 4; 1; 0]];
     labels := [[1; -100; -100; -100; -100; -100]];
     pop_order := [[-100; -100]];
     nml_labels := [nml];
     pop_mask := [[false; false; false; false; false; false]];
     nml_mask := [[false; true; false; false; false; false]];
     pkt_seg_ind := [[0; 0; 0; 0; 1; 1]];
     head_payload_seg_ind := [[1; 1; 0; 0; 1; 1]] |}.

(** ** More of the two modules *)




(** [pkt_seg_ind] of one row, as [__call__] computes it. *)
Definition pkt_seg_row (self : DataCollatorForPretrain) (row : list Z)
  : list Z :=
  let pkt_token_mask := map (fun x => Z.b2z (x =? PKT_ID self)) row in
  zip_with Z.sub (np.cumsum pkt_token_mask) pkt_token_mask.

(** ** Notions used to state the further properties *)

(** Span corruption as T5 describes it: every maximal masked run gives way
    to one sentinel, [107 - k] for the [k]-th run; unmasked tokens stay,
    unless they are negative (padding). *)
Fixpoint corrupt (prev : bool) (k : Z) (mask : list bool) (tokens : list Z)
  : list Z :=
  match mask, tokens with
  | b :: mask, x :: tokens =>
      if b then
        if prev then corrupt true k mask tokens
        else (extra_start_token_id - (k + 1)) :: corrupt true (k + 1) mask tokens
      else if 0 <=? x then x :: corrupt false k mask tokens
           else corrupt false k mask tokens
  | _, _ => []
  end.

(** The number of [<pkt>] tokens in a list. *)
Definition pkt_count (self : DataCollatorForPretrain) (l : list Z) : Z :=
  Z.of_nat (length (filter (fun x => x = PKT_ID self) l)).

(** Two batch tensors of one shape: as many rows, and row by row as many
    columns. *)
Definition same_shape {A B} (m : list (list A)) (n : list (list B)) : Prop :=
  Forall2 (fun r s => length r = length s) m n.

(** A list with the entries at [s] and [t] exchanged. *)
Definition swap_at {A} (s t : nat) (l : list A) : list A :=
  match l !! s, l !! t with
  | Some x, Some y => <[t := x]> (<[s := y]> l)
  | _, _ => l
  end.

(** A packet cut at its ends: [<head>] stays, in front of it is left a
    prefix of the header and behind it a prefix of the payload. *)
Definition truncated (c : pt.config) (pkt cut : list Z) : Prop :=
  exists h r h' r',
    pkt = h ++ pt.HEAD_ID c :: r /\ (pt.HEAD_ID c ∉ h)
    /\ cut = h' ++ pt.HEAD_ID c :: r'
    /\ h' `prefix_of` h /\ r' `prefix_of` r.

(** A packet as [groupby] yields it: some tokens, none of them [<pkt>]. *)
Definition is_packet (c : pt.config) (p : list Z) : Prop :=
  p <> [] /\ (pt.PKT_ID c ∉ p).

(** * Properties *)

(** ** The error monad *)

Lemma bind_Ok {A B} (m : M A) (k : A -> M B) g b g' :
  (x <- m ;; k x) g = Ok (b, g') ->
  exists a g1, m g = Ok (a, g1) /\ k a g1 = Ok (b, g').
Proof.
  unfold bind. destruct (m g) as [[a g1]|e]; [|discriminate]. eauto.
Qed.

Lemma rbind_Ok {A B} (m : result A) (k : A -> result B) b :
  (x <-? m ;; k x) = Ok b -> exists a, m = Ok a /\ k a = Ok b.
Proof. destruct m; simpl; [eauto|discriminate]. Qed.

Lemma lift_Ok {A} (r : result A) g a g' :
  lift r g = Ok (a, g') -> r = Ok a /\ g' = g.
Proof. unfold lift. destruct r; intros H; inversion H; auto. Qed.

(** ** numpy helpers *)

Lemma map_fmap {A B} (f : A -> B) l : map f l = f <$> l.
Proof. reflexivity. Qed.

Lemma map_replicate {A B} (f : A -> B) n x :
  map f (replicate n x) = replicate n (f x).
Proof. apply fmap_replicate. Qed.

Lemma cumsum_from_length acc l : length (np.cumsum_from acc l) = length l.
Proof. revert acc; induction l; simpl; auto. Qed.

Lemma cumsum_from_replicate_0 acc n l :
  np.cumsum_from acc (replicate n 0 ++ l)
  = replicate n acc ++ np.cumsum_from acc l.
Proof.
  induction n; simpl; auto. rewrite Z.add_0_r, IHn. reflexivity.
Qed.

Lemma runs_kv_snd v cur bits :
  map snd (runs_kv v cur bits) = map Z.of_nat (runs cur bits).
Proof.
  revert v cur; induction bits as [|[] r IH]; intros; simpl; auto.
  f_equal; apply IH.
Qed.

Lemma runs_kv_head v cur bits :
  exists c t, runs_kv v cur bits = (v, c) :: t.
Proof.
  revert cur; induction bits as [|[] r IH]; intros; simpl; eauto.
Qed.

Lemma count_into_same v cur bits :
  np.count_into v (runs_kv v cur bits) = runs_kv v (S cur) bits.
Proof.
  revert cur; induction bits as [|[] r IH]; intros; simpl.
  - rewrite Z.ltb_irrefl, Z.eqb_refl. do 2 f_equal. lia.
  - rewrite Z.ltb_irrefl, Z.eqb_refl. do 2 f_equal. lia.
  - apply IH.
Qed.

Lemma count_into_below v cur bits :
  np.count_into v (runs_kv (v + 1) cur bits) = (v, 1) :: runs_kv (v + 1) cur bits.
Proof.
  destruct (runs_kv_head (v + 1) cur bits) as (c & t & ->). simpl.
  destruct (Z.ltb_spec v (v + 1)); [reflexivity|lia].
Qed.

Lemma unique_counts_steps v bits :
  np.unique_counts (v :: np.cumsum_from v (map Z.b2z bits))
  = map Z.of_nat (runs 1 bits).
Proof.
  unfold np.unique_counts. rewrite <- (runs_kv_snd v). f_equal.
  revert v; induction bits as [|[] r IH]; intros v.
  - reflexivity.
  - change (foldr np.count_into [] (v :: np.cumsum_from v (map Z.b2z (true :: r))))
      with (np.count_into v (foldr np.count_into []
              ((v + 1) :: np.cumsum_from (v + 1) (map Z.b2z r)))).
    rewrite IH. exact (count_into_below v 1 r).
  - change (foldr np.count_into [] (v :: np.cumsum_from v (map Z.b2z (false :: r))))
      with (np.count_into v (foldr np.count_into []
              ((v + 0) :: np.cumsum_from (v + 0) (map Z.b2z r)))).
    rewrite Z.add_0_r, IH. exact (count_into_same v 1 r).
Qed.

Lemma runs_length cur bits :
  length (runs cur bits) = S (length (filter (fun b => b = true) bits)).
Proof.
  revert cur; induction bits as [|[] r IH]; intros; simpl; auto.
Qed.

Lemma runs_sum cur bits :
  sum_list (runs cur bits) = (cur + length bits)%nat.
Proof.
  revert cur; induction bits as [|[] r IH]; intros; simpl; try lia.
  - rewrite IH. lia.
  - rewrite IH. lia.
Qed.

Lemma runs_pos cur bits :
  (1 <= cur)%nat -> Forall (fun c => (1 <= c)%nat) (runs cur bits).
Proof.
  revert cur; induction bits as [|[] r IH]; intros; simpl; auto.
Qed.

(** ** The random stream *)

Lemma shuffle_perm {A} (l : list A) g : (shuffle l g).1 ≡ₚ l.
Proof.
  revert g; induction l as [|x r IH]; intros g; simpl; [done|].
  specialize (IH g). destruct (shuffle r g) as [r' g']. simpl in IH.
  destruct (draw (S (length r')) g') as [j g'']. simpl.
  rewrite <- Permutation_middle, take_drop. by constructor.
Qed.

(** ** The span layout behind [random_spans_noise_mask] *)

Lemma drop_last_cons {A} (x y : A) l :
  drop_last (x :: y :: l) = x :: drop_last (y :: l).
Proof. unfold drop_last. simpl. rewrite Nat.sub_0_r. reflexivity. Qed.

Lemma length_ind_tail L :
  Forall (fun c => (1 <= c)%nat) L -> length (ind_tail L) = sum_list L.
Proof.
  induction 1 as [|c r Hc _ IH]; simpl; auto.
  rewrite length_app, length_replicate, IH. lia.
Qed.

Lemma index_in_range n i :
  (i < n)%nat -> np.index n (Z.of_nat i) = Ok i.
Proof.
  intros H. unfold np.index.
  destruct (Z.leb_spec 0 (Z.of_nat i)); [|lia].
  destruct (Z.ltb_spec (Z.of_nat i) (Z.of_nat n)); [|lia].
  simpl. rewrite Nat2Z.id. reflexivity.
Qed.

Lemma starts_cons a c c' r :
  drop_last (np.cumsum_from a (c :: c' :: r))
  = (a + c) :: drop_last (np.cumsum_from (a + c) (c' :: r)).
Proof. simpl. apply drop_last_cons. Qed.

Lemma index_add n i j :
  (i + j < n)%nat -> np.index n (Z.of_nat i + Z.of_nat j) = Ok (i + j)%nat.
Proof.
  intros H. rewrite <- Nat2Z.inj_add. by apply index_in_range.
Qed.

Lemma put_starts r : forall pre x c,
  (1 <= c)%nat -> Forall (fun c => (1 <= c)%nat) r ->
  np.put (pre ++ x :: replicate (c - 1 + sum_list r) 0)
         (drop_last (np.cumsum_from (Z.of_nat (length pre))
                                    (map Z.of_nat (c :: r)))) 1
  = Ok (pre ++ x :: replicate (c - 1) 0 ++ ind_tail r).
Proof.
  induction r as [|c' r' IH]; intros pre x c Hc Hr.
  - simpl. rewrite Nat.add_0_r, app_nil_r. reflexivity.
  - inversion Hr as [|? ? Hc' Hr']; subst.
    rewrite !map_cons, starts_cons. cbn [np.put].
    rewrite index_add
      by (rewrite length_app; simpl; rewrite length_replicate; simpl; lia).
    cbn [rbind].
    replace (pre ++ x :: replicate (c - 1 + sum_list (c' :: r')) 0)
      with ((pre ++ x :: replicate (c - 1) 0)
              ++ 0 :: replicate (c' - 1 + sum_list r') 0).
    2:{ rewrite <- app_assoc. simpl. do 2 f_equal.
        replace (c - 1 + (c' + sum_list r'))%nat
          with ((c - 1) + S (c' - 1 + sum_list r'))%nat by lia.
        rewrite (replicate_add (c - 1) (S (c' - 1 + sum_list r'))).
        reflexivity. }
    assert (Hlen : length (pre ++ x :: replicate (c - 1) 0) = (length pre + c)%nat).
    { rewrite length_app. simpl. rewrite length_replicate. lia. }
    rewrite insert_app_r_alt by lia.
    rewrite Hlen, Nat.sub_diag.
    change (<[0%nat:=1]> (0 :: replicate (c' - 1 + sum_list r') 0))
      with (1 :: replicate (c' - 1 + sum_list r') 0).
    specialize (IH (pre ++ x :: replicate (c - 1) 0) 1 c' Hc' Hr').
    rewrite Hlen, Nat2Z.inj_add, map_cons in IH.
    rewrite IH. simpl. rewrite <- app_assoc. reflexivity.
Qed.

Lemma parity_succ a :
  ((a + 1) mod 2 =? 1) = negb (a mod 2 =? 1).
Proof.
  rewrite <- !Zodd_mod. change (a + 1) with (Z.succ a).
  rewrite Z.odd_succ, <- Z.negb_odd. reflexivity.
Qed.

Lemma cumsum_ind_tail a L :
  Forall (fun c => (1 <= c)%nat) L ->
  map (fun n => n mod 2 =? 1) (np.cumsum_from a (ind_tail L))
  = paint ((a + 1) mod 2 =? 1) L.
Proof.
  intros H; revert a; induction H as [|c r Hc _ IH]; intros a; [reflexivity|].
  destruct c as [|c]; [lia|].
  cbn [ind_tail np.cumsum_from map paint]. rewrite Nat.sub_succ, Nat.sub_0_r.
  rewrite cumsum_from_replicate_0, map_app, map_replicate, IH.
  rewrite (parity_succ (a + 1)). reflexivity.
Qed.

(** ** [_random_segmentation] *)

Lemma count_below t k :
  length (filter (fun b => b = true)
                 (map (fun i => i <? t) (map Z.of_nat (seq 0 k))))
  = Nat.min (Z.to_nat t) k.
Proof.
  induction k as [|k IH]; [simpl; lia|].
  rewrite seq_S, !map_app, filter_app, length_app, IH. simpl.
  destruct (Z.ltb_spec (Z.of_nat k) t); simpl; lia.
Qed.

Lemma random_segmentation_spec num_items num_segments g :
  exists L g',
    _random_segmentation num_items num_segments g = Ok (map Z.of_nat L, g')
    /\ Forall (fun c => (1 <= c)%nat) L
    /\ sum_list L = S (Z.to_nat (num_items - 1))
    /\ length L = S (Nat.min (Z.to_nat (num_segments - 1))
                             (Z.to_nat (num_items - 1))).
Proof.
  unfold _random_segmentation.
  set (mask := map (fun i => i <? num_segments - 1) (np.arange (num_items - 1))).
  pose proof (shuffle_perm mask g) as Hp.
  destruct (shuffle mask g) as [sh g']. simpl in Hp.
  exists (runs 1 sh), g'. split; [|split; [|split]].
  - do 2 f_equal. exact (unique_counts_steps 0 sh).
  - apply runs_pos. lia.
  - rewrite runs_sum. f_equal.
    rewrite (Permutation_length Hp). unfold mask, np.arange.
    rewrite !length_map, length_seq. reflexivity.
  - rewrite runs_length. f_equal. rewrite Hp. apply count_below.
Qed.

(** ** [random_spans_noise_mask] *)

Lemma interleave_of_nat cs ns :
  concat (map (fun p : Z * Z => [p.1; p.2])
              (zip (map Z.of_nat cs) (map Z.of_nat ns)))
  = map Z.of_nat (interleave cs ns).
Proof.
  unfold interleave. revert ns; induction cs as [|c cs IH]; intros [|n ns];
    simpl; auto. rewrite IH. reflexivity.
Qed.

Lemma interleave_sum cs ns :
  length cs = length ns ->
  sum_list (interleave cs ns) = (sum_list cs + sum_list ns)%nat.
Proof.
  unfold interleave. revert ns; induction cs as [|c cs IH]; intros [|n ns] H;
    simpl in *; try lia. rewrite IH by lia. lia.
Qed.

Lemma interleave_pos cs ns :
  Forall (fun c => (1 <= c)%nat) cs -> Forall (fun c => (1 <= c)%nat) ns ->
  Forall (fun c => (1 <= c)%nat) (interleave cs ns).
Proof.
  unfold interleave. intros H; revert ns; induction H as [|c cs Hc _ IH];
    intros ns Hn; [constructor|].
  destruct Hn as [|n ns Hn Hns]; simpl; [constructor|].
  repeat constructor; auto.
Qed.

Lemma length_paint b L : length (paint b L) = sum_list L.
Proof.
  revert b; induction L as [|c r IH]; intros b; simpl; auto.
  rewrite length_app, length_replicate, IH. reflexivity.
Qed.

(** What the indicator / cumulative-sum / parity computation makes of a list
    of positive span lengths. *)
Lemma spans_to_mask (L : list nat) (length : Z) :
  L <> [] -> Forall (fun c => (1 <= c)%nat) L ->
  Z.to_nat length = sum_list L -> 0 <= length ->
  (z <-? np.zeros length ;;
   np.put z (drop_last (np.cumsum (map Z.of_nat L))) 1)
  = Ok (0 :: replicate (hd 0%nat L - 1) 0 ++ ind_tail (tl L)).
Proof.
  intros Hne Hpos Hsum Hlen. destruct L as [|c r]; [done|].
  inversion Hpos as [|? ? Hc Hr]; subst.
  unfold np.zeros. destruct (Z.ltb_spec length 0); [lia|]. cbn [rbind hd tl].
  pose proof (put_starts r [] 0 c Hc Hr) as H0. cbn [app List.length] in H0.
  unfold np.cumsum. change (Z.of_nat 0) with 0 in H0. rewrite <- H0.
  f_equal. rewrite Hsum. simpl. replace (c + sum_list r)%nat
    with (S (c - 1 + sum_list r)) by lia. reflexivity.
Qed.

Lemma mask_of_spans (L : list nat) :
  L <> [] -> Forall (fun c => (1 <= c)%nat) L ->
  map (fun n => n mod 2 =? 1)
      (np.cumsum (0 :: replicate (hd 0%nat L - 1) 0 ++ ind_tail (tl L)))
  = paint false L.
Proof.
  intros Hne Hpos. destruct L as [|c r]; [done|].
  inversion Hpos as [|? ? Hc Hr]; subst. cbn [hd tl].
  unfold np.cumsum. cbn [np.cumsum_from]. rewrite Z.add_0_r.
  rewrite cumsum_from_replicate_0. cbn [map]. rewrite map_app, map_replicate.
  rewrite cumsum_ind_tail by assumption.
  destruct c as [|c]; [lia|]. simpl. rewrite Nat.sub_0_r. reflexivity.
Qed.

Section NoiseMask.
Variable self : DataCollatorForPretrain.
Variable length : Z.
Variables nnt k : Z.
Hypothesis Hnnt : num_noise_tokens self length = Ok nnt.
Hypothesis Hk : num_noise_spans self length = Ok k.

Lemma num_noise_spans_pos : 1 <= k.
Proof.
  unfold num_noise_spans in Hk. apply rbind_Ok in Hk as (n & _ & H).
  destruct (_ && _); [discriminate|].
  apply rbind_Ok in H as (k0 & _ & H). inversion H. lia.
Qed.

Lemma num_noise_tokens_range : 2 <= length -> 1 <= nnt <= length - 1.
Proof.
  unfold num_noise_tokens in Hnnt. apply rbind_Ok in Hnnt as (n & _ & H).
  inversion H. lia.
Qed.

Lemma random_spans_noise_mask_ok g :
  1 <= nnt -> 1 <= length - nnt -> k <= nnt -> k <= length - nnt ->
  exists cs ns g',
    random_spans_noise_mask self length g
    = Ok (paint false (interleave cs ns), g')
    /\ List.length cs = Z.to_nat k /\ List.length ns = Z.to_nat k
    /\ Forall (fun c => (1 <= c)%nat) cs
    /\ Forall (fun c => (1 <= c)%nat) ns
    /\ sum_list cs = Z.to_nat (length - nnt)
    /\ sum_list ns = Z.to_nat nnt.
Proof.
  intros Hn1 Hc1 Hkn Hkc.
  pose proof num_noise_spans_pos as Hk1.
  unfold random_spans_noise_mask. rewrite Hnnt, Hk.
  unfold bind at 1, lift at 1. unfold bind at 1, lift at 1.
  unfold bind at 1.
  destruct (random_segmentation_spec nnt k g) as (ns & g1 & -> & Hns & Hsn & Hln).
  unfold bind at 1.
  destruct (random_segmentation_spec (length - nnt) k g1)
    as (cs & g2 & -> & Hcs & Hsc & Hlc).
  assert (Hln' : List.length ns = Z.to_nat k) by lia.
  assert (Hlc' : List.length cs = Z.to_nat k) by lia.
  exists cs, ns, g2. split; [|repeat split; auto; lia].
  unfold bind at 1, lift at 1, np.stack2.
  rewrite !length_map, Hln', Hlc', Nat.eqb_refl. cbn [rbind].
  unfold np.reshape_flat. rewrite length_zip, !length_map, Hln', Hlc'.
  destruct (Z.eqb_spec (2 * Z.of_nat (Z.to_nat k `min` Z.to_nat k)) (k * 2));
    [|lia].
  rewrite interleave_of_nat.
  assert (Hne : interleave cs ns <> []).
  { unfold interleave. destruct cs, ns; simpl in *; try lia; discriminate. }
  assert (Hpos : Forall (fun c => (1 <= c)%nat) (interleave cs ns))
    by (apply interleave_pos; auto).
  assert (Hsum : Z.to_nat length = sum_list (interleave cs ns))
    by (rewrite interleave_sum; lia).
  unfold bind at 1, lift at 1.
  rewrite (spans_to_mask _ length Hne Hpos Hsum) by lia.
  unfold ret. rewrite (mask_of_spans _ Hne Hpos).
  rewrite firstn_all2; [reflexivity|]. rewrite length_paint. lia.
Qed.

Lemma random_spans_noise_mask_fail g :
  1 <= nnt -> 1 <= length - nnt -> ~ (k <= nnt /\ k <= length - nnt) ->
  random_spans_noise_mask self length g = Raise ValueError.
Proof.
  intros Hn1 Hc1 Hbad.
  pose proof num_noise_spans_pos as Hk1.
  unfold random_spans_noise_mask. rewrite Hnnt, Hk.
  unfold bind at 1, lift at 1. unfold bind at 1, lift at 1.
  unfold bind at 1.
  destruct (random_segmentation_spec nnt k g) as (ns & g1 & -> & Hns & Hsn & Hln).
  unfold bind at 1.
  destruct (random_segmentation_spec (length - nnt) k g1)
    as (cs & g2 & -> & Hcs & Hsc & Hlc).
  unfold bind at 1, lift at 1, np.stack2. rewrite !length_map.
  destruct (Nat.eqb_spec (List.length cs) (List.length ns)) as [E|E];
    [|reflexivity].
  cbn [rbind]. unfold np.reshape_flat. rewrite length_zip, !length_map.
  destruct (Z.eqb_spec (2 * Z.of_nat (List.length cs `min` List.length ns))
                       (k * 2)); [lia|reflexivity].
Qed.

End NoiseMask.

(** A call that returns has computed its two counts. *)
Lemma noise_counts_computed self length g mask g' :
  random_spans_noise_mask self length g = Ok (mask, g') ->
  exists nnt k,
    num_noise_tokens self length = Ok nnt
    /\ num_noise_spans self length = Ok k.
Proof.
  unfold random_spans_noise_mask. intros H.
  apply bind_Ok in H as (nnt & g1 & Hn & H). apply lift_Ok in Hn as [Hn _].
  apply bind_Ok in H as (k & g2 & Hk & _). apply lift_Ok in Hk as [Hk _].
  eauto.
Qed.

Lemma paint_interleave_cons c cs n ns :
  paint false (interleave (c :: cs) (n :: ns))
  = replicate c false ++ replicate n true ++ paint false (interleave cs ns).
Proof. reflexivity. Qed.

Lemma true_runs_clean prev c l :
  (1 <= c)%nat -> true_runs prev (replicate c false ++ l) = true_runs false l.
Proof.
  intros H. destruct c as [|c]; [lia|]. simpl. clear H.
  induction c as [|c IH]; simpl; auto.
Qed.

Lemma true_runs_noise n l :
  (1 <= n)%nat ->
  true_runs false (replicate n true ++ l) = S (true_runs true l).
Proof.
  intros H. destruct n as [|n]; [lia|]. simpl. f_equal. clear H.
  induction n as [|n IH]; simpl; auto.
Qed.

Lemma true_runs_paint cs : forall ns prev,
  Forall (fun c => (1 <= c)%nat) cs -> Forall (fun c => (1 <= c)%nat) ns ->
  length cs = length ns ->
  true_runs prev (paint false (interleave cs ns)) = length cs.
Proof.
  induction cs as [|c cs IH]; intros [|n ns] prev Hc Hn Hl;
    simpl in Hl; try lia; [reflexivity|].
  inversion Hc; inversion Hn; subst.
  rewrite paint_interleave_cons, true_runs_clean, true_runs_noise by assumption.
  simpl. f_equal. apply IH; auto.
Qed.

Lemma count_noise_replicate b n :
  count_noise (replicate n b) = if b then n else 0%nat.
Proof.
  unfold count_noise. induction n as [|n IH]; destruct b; simpl in *; auto.
Qed.

Lemma count_noise_app l1 l2 :
  count_noise (l1 ++ l2) = (count_noise l1 + count_noise l2)%nat.
Proof. unfold count_noise. rewrite filter_app, length_app. reflexivity. Qed.

Lemma count_noise_paint cs : forall ns,
  length cs = length ns ->
  count_noise (paint false (interleave cs ns)) = sum_list ns.
Proof.
  induction cs as [|c cs IH]; intros [|n ns] Hl; simpl in Hl; try lia;
    [reflexivity|].
  rewrite paint_interleave_cons, !count_noise_app, !count_noise_replicate.
  rewrite IH by lia. reflexivity.
Qed.

Lemma paint_first c cs n ns :
  (1 <= c)%nat ->
  paint false (interleave (c :: cs) (n :: ns)) !! 0%nat = Some false.
Proof. intros H. destruct c; [lia|reflexivity]. Qed.

Lemma paint_last cs : forall ns,
  cs <> [] -> Forall (fun c => (1 <= c)%nat) ns -> length cs = length ns ->
  last (paint false (interleave cs ns)) = Some true.
Proof.
  induction cs as [|c cs IH]; intros [|n ns] Hne Hn Hl; simpl in Hl;
    try lia; [done|].
  inversion Hn; subst. rewrite paint_interleave_cons, app_assoc.
  destruct cs as [|c' cs].
  - destruct ns; [|simpl in Hl; lia].
    change (paint false (interleave [] [])) with (@nil bool).
    rewrite app_nil_r. destruct n as [|n]; [lia|].
    rewrite replicate_S_end, app_assoc. apply last_snoc.
  - rewrite last_app, IH by (auto; try lia; done). reflexivity.
Qed.

(** Rounding to the nearest integer stays within integer bounds of its
    argument. *)
Lemma round_le q n : (q <= inject_Z n)%Q -> nearest_even q <= n.
Proof.
  intros H. unfold nearest_even. cbv zeta.
  pose proof (Qfloor_resp_le _ _ H) as Hf. rewrite Qfloor_Z in Hf.
  destruct (Z.eq_dec (Qfloor q) n) as [E|E].
  - assert (Hc : (q - inject_Z (Qfloor q) ?= 1 # 2)%Q = Lt).
    { apply Qlt_alt. rewrite E.
      apply Qle_lt_trans with (y := 0%Q); [|reflexivity].
      apply (Qplus_le_l _ _ (inject_Z n)). ring_simplify. exact H. }
    rewrite Hc. lia.
  - destruct (q - inject_Z (Qfloor q) ?= 1 # 2)%Q; try lia.
    destruct (Z.even (Qfloor q)); lia.
Qed.

(** ** The span noise mask generator: claims C3 and C10 *)

(** A successful call of [random_spans_noise_mask] on [length >= 2] went
    through the layout of [random_spans_noise_mask_ok]. *)
Lemma random_spans_noise_mask_inv self length g mask g' :
  2 <= length ->
  random_spans_noise_mask self length g = Ok (mask, g') ->
  exists nnt k cs ns,
    num_noise_tokens self length = Ok nnt
    /\ num_noise_spans self length = Ok k
    /\ 1 <= nnt <= length - 1 /\ 1 <= k
    /\ mask = paint false (interleave cs ns)
    /\ List.length cs = Z.to_nat k
    /\ List.length ns = Z.to_nat k
    /\ Forall (fun c => (1 <= c)%nat) cs
    /\ Forall (fun c => (1 <= c)%nat) ns
    /\ sum_list cs = Z.to_nat (length - nnt)
    /\ sum_list ns = Z.to_nat nnt.
Proof.
  intros Hlen Hrun.
  destruct (noise_counts_computed _ _ _ _ _ Hrun) as (nnt & k & Hnnt & Hk).
  pose proof (num_noise_tokens_range self length nnt Hnnt Hlen) as Hn.
  pose proof (num_noise_spans_pos self length k Hk) as Hk1.
  exists nnt, k.
  destruct (Z_le_dec k nnt) as [H1|H1];
  [destruct (Z_le_dec k (length - nnt)) as [H2|H2]|].
  - destruct (random_spans_noise_mask_ok self length nnt k Hnnt Hk g)
      as (cs & ns & g2 & E & H); try lia.
    rewrite E in Hrun. inversion Hrun; subst. exists cs, ns. tauto.
  - rewrite (random_spans_noise_mask_fail self length nnt k Hnnt Hk) in Hrun;
      try discriminate; lia.
  - rewrite (random_spans_noise_mask_fail self length nnt k Hnnt Hk) in Hrun;
      try discriminate; lia.
Qed.

(** C3, as amended: for every [length >= 2] for which the two counts are
    computed and the number of noise spans exceeds neither the number of
    noise tokens nor the number of non-noise tokens,
    [random_spans_noise_mask] returns a mask of exactly [length] entries
    whose True-count is [round(length * noise_density)] clamped to
    [1, length - 1] and whose number of maximal True-runs is
    [round(noise_count / mean_noise_span_length)] clamped to at least 1,
    both products and quotients being those of double arithmetic. *)
Theorem C3_mask_density (self : DataCollatorForPretrain) (length : Z) (g : rng)
    (nnt k : Z) :
  2 <= length ->
  num_noise_tokens self length = Ok nnt ->
  num_noise_spans self length = Ok k ->
  k <= nnt ->
  k <= length - nnt ->
  mask_density self length g.
Proof.
  intros Hlen Hnnt Hk Hkn Hfit.
  pose proof (num_noise_tokens_range self length nnt Hnnt Hlen) as Hn.
  pose proof (num_noise_spans_pos self length k Hk) as Hk1.
  destruct (random_spans_noise_mask_ok self length nnt k Hnnt Hk g)
    as (cs & ns & g2 & E & Hlc & Hln & Hcs & Hns & Hsc & Hsn); try lia.
  unfold num_noise_tokens in Hnnt. apply rbind_Ok in Hnnt as (n & En & Hnnt).
  inversion Hnnt as [Ennt]; clear Hnnt.
  unfold num_noise_spans in Hk. rewrite En in Hk. cbn [rbind] in Hk.
  destruct (_ && _); [discriminate|].
  apply rbind_Ok in Hk as (k0 & Ek0 & Hk). inversion Hk as [Ek]; clear Hk.
  exists n, k0, (paint false (interleave cs ns)), g2.
  split; [exact En|]. cbv zeta. split; [exact Ek0|].
  split; [exact E|]. rewrite Ennt, Ek. split; [|split].
  - rewrite length_paint, interleave_sum by lia. lia.
  - rewrite count_noise_paint by lia. lia.
  - rewrite true_runs_paint by (auto; lia). lia.
Qed.

Lemma C3_mask_density_witness :
  mask_density (collator (3 # 10) (2 # 1) 5 12) 10 [3; 1; 4; 1; 5]%nat.
Proof.
  apply (C3_mask_density _ _ _ 3 2);
    [lia | reflexivity | reflexivity | lia | lia].
Defined.

(** C3 as the specification states it fails: nine noise tokens out of ten
    in spans of mean length one ask for nine clean spans, only one clean
    token is left for them, and [np.stack] raises. *)
Lemma C3_mask_density_counterexample :
  2 <= 10 /\ (0 < 9 # 10)%Q /\ (9 # 10 < 1)%Q /\ (1 <= 1)%Q
  /\ random_spans_noise_mask (collator (9 # 10) 1 5 12) 10 []
     = Raise ValueError
  /\ ~ mask_density (collator (9 # 10) 1 5 12) 10 [].
Proof.
  assert (E : random_spans_noise_mask (collator (9 # 10) 1 5 12) 10 []
              = Raise ValueError) by (vm_compute; reflexivity).
  split; [lia|]. split; [reflexivity|]. split; [reflexivity|].
  split; [vm_compute; discriminate|]. split; [exact E|].
  intros (n & k & mask & g' & _ & _ & H & _). rewrite E in H. discriminate.
Qed.

(** C10: every mask returned by [random_spans_noise_mask] for
    [length >= 2] has [mask[0] = False] and [mask[length-1] = True]: it
    begins with a clean span and ends inside a noise span. *)
Theorem C10_mask_ends (self : DataCollatorForPretrain) (length : Z)
    (g : rng) (mask : list bool) (g' : rng) :
  2 <= length ->
  random_spans_noise_mask self length g = Ok (mask, g') ->
  mask !! 0%nat = Some false /\ mask !! Z.to_nat (length - 1) = Some true.
Proof.
  intros Hlen Hrun.
  destruct (random_spans_noise_mask_inv self length g mask g' Hlen Hrun)
    as (nnt & k & cs & ns & _ & _ & Hn & Hk
        & -> & Hlc & Hln & Hcs & Hns & Hsc & Hsn).
  split.
  - destruct cs as [|c cs]; [simpl in Hlc; lia|].
    destruct ns as [|n ns]; [simpl in Hln; lia|].
    inversion Hcs; subst. by apply paint_first.
  - rewrite <- (paint_last cs ns); auto; try lia.
    + rewrite last_lookup, length_paint, interleave_sum by lia.
      f_equal. lia.
    + intros ->. simpl in Hlc. lia.
Qed.

Lemma C10_mask_ends_witness :
  random_spans_noise_mask (collator (3 # 10) (2 # 1) 5 12) 10 [3; 1; 4]%nat
  = Ok ([false; true; true; false; false; false;
         false; false; false; true], [])
  /\ [false; true; true; false; false; false;
      false; false; false; true] !! 0%nat = Some false
  /\ [false; true; true; false; false; false;
      false; false; false; true] !! Z.to_nat (10 - 1) = Some true.
Proof.
  assert (E : random_spans_noise_mask (collator (3 # 10) (2 # 1) 5 12) 10
                [3; 1; 4]%nat
              = Ok ([false; true; true; false; false; false;
                     false; false; false; true], []))
    by (vm_compute; reflexivity).
  split; [exact E|].
  apply (C10_mask_ends _ 10 _ _ _ ltac:(lia) E).
Defined.

(** ** The segment-aware masker: claim C5 *)

Lemma put_length a idx v b :
  np.put a idx v = Ok b -> length b = length a.
Proof.
  revert a; induction idx as [|i r IH]; intros a H; simpl in H.
  - inversion H; reflexivity.
  - apply rbind_Ok in H as (j & _ & H). apply IH in H.
    rewrite length_insert in H. exact H.
Qed.

Lemma random_spans_noise_mask_length self length g mask g' :
  random_spans_noise_mask self length g = Ok (mask, g') ->
  List.length mask = Z.to_nat length.
Proof.
  unfold random_spans_noise_mask. intros H.
  apply bind_Ok in H as (nnt & g5 & _ & H).
  apply bind_Ok in H as (k & g6 & _ & H).
  apply bind_Ok in H as (ns & g1 & _ & H).
  apply bind_Ok in H as (cs & g2 & _ & H).
  apply bind_Ok in H as (il & g3 & _ & H).
  apply bind_Ok in H as (ind & g4 & Hind & H).
  apply lift_Ok in Hind as [Hind _].
  apply rbind_Ok in Hind as (z & Hz & Hput).
  unfold np.zeros in Hz. destruct (Z.ltb_spec length 0); [discriminate|].
  inversion Hz; subst z. apply put_length in Hput.
  rewrite length_replicate in Hput.
  unfold ret in H. inversion H; subst.
  rewrite length_take, length_map.
  unfold np.cumsum. rewrite cumsum_from_length. lia.
Qed.

(** One round of the loop of [segment_spans_random_mask] appends [False]
    and then as many entries as the segment is long. *)
Lemma mask_segments_step self (seg : nat) rest fm0 g fm g' :
  mask_segments self (Z.of_nat seg :: rest) fm0 g = Ok (fm, g') ->
  exists m g1,
    List.length m = seg
    /\ mask_segments self rest (fm0 ++ false :: m) g1 = Ok (fm, g').
Proof.
  cbn [mask_segments]. intros H.
  apply bind_Ok in H as (fm1 & g1 & Hstep & H).
  destruct (min_mask_span_length self <=? Z.of_nat seg).
  - apply bind_Ok in Hstep as (m & g2 & Hm & Hret).
    apply random_spans_noise_mask_length in Hm.
    unfold ret in Hret. inversion Hret; subst.
    exists m, g1. split; [lia|]. rewrite <- app_assoc in H. exact H.
  - unfold ret in Hstep. inversion Hstep; subst.
    exists (replicate (Z.to_nat (Z.of_nat seg)) false), g1.
    split; [rewrite length_replicate; lia|].
    rewrite <- app_assoc in H. exact H.
Qed.

Lemma pred_of_nat (c : nat) :
  (1 <= c)%nat -> Z.of_nat c - 1 = Z.of_nat (c - 1).
Proof. lia. Qed.

Lemma mask_segments_aligned self attn : forall cur fm0 g fm g',
  (1 <= cur)%nat ->
  mask_segments self
    (map (fun c => c - 1)
         (map Z.of_nat (runs cur (map (fun a => a =? 0) attn)))) fm0 g
  = Ok (fm, g') ->
  exists pre suf,
    fm = fm0 ++ false :: pre ++ suf
    /\ List.length pre = (cur - 1)%nat
    /\ Forall2 (fun a m => a = 0 -> m = false) attn suf.
Proof.
  induction attn as [|a attn IH]; intros cur fm0 g fm g' Hcur H.
  - cbn [map runs] in H. rewrite pred_of_nat in H by assumption.
    apply mask_segments_step in H as (m & g1 & Hm & H).
    unfold mask_segments, ret in H. inversion H; subst.
    exists m, []. rewrite app_nil_r. auto.
  - cbn [map] in H. destruct (Z.eqb_spec a 0) as [E|E]; cbn [runs map] in H.
    + rewrite pred_of_nat in H by assumption.
      apply mask_segments_step in H as (m & g1 & Hm & H).
      apply IH in H as (pre & suf & -> & Hpre & Hsuf); [|lia].
      destruct pre; [|simpl in Hpre; lia].
      exists m, (false :: suf). rewrite <- app_assoc. simpl. auto.
    + apply IH in H as (pre & suf & -> & Hpre & Hsuf); [|lia].
      destruct (nil_or_length_pos pre) as [->|Hp]; [simpl in Hpre; lia|].
      destruct (exists_last (l := pre)) as (pre' & x & ->).
      { intros ->. simpl in Hp. lia. }
      rewrite length_app in Hpre. simpl in Hpre.
      exists pre', (x :: suf). rewrite <- app_assoc. simpl.
      split; [reflexivity|]. split; [lia|].
      constructor; [intros; contradiction|assumption].
Qed.

Lemma segment_len_runs attn :
  map (fun c => c - 1)
      (np.unique_counts
         (np.cumsum (map (fun a => Z.b2z (a =? 0)) (0 :: attn))))
  = map (fun c => c - 1)
        (map Z.of_nat (runs 1 (map (fun a => a =? 0) attn))).
Proof.
  f_equal. unfold np.cumsum. cbn [map np.cumsum_from Z.eqb Z.b2z Z.add].
  rewrite <- (unique_counts_steps 1), map_map. reflexivity.
Qed.

Lemma segment_spans_random_mask_aligned self attn g mask g' :
  segment_spans_random_mask self attn g = Ok (mask, g') ->
  Forall2 (fun a m => a = 0 -> m = false) attn mask.
Proof.
  unfold segment_spans_random_mask. intros H.
  apply bind_Ok in H as (fm & g1 & Hfm & H).
  rewrite segment_len_runs in Hfm.
  apply mask_segments_aligned in Hfm as (pre & suf & -> & Hpre & Hsuf); [|lia].
  destruct pre; [|simpl in Hpre; lia].
  destruct (_ =? _)%nat; [|discriminate].
  unfold ret in H. inversion H; subst. exact Hsuf.
Qed.

(** C5: whenever [segment_spans_random_mask] returns, the mask has the
    length of the flag array and is False at every position whose
    attendable flag is 0. *)
Theorem C5_structural_exclusion (self : DataCollatorForPretrain)
    (attn_mask : list Z) (g : rng) (mask : list bool) (g' : rng) :
  segment_spans_random_mask self attn_mask g = Ok (mask, g') ->
  length mask = length attn_mask
  /\ forall i : nat, attn_mask !! i = Some 0 -> mask !! i = Some false.
Proof.
  intros H. apply segment_spans_random_mask_aligned in H.
  split; [symmetry; exact (Forall2_length _ _ _ H)|].
  intros i Hi.
  destruct (Forall2_lookup_l _ _ _ _ _ H Hi) as (m & Hm & Hz).
  rewrite Hm, Hz; reflexivity.
Qed.

(** The same inside [__call__]: in a row of [spans_noise_masks], built from
    the flags that are 0 at [<pkt>] and [<head>], no position below
    [optimal_len] that carries a 0 flag is masked. *)
Lemma spans_noise_mask_excludes (self : DataCollatorForPretrain)
    (attn : list Z) (real_len : Z) (g : rng) (mask : list bool) (g' : rng) :
  spans_noise_mask self attn real_len g = Ok (mask, g') ->
  forall i : nat,
    (i < length mask)%nat -> attn !! i = Some 0 -> mask !! i = Some false.
Proof.
  unfold spans_noise_mask. intros H i Hi Hz.
  apply bind_Ok in H as (m & g1 & Hm & H). apply lift_Ok in H as [H _].
  unfold np.pad in H. destruct (_ || _); [discriminate|].
  inversion H; subst mask; clear H. cbn [Z.to_nat replicate app] in *.
  apply segment_spans_random_mask_aligned in Hm.
  pose proof (Forall2_length _ _ _ Hm) as Hlen.
  destruct (Nat.lt_ge_cases i (length m)) as [Hlt|Hge].
  - rewrite lookup_app_l by exact Hlt.
    assert (Hi' : take (Z.to_nat real_len) attn !! i = Some 0)
      by (rewrite lookup_take_lt; [exact Hz|];
          rewrite <- Hlen, length_take in Hlt; lia).
    destruct (Forall2_lookup_l _ _ _ _ _ Hm Hi') as (b & Hb & Hf).
    rewrite Hb, Hf; reflexivity.
  - rewrite lookup_app_r by exact Hge. apply lookup_replicate_2.
    rewrite length_app, length_replicate in Hi. lia.
Qed.

(** ** The sentinel encoder: claim C8 *)

Lemma start_indices_tail r : forall p,
  zip_with (fun m r => m - r * m) (map Z.b2z r) (Z.b2z p :: map Z.b2z r)
  = map Z.b2z (starts_from p r).
Proof.
  induction r as [|b r IH]; intros p; [reflexivity|].
  cbn [map zip_with starts_from]. rewrite IH. f_equal.
  destruct b, p; reflexivity.
Qed.

Lemma start_indices_spec b0 r :
  <[0%nat := Z.b2z b0]>
    (zip_with (fun m r => m - r * m) (map Z.b2z (b0 :: r))
              (np.roll1 (map Z.b2z (b0 :: r))))
  = map Z.b2z (span_starts (b0 :: r)).
Proof.
  unfold np.roll1, span_starts. cbn [map length].
  replace (S (length (map Z.b2z r)) - 1)%nat with (length (map Z.b2z r)) by lia.
  set (mi := Z.b2z b0 :: map Z.b2z r).
  assert (Hd : exists l, drop (length (map Z.b2z r)) mi = [l]).
  { assert (Hl : length (drop (length (map Z.b2z r)) mi) = 1%nat)
      by (rewrite length_drop; unfold mi; simpl; lia).
    destruct (drop (length (map Z.b2z r)) mi) as [|l [|? ?]];
      simpl in Hl; try lia. eauto. }
  destruct Hd as [l ->]. unfold mi at 1. cbn [app zip_with].
  rewrite zip_with_take_r. unfold mi. rewrite start_indices_tail.
  cbn [starts_from map]. destruct b0; reflexivity.
Qed.

Lemma sentinel_tail mask : forall p k,
  0 <= k ->
  zip_with Z.sub
    (map (fun s => if s =? 0 then 0 else extra_start_token_id - s)
         (zip_with (fun s c => if s =? 0 then s else c)
                   (map Z.b2z (starts_from p mask))
                   (np.cumsum_from k (map Z.b2z (starts_from p mask)))))
    (zip_with Z.sub (map Z.b2z mask) (map Z.b2z (starts_from p mask)))
  = sentinel_spec p k mask.
Proof.
  induction mask as [|b r IH]; intros p k Hk; [reflexivity|].
  cbn [starts_from map np.cumsum_from zip_with sentinel_spec].
  destruct b, p; cbn [andb negb Z.b2z Z.eqb].
  - rewrite Z.add_0_r, IH by lia. reflexivity.
  - rewrite IH by lia. destruct (Z.eqb_spec (k + 1) 0); [lia|].
    f_equal. lia.
  - rewrite Z.add_0_r, IH by lia. reflexivity.
  - rewrite Z.add_0_r, IH by lia. reflexivity.
Qed.

Lemma create_sentinel_row_spec (mask : list bool) :
  mask <> [] ->
  create_sentinel_row (map Z.b2z mask) = Ok (sentinel_spec false 0 mask).
Proof.
  intros Hne. destruct mask as [|b0 r]; [done|].
  pose proof (start_indices_spec b0 r) as Hs.
  pose proof (sentinel_tail (b0 :: r) false 0 ltac:(lia)) as Ht.
  unfold create_sentinel_row, np.cumsum. fold (span_starts (b0 :: r)) in Ht.
  cbn [map] in *. cbn [rbind]. rewrite Hs, Ht. reflexivity.
Qed.

Lemma length_sentinel_spec mask : forall p k,
  length (sentinel_spec p k mask) = length mask.
Proof.
  induction mask as [|[] r IH]; intros p k; simpl; auto.
  destruct p; simpl; auto.
Qed.

Lemma sentinel_spec_lookup (mask : list bool) : forall p k (i : nat) (b : bool),
  mask !! i = Some b ->
  sentinel_spec p k mask !! i
  = Some (if b then
            if default false (starts_from p mask !! i)
            then extra_start_token_id
                 - (k + Z.of_nat (count_noise (take (S i) (starts_from p mask))))
            else -1
          else 0).
Proof.
  induction mask as [|b0 r IH]; intros p k i b Hi; [done|].
  destruct i as [|i].
  - simpl in Hi. inversion Hi; subst b.
    destruct b0, p; reflexivity.
  - simpl in Hi. cbn [starts_from]. rewrite firstn_cons.
    change (?x :: take (S i) ?l) with ([x] ++ take (S i) l).
    rewrite count_noise_app.
    change [?x] with (replicate 1 x). rewrite count_noise_replicate.
    destruct b0, p; cbn [sentinel_spec andb negb];
      rewrite !lookup_cons_ne_0 by lia; cbn [pred];
      rewrite (IH _ _ _ _ Hi);
      destruct b; try reflexivity;
      destruct (default false (starts_from _ r !! i)); try reflexivity;
      f_equal; lia.
Qed.


(** The same on a whole batch: every row is encoded on its own. *)
Lemma create_sentinel_ids_rows (masks : list (list bool)) :
  Forall (fun mask => mask <> []) masks ->
  create_sentinel_ids (map (map Z.b2z) masks)
  = Ok (map (sentinel_spec false 0) masks).
Proof.
  unfold create_sentinel_ids.
  induction 1 as [|mask masks Hm _ IH]; [reflexivity|].
  cbn [map rmapM]. rewrite create_sentinel_row_spec, IH by assumption.
  reflexivity.
Qed.


(** ** The header/payload indicator: claim C9 *)

Lemma flip_spec_snoc seg : forall p s,
  flip_spec p (seg ++ [s])
  = flip_spec p seg ++ [Z.b2z (flip_state p (seg ++ [s]))].
Proof.
  induction seg as [|x seg IH]; intros p s; [reflexivity|].
  cbn [app flip_spec]. rewrite IH. reflexivity.
Qed.

Lemma length_flip_spec seg : forall p, length (flip_spec p seg) = length seg.
Proof. induction seg; intros; simpl; auto. Qed.

Lemma flip_row_prefix input (j : nat) :
  (j <= length input)%nat ->
  foldl (fun output col =>
           if default 0 (input !! col) =? 1 then flip_from col output
           else output)
        (replicate (length input) 1) (seq 0 j)
  = flip_spec true (take j input)
    ++ replicate (length input - j) (Z.b2z (flip_state true (take j input))).
Proof.
  induction j as [|j IH]; intros Hj.
  - simpl. rewrite Nat.sub_0_r. reflexivity.
  - rewrite seq_S, foldl_app, IH by lia. cbn [foldl Nat.add].
    destruct (lookup_lt_is_Some_2 input j ltac:(lia)) as [s Hs].
    rewrite Hs, (take_S_r _ _ _ Hs), flip_spec_snoc.
    change (default 0 (Some s)) with s.
    assert (Hl : j = length (flip_spec true (take j input)))
      by (rewrite length_flip_spec, length_take; lia).
    assert (Hst : flip_state true (take j input ++ [s])
                  = if s =? 1 then negb (flip_state true (take j input))
                    else flip_state true (take j input))
      by (unfold flip_state; rewrite foldl_app; reflexivity).
    rewrite Hst. set (st := flip_state true (take j input)).
    replace (length input - j)%nat with (S (length input - S j)) by lia.
    destruct (s =? 1).
    + unfold flip_from. rewrite take_app_length', drop_app_length' by exact Hl.
      rewrite map_replicate, <- app_assoc. cbn [replicate app].
      destruct st; reflexivity.
    + rewrite <- app_assoc. reflexivity.
Qed.

Lemma flip_row_spec input : flip_row input = flip_spec true input.
Proof.
  unfold flip_row. rewrite flip_row_prefix by lia.
  rewrite Nat.sub_diag, firstn_all. apply app_nil_r.
Qed.

(** The indicator at [i] is the parity of the structural tokens strictly
    before [i]. *)
Lemma head_payload_parity self row : forall (p : bool) (c i : nat) (x : Z),
  Nat.even c = p ->
  row !! i = Some x ->
  zip_with Z.lxor
    (flip_spec p (map (fun x => Z.b2z (is_marker self x)) row))
    (map (fun x => Z.b2z (is_marker self x)) row) !! i
  = Some (Z.b2z (Nat.even (c + marker_count self (take i row)))).
Proof.
  induction row as [|y row IH]; intros p c i x Hp Hi; [done|].
  cbn [map flip_spec zip_with]. destruct i as [|i].
  - simpl. rewrite Nat.add_0_r, Hp.
    destruct (is_marker self y), p; reflexivity.
  - simpl in Hi. rewrite lookup_cons_ne_0 by lia. cbn [pred].
    rewrite firstn_cons. unfold marker_count.
    destruct (is_marker self y) eqn:Ey.
    + change (Z.b2z true =? 1) with true. cbv iota.
      rewrite filter_cons_True by exact Ey. cbn [length].
      rewrite (IH (negb p) (S c) i x); auto.
      * unfold marker_count. do 3 f_equal. lia.
      * rewrite Nat.even_succ, <- Nat.negb_even, Hp. reflexivity.
    + change (Z.b2z false =? 1) with false. cbv iota.
      rewrite filter_cons_False by (rewrite Ey; discriminate).
      rewrite (IH p c i x); auto.
Qed.

Lemma head_payload_row_parity self row (i : nat) (x : Z) :
  row !! i = Some x ->
  head_payload_row self row !! i
  = Some (if Nat.even (marker_count self (take i row)) then 1 else 0).
Proof.
  intros Hi. unfold head_payload_row. rewrite flip_row_spec.
  rewrite (head_payload_parity self row true 0 i x eq_refl Hi).
  simpl. destruct (Nat.even _); reflexivity.
Qed.

Lemma length_head_payload_row self row :
  length (head_payload_row self row) = length row.
Proof.
  unfold head_payload_row. rewrite flip_row_spec.
  rewrite length_zip_with, length_flip_spec, !length_map. lia.
Qed.

Lemma marker_count_cons self x l :
  marker_count self (x :: l)
  = ((if is_marker self x then 1 else 0) + marker_count self l)%nat.
Proof.
  unfold marker_count. destruct (is_marker self x) eqn:E.
  - rewrite filter_cons_True by exact E. reflexivity.
  - rewrite filter_cons_False by (rewrite E; discriminate). reflexivity.
Qed.

Lemma alternates_parity self row : forall (h : bool) (c i : nat),
  HEAD_ID self <> PKT_ID self ->
  alternates self h row = true ->
  Nat.even c = h ->
  Nat.even (c + marker_count self (take i row))
  = match last_marker self (take i row) with
    | None => h
    | Some m => m =? PKT_ID self
    end.
Proof.
  induction row as [|x row IH]; intros h c i Hne Halt Hc.
  - rewrite take_nil. simpl. rewrite Nat.add_0_r. exact Hc.
  - destruct i as [|i]; [simpl; rewrite Nat.add_0_r; exact Hc|].
    rewrite firstn_cons, marker_count_cons.
    cbn [last_marker alternates] in *. unfold is_marker at 1 2.
    destruct (Z.eqb_spec x (HEAD_ID self)) as [E1|E1].
    + apply andb_prop in Halt as [Hh Halt]. subst h. cbn [orb].
      assert (Hc' : Nat.even (S c) = false)
        by (rewrite Nat.even_succ, <- Nat.negb_even, Hc; reflexivity).
      pose proof (IH false (S c) i Hne Halt Hc') as IH'.
      replace (c + (1 + marker_count self (take i row)))%nat
        with (S c + marker_count self (take i row))%nat by lia.
      rewrite IH'.
      destruct (last_marker self (take i row)); [reflexivity|].
      symmetry. apply Z.eqb_neq. congruence.
    + destruct (Z.eqb_spec x (PKT_ID self)) as [E2|E2].
      * apply andb_prop in Halt as [Hh Halt].
        apply negb_true_iff in Hh. subst h. cbn [orb].
        assert (Hc' : Nat.even (S c) = true)
          by (rewrite Nat.even_succ, <- Nat.negb_even, Hc; reflexivity).
        pose proof (IH true (S c) i Hne Halt Hc') as IH'.
        replace (c + (1 + marker_count self (take i row)))%nat
          with (S c + marker_count self (take i row))%nat by lia.
        rewrite IH'.
        destruct (last_marker self (take i row)); [reflexivity|].
        symmetry. apply Z.eqb_eq. exact E2.
      * cbn [orb]. rewrite Nat.add_0_l.
        rewrite (IH h c i Hne Halt Hc).
        destruct (last_marker self (take i row)); reflexivity.
Qed.

(** C9, as amended: in a row whose [<head>] and [<pkt>] tokens alternate,
    beginning with [<head>], [head_payload_seg_ind] is 1 exactly at the
    positions of a header region - after the row start or a [<pkt>], up to
    and including the next [<head>]; the tokens behind the last [<pkt>]
    count as the header of a packet to come - and 0 at the payload tokens
    and at the [<pkt>] markers. *)
Theorem C9_head_payload_alternating (self : DataCollatorForPretrain)
    (row : list Z) (i : nat) (x : Z) :
  HEAD_ID self <> PKT_ID self ->
  alternates self true row = true ->
  row !! i = Some x ->
  head_payload_row self row !! i
  = Some (if in_header_region self row i then 1 else 0).
Proof.
  intros Hne Halt Hi. rewrite (head_payload_row_parity self row i x Hi).
  pose proof (alternates_parity self row true 0 i Hne Halt eq_refl) as H.
  simpl in H. rewrite H. reflexivity.
Qed.

(** ** The batch assembler: claims C2 and C9 on whole batches *)

Lemma raise_Ok {A} e g (a : A) g' : raise e g = Ok (a, g') -> False.
Proof. discriminate. Qed.

(** What a returned batch went through. *)
Lemma call_inv self examples g batch g' :
  __call__ self examples g = Ok (batch, g') ->
  nml_labels batch = map ex_nml_labels examples
  /\ pop_order batch = map ex_pop_order examples
  /\ nml_mask batch
     = task_mask (HEAD_ID self) (input_ids batch) (nml_labels batch)
  /\ pop_mask batch
     = task_mask (PKT_ID self) (input_ids batch) (pop_order batch)
  /\ count_true (nml_mask batch)
     = Z.quot (count_nonneg_valid (nml_labels batch)) 4
  /\ head_payload_seg_ind batch
     = zip_with (zip_with Z.lxor)
         (flip_segment_id (token_mask (is_marker self) (input_ids batch)))
         (token_mask (is_marker self) (input_ids batch)).
Proof.
  unfold __call__. intros H.
  apply bind_Ok in H as (? & g0 & _ & H).
  apply bind_Ok in H as (ids & g1 & _ & H).
  apply bind_Ok in H as (pop & g2 & Hpop & H).
  apply bind_Ok in H as (nml & g3 & Hnml & H).
  apply bind_Ok in H as (masks & g4 & _ & H).
  apply bind_Ok in H as (isent & g5 & _ & H).
  apply bind_Ok in H as (lsent & g6 & _ & H).
  apply bind_Ok in H as (new_ids & g7 & _ & H).
  apply bind_Ok in H as (labs & g8 & _ & H).
  destruct (count_true _ =? _) eqn:Hassert; cbn [negb] in H;
    [|discriminate].
  destruct (existsb _ new_ids); [discriminate|].
  destruct (existsb _ labs); [discriminate|].
  unfold ret in H. inversion H; subst; clear H. cbn.
  apply lift_Ok in Hpop as [Hpop _]. apply lift_Ok in Hnml as [Hnml _].
  assert (Hm : forall A (rows m : list (list A)), as_matrix rows = Ok m -> m = rows).
  { intros A rows m. unfold as_matrix. destruct rows; [congruence|].
    destruct (forallb _ _); congruence. }
  apply Hm in Hpop, Hnml. subst.
  repeat split; try reflexivity. apply Z.eqb_eq. exact Hassert.
Qed.

Lemma head_payload_rows self (ids : list (list Z)) :
  zip_with (zip_with Z.lxor)
    (flip_segment_id (token_mask (is_marker self) ids))
    (token_mask (is_marker self) ids)
  = map (head_payload_row self) ids.
Proof.
  unfold flip_segment_id, token_mask.
  induction ids as [|row ids IH]; [reflexivity|].
  cbn [map zip_with]. rewrite IH. reflexivity.
Qed.

(** [head_payload_seg_ind] of a returned batch is [head_payload_row] of
    each row of its [input_ids]. *)
Lemma call_head_payload self examples g batch g' :
  __call__ self examples g = Ok (batch, g') ->
  head_payload_seg_ind batch = map (head_payload_row self) (input_ids batch).
Proof.
  intros H. apply call_inv in H as (_ & _ & _ & _ & _ & ->).
  apply head_payload_rows.
Qed.

(** C2, as amended: on every batch that [__call__] returns, the number of
    True entries of [nml_mask] is the integer quotient by 4 of the number
    of [nml_labels] entries that are neither -100 nor negative; the
    assertion of the assembler checks exactly this, so four times the
    mask count may fall short of the label count by up to three. *)
Theorem C2_nml_mask_count (self : DataCollatorForPretrain)
    (examples : list Example) (g : rng) (batch : Batch) (g' : rng) :
  __call__ self examples g = Ok (batch, g') ->
  nml_mask batch = task_mask (HEAD_ID self) (input_ids batch) (nml_labels batch)
  /\ 4 * count_true (nml_mask batch) <= count_nonneg_valid (nml_labels batch)
     < 4 * count_true (nml_mask batch) + 4.
Proof.
  intros H. apply call_inv in H as (_ & _ & Hm & _ & Hc & _).
  split; [exact Hm|]. rewrite Hc.
  assert (0 <= count_nonneg_valid (nml_labels batch))
    by (unfold count_nonneg_valid; lia).
  rewrite Z.quot_div_nonneg by lia.
  pose proof (Z.div_mod (count_nonneg_valid (nml_labels batch)) 4 ltac:(lia)).
  pose proof (Z.mod_pos_bound (count_nonneg_valid (nml_labels batch)) 4
                ltac:(lia)).
  lia.
Qed.

(** ** The flow record preprocessor: claims C1, C6 and C7 *)

Lemma rmapM_length {A B} (f : A -> result B) l l' :
  rmapM f l = Ok l' -> length l' = length l.
Proof.
  revert l'; induction l as [|x l IH]; intros l' H; simpl in H.
  - inversion H; reflexivity.
  - apply rbind_Ok in H as (y & _ & H). apply rbind_Ok in H as (ys & Hys & H).
    inversion H; subst. simpl. f_equal. apply IH. exact Hys.
Qed.

(** What truncation does to a packet: [<head>] stays, and what is kept
    before it and behind it is a prefix of the header and of the payload. *)
Lemma list_index_inv (x : Z) (l : list Z) : forall i,
  pt.list_index x l = Ok i ->
  l = take i l ++ x :: drop (S i) l /\ (x ∉ take i l).
Proof.
  induction l as [|y l IH]; intros i H; simpl in H; [discriminate|].
  destruct (Z.eqb_spec y x) as [->|Hne].
  - inversion H; subst. simpl. split; [reflexivity|apply not_elem_of_nil].
  - apply rbind_Ok in H as (j & Hj & H). inversion H; subst.
    destruct (IH j Hj) as [E Hx]. simpl. split; [f_equal; exact E|].
    apply not_elem_of_cons. split; [congruence|exact Hx].
Qed.

Lemma split_header_inv c pkt q :
  pt.split_header c pkt = Ok q ->
  pkt = pt.header q ++ pt.HEAD_ID c :: pt.raw q
  /\ (pt.HEAD_ID c ∉ pt.header q).
Proof.
  unfold pt.split_header. intros H. apply rbind_Ok in H as (i & Hi & H).
  inversion H; subst; clear H. cbn [pt.header pt.raw].
  apply list_index_inv. exact Hi.
Qed.

Lemma slice_to_prefix {A} (l l' : list A) stop :
  slice_to l stop = Ok l' -> l' `prefix_of` l.
Proof.
  destruct stop as [z|x]; [|discriminate]. simpl. intros H.
  inversion H; subst. destruct (0 <=? z); apply prefix_take.
Qed.

Lemma trunc_sanity_check_prefix_of c l l' :
  pt._trunc_sanity_check c l = Ok l' -> l' `prefix_of` l.
Proof.
  unfold pt._trunc_sanity_check. intros H.
  destruct (0 <? length l)%nat; [|inversion H; subst; reflexivity].
  apply rbind_Ok in H as (str & _ & H).
  destruct (negb (pt.has_hash str) && pt.short str);
    [inversion H; subst; apply prefix_take|].
  destruct (pt.has_hash str); [|inversion H; subst; reflexivity].
  apply rbind_Ok in H as (str2 & _ & H).
  destruct (_ && _); inversion H; subst; [apply prefix_take|reflexivity].
Qed.

Lemma cut_end_prefix c delete_len ratio x x' :
  pt.cut_end c delete_len ratio x = Ok x' -> x' `prefix_of` x.
Proof.
  unfold pt.cut_end. intros H.
  apply rbind_Ok in H as (k & _ & H). apply rbind_Ok in H as (y & Hy & H).
  apply slice_to_prefix in Hy. apply trunc_sanity_check_prefix_of in H.
  etransitivity; eassumption.
Qed.

(** Up to NumPy 2.0 the bound handed to the slice is the float [np.ceil]
    returned: the slice raises before anything is cut. *)
Lemma cut_end_raises c delete_len ratio x :
  pt.numpy c = np.before_2_1 ->
  exists e, pt.cut_end c delete_len ratio x = Raise e.
Proof.
  intros Hv. unfold pt.cut_end. rewrite Hv.
  destruct (py_int _) as [k|e]; simpl; eauto.
Qed.

Lemma truncate_raises c current_len packets :
  pt.numpy c = np.before_2_1 ->
  packets <> [] -> exists e, pt.truncate c current_len packets = Raise e.
Proof.
  intros Hv Hne. unfold pt.truncate.
  destruct (rmapM (pt.split_header c) packets) as [hp|e] eqn:Hhp;
    [|simpl; eauto].
  apply rmapM_length in Hhp. cbn [rbind].
  destruct hp as [|h hp]; [destruct packets; [done|discriminate]|].
  destruct (_ <=? _).
  - destruct (rmapM _ (h :: hp)) as [ratio|e] eqn:Hr; [|simpl; eauto].
    apply rmapM_length in Hr. destruct ratio as [|r ratio]; [discriminate|].
    cbn [rbind rmapM2].
    destruct (cut_end_raises c
                (current_len
                 - (pt.optim_len c - Z.of_nat (length packets) - 1))
                r (pt.raw h) Hv) as [e ->].
    simpl. eauto.
  - destruct (rmapM _ (h :: hp)) as [ratio|e] eqn:Hr; [|simpl; eauto].
    apply rmapM_length in Hr. destruct ratio as [|r ratio]; [discriminate|].
    cbn [rbind rmapM2].
    destruct (cut_end_raises c
                (current_len
                 - (pt.optim_len c - Z.of_nat (length packets) - 1)
                 - pt.sum_len pt.raw (h :: hp))
                r (pt.header h) Hv) as [e ->].
    simpl. eauto.
Qed.

Lemma reorder_seq (packets : list (list Z)) : forall m k,
  (k + m <= length packets)%nat ->
  pt.reorder packets (map Z.of_nat (seq k m)) = Ok (take m (drop k packets)).
Proof.
  unfold pt.reorder.
  induction m as [|m IH]; intros k Hk; [reflexivity|].
  cbn [seq map rmapM]. rewrite index_in_range by lia. cbn [rbind].
  destruct (lookup_lt_is_Some_2 packets k ltac:(lia)) as [x Hx].
  rewrite Hx, IH by lia. cbn [rbind default].
  rewrite (drop_S _ _ _ Hx). reflexivity.
Qed.

Lemma reorder_identity (packets : list (list Z)) :
  pt.reorder packets (np.arange (Z.of_nat (length packets))) = Ok packets.
Proof.
  unfold np.arange. rewrite Nat2Z.id, reorder_seq by lia.
  rewrite drop_0, firstn_all. reflexivity.
Qed.

Lemma length_arange n : length (np.arange n) = Z.to_nat n.
Proof. unfold np.arange. rewrite length_map, length_seq. reflexivity. Qed.

Lemma assign_prefix_fits (width : nat) (src : list Z) :
  (length src <= width)%nat ->
  assign_prefix (replicate width (-100)) src
  = Ok (map wrap8 src ++ replicate (width - length src) (-100)).
Proof.
  intros H. unfold assign_prefix. rewrite length_replicate.
  rewrite Nat.min_l by exact H. rewrite Nat.eqb_refl, drop_replicate.
  reflexivity.
Qed.

Lemma wrap8_small z : -128 <= z < 128 -> wrap8 z = z.
Proof. intros H. unfold wrap8. rewrite Z.mod_small by lia. lia. Qed.

(** C6, as amended: a flow selected for POP that is not over-long and has
    at most [pop_switch_gap] packets keeps its packet order, and its
    [pop_order] row holds the identity order [0, 1, ..., packet_count - 1]
    (stored as int8) in its first [packet_count] slots and -100 in the
    others. *)
Theorem C6_short_flow_identity_order (c : pt.config) (input_text : list Z)
    (packets : list (list Z)) (g : rng) :
  pt.flow_packets c input_text = Ok packets ->
  Z.of_nat (length input_text) <= pt.optim_len c ->
  Z.of_nat (length packets) <= pt.pop_switch_gap c ->
  Z.of_nat (length packets) <= pt.pkt_per_flow c ->
  Z.of_nat (length (serialize c packets)) <= pt.optim_len c - 1 ->
  pt.process_flow c true input_text g
  = Ok (serialize c packets,
        map wrap8 (np.arange (Z.of_nat (length packets)))
        ++ replicate (Z.to_nat (pt.pkt_per_flow c) - length packets) (-100),
        g).
Proof.
  intros Hp Hlen Hgap Hfit Hassert. unfold pt.process_flow.
  unfold bind at 1, lift at 1, full_row.
  destruct (Z.ltb_spec (pt.pkt_per_flow c) 0); [lia|].
  unfold bind at 1. rewrite Hp. cbn [lift].
  destruct (Z.ltb_spec (pt.optim_len c) (Z.of_nat (length input_text)));
    [lia|].
  unfold bind at 1, ret at 1. unfold pt.pop_permute. unfold bind at 1.
  destruct (Z.leb_spec (Z.of_nat (length packets)) (pt.pop_switch_gap c));
    [|lia].
  unfold bind at 1, ret at 1. unfold bind at 1.
  rewrite assign_prefix_fits by (rewrite length_arange; lia).
  cbn [lift]. unfold bind at 1. rewrite reorder_identity. cbn [lift].
  unfold ret at 1. fold (serialize c packets).
  destruct (Z.leb_spec (Z.of_nat (length (serialize c packets)))
                       (pt.optim_len c - 1)); [|lia].
  unfold ret. rewrite length_arange, Nat2Z.id. reflexivity.
Qed.

Lemma C6_short_flow_identity_order_witness :
  pt.process_flow (flow_config 8 4 5) true [10; 3; 4; 20; 3; 4; 1] [7%nat]
  = Ok (serialize (flow_config 8 4 5) [[10; 3]; [20; 3]],
        map wrap8 (np.arange 2) ++ replicate (4 - 2) (-100), [7%nat]).
Proof.
  apply (C6_short_flow_identity_order (flow_config 8 4 5)
           [10; 3; 4; 20; 3; 4; 1] [[10; 3]; [20; 3]]);
    [reflexivity | simpl; lia | simpl; lia | simpl; lia | simpl; lia].
Defined.

(** C6 as the specification states it fails: the row of a selected flow
    of two packets, with a switch gap of five, is not left at -100. *)
Lemma C6_pop_order_counterexample :
  pt.flow_packets (flow_config 8 4 5) [10; 3; 4; 20; 3; 4; 1]
  = Ok [[10; 3]; [20; 3]]
  /\ 2 <= pt.pop_switch_gap (flow_config 8 4 5)
  /\ pt.tokenize_pt_func (flow_config 8 4 5)
       [[10; 3; 4; 20; 3; 4; 1]] [[0; 2; 3; 2; 1; 1; 1; 1]] []
     = Ok ([[10; 3; 4; 20; 3; 4; -100; -100]],
           [[0; 1; -100; -100]],
           [[0; 2; 3; 2; 1; 1; 1; 1] ++ replicate 8 (-100)], [])
  /\ [0; 1; -100; -100] <> replicate 4 (-100).
Proof.
  split; [reflexivity|]. split; [simpl; lia|].
  split; [vm_compute; reflexivity|]. discriminate.
Qed.

(** C1 fails on the code.  A flow of two packets with layer labels
    [0,2,3,2] and [1,1,1,1] is selected for POP with a switch gap of one:
    the packets are swapped and [pop_order] records [1, 0], but
    [nml_labels] stays in the original order, so label group 0 still
    describes the packet that moved to position 1. *)
Theorem C1_labels_not_swapped :
  pt.tokenize_pt_func (flow_config 20 4 1)
    [[10; 3; 11; 12; 4; 20; 3; 21; 4; 1]] [[0; 2; 3; 2; 1; 1; 1; 1]] []
  = Ok ([[20; 3; 21; 4; 10; 3; 11; 12; 4]
           ++ replicate 11 (-100)],
        [[1; 0; -100; -100]],
        [[0; 2; 3; 2; 1; 1; 1; 1] ++ replicate 8 (-100)],
        []).
Proof. vm_compute. reflexivity. Qed.

(** [nml_labels] is built from the label strings alone: neither the POP
    selection nor the swap reaches it. *)
Lemma tokenize_nml_labels c tknzed_input nml_actual_labels g ids pop nml g' :
  pt.tokenize_pt_func c tknzed_input nml_actual_labels g
  = Ok (ids, pop, nml, g') ->
  rmapM (pt.nml_row c)
        (nml_actual_labels
         ++ replicate (length tknzed_input - length nml_actual_labels) [])
  = Ok nml.
Proof.
  unfold pt.tokenize_pt_func. intros H.
  apply bind_Ok in H as (sel & g0 & _ & H).
  apply bind_Ok in H as (pi & g1 & _ & H).
  apply bind_Ok in H as (nml' & g2 & Hn & H).
  apply bind_Ok in H as (rows & g3 & _ & H).
  unfold ret in H. inversion H; subst.
  apply lift_Ok in Hn as [Hn _].
  destruct (_ <? _)%nat; [discriminate|]. exact Hn.
Qed.

(** ** The sequence compactor: claim C4 *)

Lemma pad_right {A} (a : list A) (n : Z) (v : A) :
  np.pad a 0 n v
  = if n <? 0 then Raise ValueError else Ok (a ++ replicate (Z.to_nat n) v).
Proof. unfold np.pad. simpl. destruct (n <? 0); reflexivity. Qed.

Lemma overlaid_zip (input_ids : list Z) : forall sentinel_ids,
  overlaid input_ids sentinel_ids
  = zip_with (fun s x => if s =? 0 then x else s) sentinel_ids input_ids.
Proof.
  induction input_ids as [|x xs IH]; intros [|s ss]; try reflexivity.
  cbn [overlaid zip_with]. rewrite IH. reflexivity.
Qed.

Lemma non_negative_filter (l : list Z) :
  non_negative l = filter (fun x => 0 <= x) l.
Proof.
  induction l as [|x l IH]; [reflexivity|]. cbn [non_negative].
  destruct (Z.ltb_spec x 0).
  - rewrite filter_cons_False by lia. exact IH.
  - rewrite filter_cons_True by lia. rewrite IH. reflexivity.
Qed.

Lemma without_last_drop (l : list Z) : without_last l = drop_last l.
Proof.
  unfold drop_last. induction l as [|x [|y r] IH]; try reflexivity.
  change (without_last (x :: y :: r)) with (x :: without_last (y :: r)).
  rewrite IH. cbn [length]. rewrite !Nat.sub_succ, !Nat.sub_0_r.
  reflexivity.
Qed.

(** The compaction of the code is the one the specification describes. *)
Lemma compacted_shrink (is_label : bool) (input_ids sentinel_ids : list Z) :
  shrink_row is_label
    (zip_with (fun s x => if s =? 0 then x else s) sentinel_ids input_ids)
  = compacted is_label input_ids sentinel_ids.
Proof.
  unfold compacted, shrink_row.
  rewrite overlaid_zip, non_negative_filter.
  destruct is_label; [rewrite without_last_drop|]; reflexivity.
Qed.

Lemma filter_row_spec self set_length is_label input_ids sentinel_ids :
  length input_ids = length sentinel_ids ->
  filter_row self set_length is_label input_ids sentinel_ids
  = if Z_le_dec (Z.of_nat (length (compacted is_label input_ids sentinel_ids)) + 1)
                set_length
    then Ok (padded_row self set_length is_label input_ids sentinel_ids)
    else Raise ValueError.
Proof.
  intros Hlen. unfold filter_row, overlay_row, padded_row.
  rewrite Hlen, Nat.eqb_refl. cbn [rbind]. rewrite compacted_shrink.
  set (arr := compacted is_label input_ids sentinel_ids).
  rewrite pad_right. change (1 <? 0) with false. cbn [rbind].
  rewrite pad_right.
  destruct (Z_le_dec (Z.of_nat (length arr) + 1) set_length);
    destruct (Z.ltb_spec (set_length - Z.of_nat (length arr) - 1) 0);
    try lia; [|reflexivity].
  rewrite <- app_assoc. reflexivity.
Qed.

Lemma length_padded_row self set_length is_label input_ids sentinel_ids :
  Z.of_nat (length (compacted is_label input_ids sentinel_ids)) + 1
    <= set_length ->
  Z.of_nat (length (padded_row self set_length is_label input_ids sentinel_ids))
  = set_length.
Proof.
  intros H. unfold padded_row. cbv zeta.
  rewrite !length_app, length_replicate. simpl. lia.
Qed.

(** C4: on token and sentinel matrices of one shape, [filter_input_ids]
    returns, for every row, the compacted row (negative entries dropped,
    and for labels the last kept entry as well), one end marker and the
    padding (the pad id for inputs, -100 for labels) up to exactly
    [set_length] entries - provided every compacted row with its end
    marker fits into [set_length]; if any row does not fit, it raises a
    [ValueError] instead of returning. *)
Theorem C4_compactor_rows (self : DataCollatorForPretrain)
    (input_ids sentinel_ids : list (list Z)) (set_length : Z)
    (is_label : bool) :
  Forall2 (fun x s => length x = length s) input_ids sentinel_ids ->
  (Forall2 (fun x s => Z.of_nat (length (compacted is_label x s)) + 1
                       <= set_length) input_ids sentinel_ids ->
   filter_input_ids self input_ids sentinel_ids set_length is_label
   = Ok (zip_with (padded_row self set_length is_label) input_ids sentinel_ids)
   /\ Forall (fun row => Z.of_nat (length row) = set_length)
             (zip_with (padded_row self set_length is_label)
                       input_ids sentinel_ids))
  /\ (~ Forall2 (fun x s => Z.of_nat (length (compacted is_label x s)) + 1
                            <= set_length) input_ids sentinel_ids ->
      filter_input_ids self input_ids sentinel_ids set_length is_label
      = Raise ValueError).
Proof.
  intros Hshape. unfold filter_input_ids.
  rewrite (Forall2_length _ _ _ Hshape), Nat.eqb_refl.
  induction Hshape as [|x s xs ss Hlen Hshape [IHok IHbad]].
  - split; [intros _; split; [reflexivity|constructor]|].
    intros Hn. exfalso. apply Hn. constructor.
  - split.
    + intros Hfit. apply Forall2_cons in Hfit as [Hx Hxs].
      destruct (IHok Hxs) as [E Hall].
      cbn [rmapM2 zip_with]. rewrite filter_row_spec by exact Hlen.
      destruct (Z_le_dec _ _); [|lia]. cbn [rbind]. rewrite E. cbn [rbind].
      split; [reflexivity|]. constructor; [|exact Hall].
      by apply length_padded_row.
    + intros Hn. cbn [rmapM2]. rewrite filter_row_spec by exact Hlen.
      destruct (Z_le_dec _ _) as [Hx|Hx]; [|reflexivity]. cbn [rbind].
      rewrite IHbad; [reflexivity|].
      intros Hxs. apply Hn. constructor; assumption.
Qed.

Lemma C4_compactor_rows_witness :
  filter_input_ids (collator (3 # 20) 3 5 8)
    [[10; 11; 12; 13; 4; -100]] [[0; 106; -1; 0; 0; 0]] 8 false
  = Ok [[10; 106; 13; 4; 1; 0; 0; 0]]
  /\ filter_input_ids (collator (3 # 20) 3 5 8)
       [[10; 11; 12; 13; 4; -100]] [[106; 0; 0; 105; -1; -1]] 8 true
     = Ok [[106; 11; 12; 1; -100; -100; -100; -100]]
  /\ filter_input_ids (collator (3 # 20) 3 5 8)
       [[10; 11; 12; 13; 4; -100]] [[0; 106; -1; 0; 0; 0]] 4 false
     = Raise ValueError
  /\ filter_input_ids (collator (3 # 20) 3 5 8)
       [[10; 11; 12; 13; 4; -100]] [[106; 0; 0; 105; -1; -1]] 3 true
     = Raise ValueError.
Proof.
  pose proof (C4_compactor_rows (collator (3 # 20) 3 5 8)
                [[10; 11; 12; 13; 4; -100]] [[0; 106; -1; 0; 0; 0]] 8 false
                ltac:(repeat constructor)) as [Hok _].
  pose proof (C4_compactor_rows (collator (3 # 20) 3 5 8)
                [[10; 11; 12; 13; 4; -100]] [[106; 0; 0; 105; -1; -1]] 8 true
                ltac:(repeat constructor)) as [Hlab _].
  pose proof (C4_compactor_rows (collator (3 # 20) 3 5 8)
                [[10; 11; 12; 13; 4; -100]] [[0; 106; -1; 0; 0; 0]] 4 false
                ltac:(repeat constructor)) as [_ Hbad].
  pose proof (C4_compactor_rows (collator (3 # 20) 3 5 8)
                [[10; 11; 12; 13; 4; -100]] [[106; 0; 0; 105; -1; -1]] 3 true
                ltac:(repeat constructor)) as [_ Hbadlab].
  split; [|split; [|split]].
  - apply Hok. repeat constructor. vm_compute. discriminate.
  - apply Hlab. repeat constructor. vm_compute. discriminate.
  - apply Hbad. intros H. apply Forall2_cons in H as [H _].
    vm_compute in H. apply H. reflexivity.
  - apply Hbadlab. intros H. apply Forall2_cons in H as [H _].
    vm_compute in H. apply H. reflexivity.
Defined.

(** ** The POP swap, and what it leaves untouched *)

Lemma index_Z (n : nat) (z : Z) :
  0 <= z < Z.of_nat n -> np.index n z = Ok (Z.to_nat z).
Proof.
  intros H. rewrite <- (Z2Nat.id z) at 1 by lia. apply index_in_range. lia.
Qed.

Lemma arange_lookup (n : Z) (i : nat) :
  (i < Z.to_nat n)%nat -> np.arange n !! i = Some (Z.of_nat i).
Proof.
  intros H. unfold np.arange. rewrite map_fmap, list_lookup_fmap.
  rewrite lookup_seq_lt by exact H. reflexivity.
Qed.

Lemma swap_into_arange (n : nat) (s t : nat) :
  (s < n)%nat -> (t < n)%nat ->
  pt.swap_into (np.arange (Z.of_nat n)) (np.arange (Z.of_nat n))
               (Z.of_nat s) (Z.of_nat t)
  = Ok (<[t := Z.of_nat s]> (<[s := Z.of_nat t]> (np.arange (Z.of_nat n)))).
Proof.
  intros Hs Ht. unfold pt.swap_into.
  rewrite !length_arange, !Nat2Z.id.
  rewrite !index_in_range by lia. cbn [rbind].
  rewrite !arange_lookup by lia. cbn [default rbind].
  rewrite length_insert, length_arange, Nat2Z.id.
  rewrite index_in_range by lia. reflexivity.
Qed.

Lemma reorder_lookup (packets : list (list Z)) (order : list Z) :
  Forall (fun o => 0 <= o < Z.of_nat (length packets)) order ->
  exists reordered,
    pt.reorder packets order = Ok reordered
    /\ length reordered = length order
    /\ forall (i : nat) (o : Z), order !! i = Some o ->
         reordered !! i = packets !! Z.to_nat o.
Proof.
  unfold pt.reorder.
  induction 1 as [|o order Ho _ (reordered & E & Hl & Hi)].
  - exists []. repeat split. intros i o H. done.
  - destruct (lookup_lt_is_Some_2 packets (Z.to_nat o) ltac:(lia)) as [x Hx].
    exists (x :: reordered). cbn [rmapM]. rewrite index_Z by exact Ho.
    cbn [rbind]. rewrite Hx, E. cbn [default rbind].
    split; [reflexivity|]. split; [simpl; lia|].
    intros [|i] o' H; simpl in H.
    + inversion H; subst. simpl. congruence.
    + simpl. by apply Hi.
Qed.

(** The true half of C1: when a selected flow has more packets than the
    switch gap, some [s] with [s + gap < packet_count] is drawn, the row of
    [pop_order] gets [s + gap] at [s] and [s] at [s + gap] (as int8), and
    the packets at these two positions change places. *)
Lemma pop_permute_swap (c : pt.config) (packets : list (list Z))
    (width : nat) (g : rng) :
  0 <= pt.pop_switch_gap c < Z.of_nat (length packets) ->
  (length packets <= width)%nat ->
  exists (s : nat) reordered pop_row g',
    let t := (s + Z.to_nat (pt.pop_switch_gap c))%nat in
    (t < length packets)%nat
    /\ pt.pop_permute c (Z.of_nat (length packets)) packets
                      (replicate width (-100)) g
       = Ok ((reordered, pop_row), g')
    /\ pop_row !! s = Some (wrap8 (Z.of_nat t))
    /\ pop_row !! t = Some (wrap8 (Z.of_nat s))
    /\ reordered !! s = packets !! t
    /\ reordered !! t = packets !! s.
Proof.
  intros Hgap Hw. unfold pt.pop_permute.
  set (n := length packets) in *. set (gap := Z.to_nat (pt.pop_switch_gap c)).
  destruct (Z.leb_spec (Z.of_nat n) (pt.pop_switch_gap c)); [lia|].
  unfold bind at 1. unfold bind at 1. unfold randint.
  destruct (Z.leb_spec (Z.of_nat n - pt.pop_switch_gap c) 0); [lia|].
  destruct (draw (Z.to_nat (Z.of_nat n - pt.pop_switch_gap c)) g)
    as [s g1] eqn:Hd.
  assert (Hs : (s < n - gap)%nat).
  { unfold draw in Hd. destruct g as [|x g]; inversion Hd; subst.
    - unfold gap. lia.
    - replace (Z.to_nat (Z.of_nat n - pt.pop_switch_gap c))
        with (n - gap)%nat by (unfold gap; lia).
      apply Nat.mod_upper_bound. unfold gap. lia. }
  replace (Z.of_nat s + pt.pop_switch_gap c) with (Z.of_nat (s + gap))
    by (unfold gap; lia).
  rewrite swap_into_arange by lia. unfold lift at 1.
  set (order := <[(s + gap)%nat := Z.of_nat s]>
                  (<[s := Z.of_nat (s + gap)]> (np.arange (Z.of_nat n)))).
  assert (Hlo : length order = n)
    by (unfold order; rewrite !length_insert, length_arange; lia).
  unfold bind at 1. rewrite assign_prefix_fits by lia. cbn [lift].
  assert (Hrange : Forall (fun o => 0 <= o < Z.of_nat n) order).
  { unfold order. apply Forall_insert; [apply Forall_insert|]; try lia.
    unfold np.arange. rewrite Nat2Z.id. apply Forall_forall.
    intros o Ho. rewrite map_fmap in Ho.
    apply list_elem_of_fmap in Ho as (i & -> & Hi).
    apply elem_of_seq in Hi. lia. }
  destruct (reorder_lookup packets order Hrange) as (reo & E & Hl & Hi).
  unfold bind at 1. rewrite E. cbn [lift]. unfold ret.
  assert (Ht : order !! (s + gap)%nat = Some (Z.of_nat s))
    by (unfold order; apply list_lookup_insert_eq;
        rewrite length_insert, length_arange; lia).
  assert (Hs' : order !! s = Some (Z.of_nat (s + gap))).
  { destruct (Nat.eq_dec gap 0%nat) as [E0|E0].
    - rewrite E0, Nat.add_0_r in *. exact Ht.
    - unfold order. rewrite list_lookup_insert_ne by lia.
      apply list_lookup_insert_eq. rewrite length_arange. lia. }
  exists s, reo, (map wrap8 order ++ replicate (width - length order) (-100)), g1.
  cbv zeta. fold gap. split; [lia|]. split; [reflexivity|].
  rewrite !lookup_app_l by (rewrite length_map; lia).
  rewrite !map_fmap, !list_lookup_fmap, Hs', Ht.
  rewrite (Hi _ _ Hs'), (Hi _ _ Ht), !Nat2Z.id. repeat split; reflexivity.
Qed.

(** ** When the segment-aware masker returns *)

Lemma mask_segments_returns self segs : forall fm0 g,
  Forall (fun s => 0 <= s /\
            (min_mask_span_length self <= s ->
             exists nnt k,
               num_noise_tokens self s = Ok nnt
               /\ num_noise_spans self s = Ok k
               /\ 2 <= s /\ k <= nnt /\ k <= s - nnt)) segs ->
  exists fm g', mask_segments self segs fm0 g = Ok (fm, g').
Proof.
  induction segs as [|s segs IH]; intros fm0 g Hall.
  - simpl. unfold ret. eauto.
  - inversion Hall as [|? ? [Hs0 Hs] Hrest]; subst.
    cbn [mask_segments]. unfold bind at 1.
    destruct (Z.leb_spec (min_mask_span_length self) s) as [Hmin|Hmin].
    + destruct (Hs Hmin) as (nnt & k & Hnnt & Hk & H2 & Hk1 & Hk2).
      pose proof (num_noise_tokens_range self s nnt Hnnt H2).
      destruct (random_spans_noise_mask_ok self s nnt k Hnnt Hk g)
        as (cs & ns & g1 & E & _); try lia.
      unfold bind at 1. rewrite E. unfold ret at 1. apply IH, Hrest.
    + unfold ret at 1. apply IH, Hrest.
Qed.

Lemma runs_bounded cur bits :
  Forall (fun c => (c <= cur + length bits)%nat) (runs cur bits).
Proof.
  revert cur; induction bits as [|[] r IH]; intros cur; simpl.
  - repeat constructor. lia.
  - constructor; [lia|]. eapply Forall_impl; [apply IH|]. simpl. lia.
  - eapply Forall_impl; [apply IH|]. simpl. lia.
Qed.

(** [segment_spans_random_mask] returns a mask whenever every run length
    it would hand to [random_spans_noise_mask] admits a span layout. *)
Lemma segment_spans_random_mask_returns self attn g :
  (forall n, min_mask_span_length self <= n <= Z.of_nat (length attn) ->
     exists nnt k,
       num_noise_tokens self n = Ok nnt
       /\ num_noise_spans self n = Ok k
       /\ 2 <= n /\ k <= nnt /\ k <= n - nnt) ->
  exists mask g', segment_spans_random_mask self attn g = Ok (mask, g').
Proof.
  intros Hok. unfold segment_spans_random_mask. rewrite segment_len_runs.
  destruct (mask_segments_returns self
              (map (fun c => c - 1)
                   (map Z.of_nat (runs 1 (map (fun a => a =? 0) attn)))) [] g)
    as (fm & g1 & E).
  { rewrite map_map. apply Forall_forall. intros s Hs.
    rewrite map_fmap in Hs. apply list_elem_of_fmap in Hs as (c & -> & Hc).
    pose proof (runs_pos 1 (map (fun a => a =? 0) attn) ltac:(lia)) as Hpos.
    pose proof (runs_bounded 1 (map (fun a => a =? 0) attn)) as Hb.
    rewrite Forall_forall in Hpos, Hb.
    specialize (Hpos c Hc). specialize (Hb c Hc). simpl in Hpos.
    rewrite length_map in Hb.
    split; [lia|]. intros Hmin. apply Hok. lia. }
  unfold bind. rewrite E.
  apply mask_segments_aligned in E as (pre & suf & -> & Hpre & Hsuf); [|lia].
  destruct pre; [|simpl in Hpre; lia].
  apply Forall2_length in Hsuf. simpl.
  replace (length suf) with (length attn) by exact Hsuf.
  rewrite Nat.add_1_r, Nat.eqb_refl. unfold ret. eauto.
Qed.

(** ** Examples: the theorems above at concrete inputs *)

Lemma C2_nml_mask_count_witness :
  __call__ (collator (3 # 20) 3 5 6) [four_label_example] []
  = Ok (example_batch (ex_nml_labels four_label_example), [])
  /\ 4 * count_true (nml_mask (example_batch (ex_nml_labels four_label_example)))
     <= count_nonneg_valid
          (nml_labels (example_batch (ex_nml_labels four_label_example)))
     < 4 * count_true
             (nml_mask (example_batch (ex_nml_labels four_label_example))) + 4.
Proof.
  assert (E : __call__ (collator (3 # 20) 3 5 6) [four_label_example] []
              = Ok (example_batch (ex_nml_labels four_label_example), []))
    by (vm_compute; reflexivity).
  split; [exact E|]. exact (proj2 (C2_nml_mask_count _ _ _ _ _ E)).
Defined.

(** C2 as the specification states it fails: a packet with five layer
    labels passes the assertion (1 = int(5 / 4)), and the batch is
    returned with one mask entry for five valid labels. *)
Lemma C2_nml_mask_count_counterexample :
  __call__ (collator (3 # 20) 3 5 6) [five_label_example] []
  = Ok (example_batch (ex_nml_labels five_label_example), [])
  /\ count_true (nml_mask (example_batch (ex_nml_labels five_label_example))) * 4
     = 4
  /\ count_valid
       (concat (nml_labels (example_batch (ex_nml_labels five_label_example))))
     = 5
  /\ count_true (nml_mask (example_batch (ex_nml_labels five_label_example))) * 4
     <> count_valid
          (concat (nml_labels (example_batch (ex_nml_labels five_label_example)))).
Proof.
  split; [vm_compute; reflexivity|]. split; [reflexivity|].
  split; [reflexivity|]. vm_compute. discriminate.
Qed.

Lemma C5_structural_exclusion_witness :
  segment_spans_random_mask (collator (3 # 10) 2 5 12)
    [1; 1; 0; 1; 1; 1; 1; 1; 1; 0; 1; 0] [2; 0; 1]%nat
  = Ok ([false; false; false; false; false; false; false; true; true;
         false; false; false], [])
  /\ forall i : nat,
       [1; 1; 0; 1; 1; 1; 1; 1; 1; 0; 1; 0] !! i = Some 0 ->
       [false; false; false; false; false; false; false; true; true;
        false; false; false] !! i = Some false.
Proof.
  assert (E : segment_spans_random_mask (collator (3 # 10) 2 5 12)
                [1; 1; 0; 1; 1; 1; 1; 1; 1; 0; 1; 0] [2; 0; 1]%nat
              = Ok ([false; false; false; false; false; false; false; true;
                     true; false; false; false], []))
    by (vm_compute; reflexivity).
  split; [exact E|]. exact (proj2 (C5_structural_exclusion _ _ _ _ _ E)).
Defined.

(** An over-long flow, evaluated: thirteen tokens against
    [optim_len = 12], six payload tokens for a deletion budget of four.
    Up to NumPy 2.0 the float slice bound raises; from NumPy 2.1 on the
    payloads lose two tokens and one. *)
Lemma overlong_flow_evaluated :
  pt.process_flow (flow_config_on np.before_2_1 12 4 5) false
    [10; 3; 11; 12; 13; 14; 4; 20; 3; 21; 22; 4; 1] []
  = Raise TypeError
  /\ pt.process_flow (flow_config_on np.from_2_1 12 4 5) false
       [10; 3; 11; 12; 13; 14; 4; 20; 3; 21; 22; 4; 1] []
     = Ok ([10; 3; 11; 12; 4; 20; 3; 21; 4], replicate 4 (-100), []).
Proof. split; vm_compute; reflexivity. Qed.

Lemma C9_head_payload_alternating_witness :
  head_payload_row (collator (3 # 20) 3 5 12)
    [10; 11; 3; 12; 13; 14; 4; 15; 16; 3; 17; 4] !! 3%nat
  = Some (if in_header_region (collator (3 # 20) 3 5 12)
               [10; 11; 3; 12; 13; 14; 4; 15; 16; 3; 17; 4] 3
          then 1 else 0).
Proof.
  apply (C9_head_payload_alternating (collator (3 # 20) 3 5 12)
           [10; 11; 3; 12; 13; 14; 4; 15; 16; 3; 17; 4] 3 12);
    [discriminate | reflexivity | reflexivity].
Defined.

(** C9 as the specification states it fails for rows that do not
    alternate: in a row that begins with [<pkt>], that marker gets 1 and
    the [<head>] marker behind it gets 0. *)
Lemma C9_head_payload_counterexample :
  [4; 10; 3; 11; 4] !! 0%nat = Some (PKT_ID (collator (3 # 20) 3 5 12))
  /\ head_payload_row (collator (3 # 20) 3 5 12) [4; 10; 3; 11; 4] !! 0%nat
     = Some 1
  /\ [4; 10; 3; 11; 4] !! 2%nat = Some (HEAD_ID (collator (3 # 20) 3 5 12))
  /\ head_payload_row (collator (3 # 20) 3 5 12) [4; 10; 3; 11; 4] !! 2%nat
     = Some 0
  /\ head_payload_row (collator (3 # 20) 3 5 12) [4; 10; 3; 11; 4]
     = [1; 0; 0; 1; 1].
Proof. repeat split. Qed.

(** The batch assembler on that row: [<pkt>], header token, [<head>],
    payload token, [<pkt>], and the end marker it appends. *)
Lemma head_payload_batch_example :
  match __call__ (collator (3 # 20) 3 5 6) [pkt_first_example] [] with
  | Ok (batch, _) =>
      input_ids batch = [[4; 10; 3; 11; 4; 1]]
      /\ head_payload_seg_ind batch = [[1; 0; 0; 1; 1; 0]]
  | Raise _ => False
  end.
Proof. vm_compute. split; reflexivity. Qed.

(** * Further properties of the two modules *)

(** ** [random_spans_noise_mask]: when it returns, and how it fails *)

(** X1: For [length >= 2], once the two counts are computed (in double
    arithmetic), the call returns a mask exactly when the number of noise
    spans is at most the number of noise tokens and at most the number of
    non-noise tokens; otherwise it raises [ValueError] (from [np.stack]
    or [np.reshape]). *)
Theorem noise_mask_returns_iff (self : DataCollatorForPretrain) (length : Z)
    (g : rng) (nnt k : Z) :
  2 <= length ->
  num_noise_tokens self length = Ok nnt ->
  num_noise_spans self length = Ok k ->
  ((exists mask g', random_spans_noise_mask self length g = Ok (mask, g'))
   <-> k <= nnt /\ k <= length - nnt)
  /\ (~ (k <= nnt /\ k <= length - nnt) ->
      random_spans_noise_mask self length g = Raise ValueError).
Proof.
  intros Hlen Hnnt Hk.
  pose proof (num_noise_tokens_range self length nnt Hnnt Hlen) as Hn.
  assert (Hfail : ~ (k <= nnt /\ k <= length - nnt) ->
                  random_spans_noise_mask self length g = Raise ValueError).
  { intros H.
    apply (random_spans_noise_mask_fail self length nnt k Hnnt Hk); auto; lia. }
  split; [|exact Hfail]. split.
  - intros (mask & g' & E).
    destruct (Z_le_dec k nnt); destruct (Z_le_dec k (length - nnt));
      try (split; assumption);
      rewrite Hfail in E by lia; discriminate.
  - intros [H1 H2].
    destruct (random_spans_noise_mask_ok self length nnt k Hnnt Hk g)
      as (cs & ns & g' & E & _); try lia. eauto.
Qed.

(** At 150 tokens, density 0.57 and mean 1.3 the product 150 * 0.57 is the
    double just below 85.5: 85 noise tokens in 65 spans leave 65 clean
    tokens, one for each span. *)
Lemma noise_mask_returns_iff_witness :
  num_noise_tokens (collator (57 # 100) (13 # 10) 5 200) 150 = Ok 85
  /\ num_noise_spans (collator (57 # 100) (13 # 10) 5 200) 150 = Ok 65
  /\ exists mask g',
       random_spans_noise_mask (collator (57 # 100) (13 # 10) 5 200) 150 []
       = Ok (mask, g').
Proof.
  split; [reflexivity|]. split; [reflexivity|].
  apply (noise_mask_returns_iff (collator (57 # 100) (13 # 10) 5 200) 150 []
           85 65); [lia | reflexivity | reflexivity | lia].
Defined.

Lemma binary_round_aux_sign mz ez lz :
  not_positive (binary_round_aux 53 1024 true mz ez lz).
Proof.
  unfold binary_round_aux.
  destruct (shr_fexp 53 1024 mz ez lz) as [mrs' e'].
  destruct (shr_fexp 53 1024 _ e' loc_Exact) as [mrs'' e''].
  destruct (shr_m mrs''); simpl; auto.
  destruct (_ <=? _); simpl; auto.
Qed.

Lemma value_not_positive x q :
  not_positive x -> value x = Ok q -> (q <= 0)%Q.
Proof.
  destruct x as [s|s| |s m e]; simpl; intros Hs H; try discriminate.
  - inversion H. apply Qle_refl.
  - subst s. inversion H; subst q; clear H.
    destruct (0 <=? e); unfold Qle; simpl; lia.
Qed.

Lemma round_not_positive x : not_positive x -> not_positive (np.round x).
Proof.
  intros Hs. unfold np.round. destruct (value x) as [q|e] eqn:Hq; [|exact Hs].
  pose proof (round_le q 0 (value_not_positive x q Hs Hq)) as Hr.
  destruct (nearest_even q) as [|p|p]; [exact I|lia|].
  unfold binary_normalize, binary_round.
  destruct (shl_align _ _ _) as [mz ez]. apply binary_round_aux_sign.
Qed.

Lemma py_int_not_positive x n :
  not_positive x -> py_int x = Ok n -> n <= 0.
Proof.
  intros Hs H. unfold py_int in H. apply rbind_Ok in H as (q & Hq & H).
  pose proof (value_not_positive x q Hs Hq) as Hle. inversion H; subst n.
  destruct (0 <=? Qnum q).
  - apply Qfloor_resp_le in Hle. exact Hle.
  - apply Qceiling_resp_le in Hle. exact Hle.
Qed.

Lemma fdiv_not_positive x y :
  not_positive x -> positive y = true -> not_positive (fdiv x y).
Proof.
  unfold positive, SFltb. intros Hx Hy.
  destruct y as [sy|sy| |sy my ey]; try discriminate;
    destruct sy; try discriminate;
    destruct x as [sx|sx| |sx mx ex]; simpl in *; subst; auto.
  destruct (SFdiv_core_binary _ _ _ _ _ _) as [[mz ez] lz].
  apply binary_round_aux_sign.
Qed.

(** X2: A sequence of one or no token cannot be masked: for [length] 0 or 1
    and a positive mean span length the call raises [IndexError] when it
    marks the span start (whenever the two counts are computed, that is,
    no NaN or infinity comes up in their double arithmetic), which is why
    callers must not pass such lengths. *)
Theorem noise_mask_short_length (self : DataCollatorForPretrain) (length : Z)
    (g : rng) (nnt k : Z) :
  0 <= length <= 1 ->
  positive (mean_noise_span_length self) = true ->
  num_noise_tokens self length = Ok nnt ->
  num_noise_spans self length = Ok k ->
  random_spans_noise_mask self length g = Raise IndexError.
Proof.
  intros Hlen Hmean Hnnt Hk.
  unfold random_spans_noise_mask. rewrite Hnnt, Hk.
  unfold bind at 1, lift at 1. unfold bind at 1, lift at 1.
  unfold num_noise_tokens in Hnnt. apply rbind_Ok in Hnnt as (n & En & Hnnt).
  assert (Hn : nnt = length - 1) by (inversion Hnnt; lia).
  unfold num_noise_spans in Hk. rewrite En in Hk. cbn [rbind] in Hk.
  replace (Z.min (Z.max n 1) (length - 1)) with (length - 1) in Hk by lia.
  destruct (Z.ltb_spec (length - 1) (Z.max n 1)); [|lia].
  rewrite andb_false_r in Hk.
  apply rbind_Ok in Hk as (k0 & Ek0 & Hk).
  assert (Hk0 : k0 <= 0).
  { apply (py_int_not_positive _ _ (round_not_positive _
             (fdiv_not_positive (of_int (length - 1)) _ ltac:(
                assert (length = 0 \/ length = 1) as [-> | ->] by lia;
                reflexivity) Hmean)) Ek0). }
  assert (Hk1 : k = 1) by (inversion Hk; lia).
  subst nnt k.
  replace (length - (length - 1)) with 1 by lia.
  assert (length = 0 \/ length = 1) as [-> | ->] by lia; reflexivity.
Qed.

Lemma noise_mask_short_length_witness :
  random_spans_noise_mask (collator (3 # 20) 3 1 12) 1 [5%nat]
  = Raise IndexError.
Proof.
  apply (noise_mask_short_length _ _ _ 0 1);
    [lia | reflexivity | reflexivity | reflexivity].
Defined.

(** ** [segment_spans_random_mask]: short runs stay unmasked *)

Lemma runs_windows zb : forall cur,
  exists a0 rest,
    runs cur zb = (cur + a0)%nat :: map S rest
    /\ (forall j, (j < a0)%nat -> zb !! j = Some false)
    /\ Forall (fun n => exists i, forall j,
                 (i <= j < i + n)%nat -> zb !! j = Some false) rest.
Proof.
  induction zb as [|[] r IH]; intros cur.
  - exists 0%nat, []. simpl. rewrite Nat.add_0_r.
    split; [reflexivity|]. split; [intros; lia|constructor].
  - destruct (IH 1%nat) as (a0 & rest & E & Ha & Hr).
    exists 0%nat, (a0 :: rest). simpl. rewrite Nat.add_0_r, E.
    split; [reflexivity|]. split; [intros; lia|].
    constructor.
    + exists 1%nat. intros j Hj. destruct j as [|j]; [lia|]. simpl.
      apply Ha. lia.
    + eapply Forall_impl; [exact Hr|]. intros n (i & Hi).
      exists (S i). intros j Hj. destruct j as [|j]; [lia|]. simpl.
      apply Hi. lia.
  - destruct (IH (S cur)) as (a0 & rest & E & Ha & Hr).
    exists (S a0), rest. simpl. rewrite E.
    split; [f_equal; lia|]. split.
    + intros [|j] Hj; [reflexivity|]. simpl. apply Ha. lia.
    + eapply Forall_impl; [exact Hr|]. intros n (i & Hi).
      exists (S i). intros j Hj. destruct j as [|j]; [lia|]. simpl.
      apply Hi. lia.
Qed.

Lemma mask_segments_short self segs : forall fm0 g,
  Forall (fun s => 0 <= s < min_mask_span_length self) segs ->
  mask_segments self segs fm0 g
  = Ok (fm0 ++ concat (map (fun s => false :: replicate (Z.to_nat s) false)
                           segs), g).
Proof.
  induction segs as [|s segs IH]; intros fm0 g Hall.
  - simpl. rewrite app_nil_r. reflexivity.
  - inversion Hall as [|? ? Hs Hrest]; subst.
    cbn [mask_segments]. unfold bind at 1.
    destruct (Z.leb_spec (min_mask_span_length self) s); [lia|].
    unfold ret at 1. rewrite IH by exact Hrest.
    cbn [map concat]. rewrite <- !app_assoc. reflexivity.
Qed.

Lemma all_false_replicate (l : list bool) :
  Forall (fun b => b = false) l -> l = replicate (length l) false.
Proof. induction 1 as [|b l -> _ IH]; simpl; [|f_equal]; auto. Qed.

Lemma concat_false_all (segs : list Z) :
  Forall (fun b => b = false)
    (concat (map (fun s => false :: replicate (Z.to_nat s) false) segs)).
Proof.
  induction segs as [|s l IH]; cbn [map concat].
  - constructor.
  - cbn [app]. constructor; [reflexivity|]. apply Forall_app. split; [|exact IH].
    apply Forall_forall. intros b Hb. apply elem_of_replicate in Hb. tauto.
Qed.

(** X3: When every run of attendable flags is shorter than
    [min_mask_span_length], nothing is masked: the mask is all False, has
    the length of the flag array, and no randomness is drawn. *)
Theorem segment_mask_short_runs (self : DataCollatorForPretrain)
    (attn_mask : list Z) (g : rng) :
  (forall i n : nat,
     (forall j : nat, (i <= j < i + n)%nat ->
        exists a, attn_mask !! j = Some a /\ a <> 0) ->
     Z.of_nat n < min_mask_span_length self) ->
  segment_spans_random_mask self attn_mask g
  = Ok (replicate (length attn_mask) false, g).
Proof.
  intros Hshort.
  assert (Hw : forall i n : nat,
             (forall j, (i <= j < i + n)%nat ->
                        map (fun a => a =? 0) attn_mask !! j = Some false) ->
             Z.of_nat n < min_mask_span_length self).
  { intros i n Hwin. apply (Hshort i). intros j Hj.
    specialize (Hwin j Hj). rewrite map_fmap, list_lookup_fmap in Hwin.
    destruct (attn_mask !! j) as [a|]; [|discriminate].
    exists a. split; [reflexivity|]. simpl in Hwin.
    destruct (Z.eqb_spec a 0); [discriminate|assumption]. }
  unfold segment_spans_random_mask. rewrite segment_len_runs.
  destruct (runs_windows (map (fun a => a =? 0) attn_mask) 1)
    as (a0 & rest & E & Ha & Hr).
  assert (Hall : Forall (fun s => 0 <= s < min_mask_span_length self)
                   (map (fun c => c - 1)
                      (map Z.of_nat
                         (runs 1 (map (fun a => a =? 0) attn_mask))))).
  { rewrite E. cbn [map]. constructor.
    - split; [lia|]. replace (Z.of_nat (1 + a0) - 1) with (Z.of_nat a0) by lia.
      apply (Hw 0%nat). intros j Hj. apply Ha. lia.
    - rewrite !map_map. apply Forall_forall. intros s Hs.
      rewrite map_fmap in Hs. apply list_elem_of_fmap in Hs as (n & -> & Hn).
      rewrite Forall_forall in Hr. destruct (Hr n Hn) as (i & Hi).
      split; [lia|]. replace (Z.of_nat (S n) - 1) with (Z.of_nat n) by lia.
      exact (Hw i n Hi). }
  pose proof (mask_segments_short self _ [] g Hall) as Hrun.
  unfold bind. rewrite Hrun.
  pose proof Hrun as Hal.
  apply mask_segments_aligned in Hal as (pre & suf & Efm & Hpre & Hsuf); [|lia].
  destruct pre; [|simpl in Hpre; lia].
  cbn [app] in Efm. rewrite Efm.
  apply Forall2_length in Hsuf. cbn [app length].
  rewrite <- Hsuf, Nat.add_1_r, Nat.eqb_refl. unfold ret. cbn [drop].
  do 2 f_equal. rewrite Hsuf. apply all_false_replicate.
  assert (Hf : Forall (fun b => b = false) (false :: suf)).
  { rewrite <- Efm. apply concat_false_all. }
  inversion Hf; assumption.
Qed.

Lemma segment_mask_short_runs_witness :
  segment_spans_random_mask (collator (3 # 20) 3 5 12)
    [1; 1; 0; 1; 1; 1; 1; 0; 1; 0] [4; 2]%nat
  = Ok (replicate (length [1; 1; 0; 1; 1; 1; 1; 0; 1; 0]) false, [4; 2]%nat).
Proof.
  apply segment_mask_short_runs. intros i n Hwin. simpl.
  destruct (Z_lt_dec (Z.of_nat n) 5) as [|Hn]; [assumption|exfalso].
  assert (Hcase : forall j : nat,
            [1; 1; 0; 1; 1; 1; 1; 0; 1; 0] !! j = Some 0
            \/ [1; 1; 0; 1; 1; 1; 1; 0; 1; 0] !! j = None
            \/ (j <> 2 /\ j <> 7 /\ j < 9)%nat).
  { intros j. do 10 (destruct j as [|j]; [simpl; auto; right; right; lia|]).
    right; left; reflexivity. }
  assert (Hin : forall j, (i <= j < i + n)%nat -> (j <> 2 /\ j <> 7 /\ j < 9)%nat).
  { intros j Hj. destruct (Hwin j Hj) as (a & Ha & Hne).
    destruct (Hcase j) as [H|[H|H]]; [congruence|congruence|exact H]. }
  pose proof (Hin i ltac:(lia)). pose proof (Hin (i + 1)%nat ltac:(lia)).
  pose proof (Hin (i + 2)%nat ltac:(lia)). pose proof (Hin (i + 3)%nat ltac:(lia)).
  pose proof (Hin (i + 4)%nat ltac:(lia)). lia.
Defined.

(** ** Sentinel encoder and compactor together: span corruption *)

Lemma overlay_corrupt (mask : list bool) : forall prev k tokens,
  length tokens = length mask ->
  0 <= k ->
  k + Z.of_nat (true_runs prev mask) <= 106 ->
  filter (fun x => 0 <= x)
    (zip_with (fun s x => if s =? 0 then x else s)
              (sentinel_spec prev k mask) tokens)
  = corrupt prev k mask tokens.
Proof.
  induction mask as [|b mask IH]; intros prev k tokens Hlen Hk Hruns.
  - destruct tokens; [reflexivity|discriminate].
  - destruct tokens as [|x tokens]; [discriminate|].
    injection Hlen as Hlen. cbn [true_runs] in Hruns.
    destruct b; cbn [sentinel_spec corrupt].
    + destruct prev; cbn [zip_with andb negb] in *.
      * change (-1 =? 0) with false. cbv iota.
        rewrite filter_cons_False by lia. apply IH; [assumption|lia|lia].
      * destruct (Z.eqb_spec (extra_start_token_id - (k + 1)) 0) as [E|_];
          [unfold extra_start_token_id in E; lia|].
        rewrite filter_cons_True by (unfold extra_start_token_id; lia).
        f_equal. apply IH; [assumption|lia|lia].
    + cbn [zip_with andb] in *. change (0 =? 0) with true. cbv iota.
      destruct (Z.leb_spec 0 x).
      * rewrite filter_cons_True by assumption. f_equal.
        apply IH; [assumption|lia|lia].
      * rewrite filter_cons_False by lia. apply IH; [assumption|lia|lia].
Qed.

(** X4: The sentinel encoder followed by the compactor performs span corruption
    on a row: with at most 106 masked spans, every masked run of tokens is
    replaced by its one sentinel [107 - k], unmasked non-negative tokens are
    kept in order, negative ones disappear (and a label row loses its last
    entry); then come the end marker and the padding, or the [ValueError]
    of a negative pad width when the row does not fit. *)
Theorem span_corruption_row (self : DataCollatorForPretrain)
    (set_length : Z) (is_label : bool) (mask : list bool) (tokens : list Z) :
  mask <> [] ->
  length tokens = length mask ->
  (true_runs false mask <= 106)%nat ->
  exists sentinel_ids,
    create_sentinel_row (map Z.b2z mask) = Ok sentinel_ids
    /\ let body := if is_label then drop_last (corrupt false 0 mask tokens)
                   else corrupt false 0 mask tokens in
       filter_row self set_length is_label tokens sentinel_ids
       = if Z_le_dec (Z.of_nat (length body) + 1) set_length
         then Ok (body ++ [EOS_ID self]
                    ++ replicate (Z.to_nat (set_length - Z.of_nat (length body) - 1))
                                 (if is_label then -100 else PAD_ID self))
         else Raise ValueError.
Proof.
  intros Hne Hlen Hruns. exists (sentinel_spec false 0 mask).
  split; [apply create_sentinel_row_spec; assumption|].
  cbv zeta. rewrite filter_row_spec by (rewrite length_sentinel_spec; exact Hlen).
  unfold padded_row. rewrite <- !compacted_shrink. unfold shrink_row.
  rewrite overlay_corrupt by (try assumption; lia).
  reflexivity.
Qed.

Lemma span_corruption_row_witness :
  exists sentinel_ids,
    create_sentinel_row (map Z.b2z [false; true; true; false; true; false])
    = Ok sentinel_ids
    /\ filter_row (collator (3 # 20) 3 1 8) 8 false
         [10; 11; 12; 13; 14; -100] sentinel_ids
       = Ok [10; 106; 13; 105; 1; 0; 0; 0].
Proof.
  destruct (span_corruption_row (collator (3 # 20) 3 1 8) 8 false
              [false; true; true; false; true; false]
              [10; 11; 12; 13; 14; -100])
    as (s & Hs & Hrow); [discriminate|reflexivity|simpl; lia|].
  exists s. split; [exact Hs|]. exact Hrow.
Defined.

(** X5: Only 106 sentinels exist.  At the start of the 107-th masked span the
    encoder writes 0, so the overlay keeps the masked token itself; from
    the 108-th span on it writes a negative number, which the compactor
    drops, so the span leaves no sentinel behind. *)
Theorem sentinel_exhaustion (mask : list bool) (tokens : list Z)
    (i : nat) (x : Z) :
  length tokens = length mask ->
  span_starts mask !! i = Some true ->
  107 <= span_number mask i ->
  tokens !! i = Some x ->
  exists sentinel_ids input_ids_full,
    create_sentinel_row (map Z.b2z mask) = Ok sentinel_ids
    /\ overlay_row tokens sentinel_ids = Ok input_ids_full
    /\ input_ids_full !! i
       = Some (if span_number mask i =? 107 then x
               else extra_start_token_id - span_number mask i)
    /\ (span_number mask i <> 107 ->
        extra_start_token_id - span_number mask i < 0).
Proof.
  intros Hlen Hstart Hn Hx.
  assert (Hne : mask <> []) by (intros ->; discriminate).
  assert (Hm : mask !! i = Some true).
  { clear -Hstart. unfold span_starts in Hstart. revert i Hstart.
    generalize false as p.
    induction mask as [|b r IH]; intros p i H; [discriminate|].
    destruct i as [|i]; simpl in H.
    - destruct b; [reflexivity|discriminate].
    - simpl. eapply IH; exact H. }
  exists (sentinel_spec false 0 mask).
  eexists. split; [apply create_sentinel_row_spec; assumption|].
  unfold overlay_row. rewrite length_sentinel_spec, Hlen, Nat.eqb_refl.
  split; [reflexivity|]. split.
  - rewrite lookup_zip_with, (sentinel_spec_lookup _ _ _ _ _ Hm), Hx.
    fold (span_starts mask). rewrite Hstart. cbn [default option_bind mbind].
    rewrite Z.add_0_l. fold (span_number mask i). cbn.
    unfold extra_start_token_id.
    destruct (Z.eqb_spec (107 - span_number mask i) 0),
             (Z.eqb_spec (span_number mask i) 107); try lia; reflexivity.
  - unfold extra_start_token_id. lia.
Qed.

Lemma sentinel_exhaustion_witness :
  exists sentinel_ids input_ids_full,
    create_sentinel_row
      (map Z.b2z (concat (replicate 107 [true; false]))) = Ok sentinel_ids
    /\ overlay_row (map Z.of_nat (seq 1000 214)) sentinel_ids
       = Ok input_ids_full
    /\ input_ids_full !! 212%nat = Some 1212.
Proof.
  destruct (sentinel_exhaustion (concat (replicate 107 [true; false]))
              (map Z.of_nat (seq 1000 214)) 212 1212)
    as (s & f & Hs & Hf & Hi & _);
    [reflexivity|reflexivity|vm_compute; discriminate|reflexivity|].
  exists s, f. split; [exact Hs|]. split; [exact Hf|].
  rewrite Hi. reflexivity.
Defined.

(** ** The batch [__call__] returns: shapes and packet indices *)

Lemma rmapM2_length {A B C} (f : A -> B -> result C) l : forall k r,
  rmapM2 f l k = Ok r -> length r = length l /\ length k = length l.
Proof.
  induction l as [|x l IH]; intros [|y k] r H; simpl in H; try discriminate.
  - inversion H; auto.
  - apply rbind_Ok in H as (z & _ & H). apply rbind_Ok in H as (zs & Hzs & H).
    inversion H; subst. destruct (IH _ _ Hzs). simpl. auto.
Qed.

Lemma mapM_length {A B} (f : A -> M B) l : forall g r g',
  mapM f l g = Ok (r, g') -> length r = length l.
Proof.
  induction l as [|x l IH]; intros g r g' H; simpl in H.
  - inversion H; reflexivity.
  - apply bind_Ok in H as (y & g1 & _ & H).
    apply bind_Ok in H as (ys & g2 & Hys & H).
    inversion H; subst. simpl. f_equal. eapply IH; exact Hys.
Qed.

Lemma as_matrix_Ok {A} (rows m : list (list A)) :
  as_matrix rows = Ok m -> m = rows.
Proof.
  unfold as_matrix. destruct rows; [congruence|].
  destruct (forallb _ _); congruence.
Qed.

Lemma existsb_false_Forall {A} (p : A -> bool) l :
  existsb p l = false -> Forall (fun x => p x = false) l.
Proof.
  induction l as [|x l IH]; simpl; [constructor|].
  intros H. apply orb_false_iff in H as [Hx Hl]. constructor; auto.
Qed.

(** What a returned batch went through, step by step.  The sentinel
    arrays have one row per example, so the compactor pairs the rows one
    by one. *)
Lemma call_inv_steps self examples g batch g' :
  __call__ self examples g = Ok (batch, g') ->
  exists masks isent lsent,
    mapM (fun '(attn, real_len) => spans_noise_mask self attn real_len)
         (zip (map (map (fun x => if (x =? PKT_ID self) || (x =? HEAD_ID self)
                                  then 0 else 1))
                   (map ex_input_ids examples))
              (map count_valid (map ex_input_ids examples))) g
    = Ok (masks, g')
    /\ create_sentinel_ids (map (map Z.b2z) masks) = Ok isent
    /\ create_sentinel_ids (map (map Z.b2z) (map (map negb) masks)) = Ok lsent
    /\ rmapM2 (filter_row self (max_length self) false)
               (map ex_input_ids examples) isent = Ok (input_ids batch)
    /\ rmapM2 (filter_row self (max_labels_length self) true)
               (map ex_input_ids examples) lsent = Ok (labels batch).
Proof.
  unfold __call__. intros H.
  apply bind_Ok in H as (? & g0 & Hex & H).
  apply bind_Ok in H as (ids & g1 & Hids & H).
  apply bind_Ok in H as (pop & g2 & Hpop & H).
  apply bind_Ok in H as (nml & g3 & Hnml & H).
  apply bind_Ok in H as (masks & g4 & Hmasks & H).
  apply bind_Ok in H as (isent & g5 & Hisent & H).
  apply bind_Ok in H as (lsent & g6 & Hlsent & H).
  apply bind_Ok in H as (new_ids & g7 & Hnew & H).
  apply bind_Ok in H as (labs & g8 & Hlabs & H).
  destruct (count_true _ =? _); cbn [negb] in H; [|discriminate].
  destruct (existsb _ new_ids); [discriminate|].
  destruct (existsb _ labs); [discriminate|].
  unfold ret in H. inversion H; subst; clear H. cbn.
  apply lift_Ok in Hex as [_ ->].
  apply lift_Ok in Hids as [Hids ->]. apply as_matrix_Ok in Hids. subst ids.
  apply lift_Ok in Hpop as [_ ->]. apply lift_Ok in Hnml as [_ ->].
  apply lift_Ok in Hisent as [Hisent ->]. apply lift_Ok in Hlsent as [Hlsent ->].
  apply lift_Ok in Hnew as [Hnew ->]. apply lift_Ok in Hlabs as [Hlabs ->].
  pose proof (mapM_length _ _ _ _ _ Hmasks) as Lm.
  rewrite length_zip, !length_map, Nat.min_id in Lm.
  pose proof (rmapM_length _ _ _ Hisent) as Li.
  pose proof (rmapM_length _ _ _ Hlsent) as Ll.
  rewrite length_map in Li. rewrite !length_map in Ll.
  assert (Ei : (length (map ex_input_ids examples) =? length isent)%nat = true)
    by (apply Nat.eqb_eq; rewrite length_map; lia).
  assert (El : (length (map ex_input_ids examples) =? length lsent)%nat = true)
    by (apply Nat.eqb_eq; rewrite length_map; lia).
  unfold filter_input_ids in Hnew, Hlabs. rewrite Ei in Hnew. rewrite El in Hlabs.
  exists masks, isent, lsent. auto.
Qed.

Lemma call_inv_shape self examples g batch g' :
  __call__ self examples g = Ok (batch, g') ->
  examples <> []
  /\ length (input_ids batch) = length examples
  /\ length (labels batch) = length examples
  /\ Forall (fun row => Z.of_nat (length row) = max_length self)
            (input_ids batch)
  /\ Forall (fun row => Z.of_nat (length row) = max_labels_length self)
            (labels batch)
  /\ pkt_seg_ind batch = map (pkt_seg_row self) (input_ids batch).
Proof.
  intros H.
  pose proof (call_inv_steps _ _ _ _ _ H) as (? & ? & ? & _ & _ & _ & Hnew & Hlabs).
  apply rmapM2_length in Hnew as [Hnew _].
  apply rmapM2_length in Hlabs as [Hlabs _].
  rewrite length_map in Hnew, Hlabs.
  unfold __call__ in H.
  apply bind_Ok in H as (? & g0 & Hex & H).
  apply bind_Ok in H as (ids & g1 & Hids & H).
  apply bind_Ok in H as (pop & g2 & _ & H).
  apply bind_Ok in H as (nml & g3 & _ & H).
  apply bind_Ok in H as (masks & g4 & _ & H).
  apply bind_Ok in H as (isent & g5 & _ & H).
  apply bind_Ok in H as (lsent & g6 & _ & H).
  apply bind_Ok in H as (new_ids & g7 & _ & H).
  apply bind_Ok in H as (labs & g8 & _ & H).
  destruct (count_true _ =? _); cbn [negb] in H; [|discriminate].
  destruct (existsb _ new_ids) eqn:Hs1; [discriminate|].
  destruct (existsb _ labs) eqn:Hs2; [discriminate|].
  unfold ret in H. inversion H; subst; clear H. cbn in *.
  split; [destruct examples; [discriminate|discriminate]|].
  do 2 (split; [assumption|]).
  split; [|split].
  - apply existsb_false_Forall in Hs1. eapply Forall_impl; [exact Hs1|].
    intros row Hr. apply negb_false_iff, Z.eqb_eq in Hr. exact Hr.
  - apply existsb_false_Forall in Hs2. eapply Forall_impl; [exact Hs2|].
    intros row Hr. apply negb_false_iff, Z.eqb_eq in Hr. exact Hr.
  - unfold token_mask, pkt_seg_row. rewrite map_map. reflexivity.
Qed.

Lemma same_shape_map {A B} (f : list A -> list B) (m : list (list A)) :
  (forall r, length (f r) = length r) -> same_shape (map f m) m.
Proof.
  intros Hf. unfold same_shape.
  induction m as [|r m IH]; cbn [map]; constructor; auto.
Qed.

Lemma same_shape_task_mask id (ids labs : list (list Z)) :
  length labs = length ids -> same_shape (task_mask id ids labs) ids.
Proof.
  unfold same_shape, task_mask. revert labs.
  induction ids as [|r ids IH]; intros [|l labs] Hlen; try discriminate.
  - constructor.
  - cbn [zip_with]. constructor; [apply length_map|].
    apply IH. simpl in Hlen. lia.
Qed.

Lemma length_flip_row input : length (flip_row input) = length input.
Proof.
  unfold flip_row.
  assert (Hfold : forall cols out,
             length (foldl (fun output col =>
                              if default 0 (input !! col) =? 1
                              then flip_from col output else output)
                           out cols) = length out).
  { induction cols as [|c cols IH]; intros out; [reflexivity|].
    cbn [foldl]. rewrite IH. destruct (_ =? 1); [|reflexivity].
    unfold flip_from. rewrite length_app, length_map, length_take, length_drop.
    lia. }
  rewrite Hfold. apply length_replicate.
Qed.

(** X6: Every batch [__call__] returns has one row per example; the
    [input_ids] rows have [max_length] entries and the [labels] rows
    [max_labels_length]; the two task masks and the two segment
    indicators have the shape of [input_ids]. *)
Theorem batch_shape (self : DataCollatorForPretrain)
    (examples : list Example) (g : rng) (batch : Batch) (g' : rng) :
  __call__ self examples g = Ok (batch, g') ->
  length (input_ids batch) = length examples
  /\ length (labels batch) = length examples
  /\ Forall (fun row => Z.of_nat (length row) = max_length self)
            (input_ids batch)
  /\ Forall (fun row => Z.of_nat (length row) = max_labels_length self)
            (labels batch)
  /\ same_shape (pop_mask batch) (input_ids batch)
  /\ same_shape (nml_mask batch) (input_ids batch)
  /\ same_shape (pkt_seg_ind batch) (input_ids batch)
  /\ same_shape (head_payload_seg_ind batch) (input_ids batch).
Proof.
  intros H.
  pose proof (call_inv_shape _ _ _ _ _ H) as (_ & Hn & Hl & Hrows & Hlabs & Hpkt).
  pose proof (call_head_payload _ _ _ _ _ H) as Hhp.
  apply call_inv in H as (Hnml & Hpop & Hnm & Hpm & _ & _).
  do 4 (split; [assumption|]).
  split; [|split; [|split]].
  - rewrite Hpm. apply same_shape_task_mask.
    rewrite Hpop, length_map, Hn. reflexivity.
  - rewrite Hnm. apply same_shape_task_mask.
    rewrite Hnml, length_map, Hn. reflexivity.
  - rewrite Hpkt. apply same_shape_map. intros r. unfold pkt_seg_row.
    rewrite length_zip_with, length_map. unfold np.cumsum.
    rewrite cumsum_from_length, length_map. lia.
  - rewrite Hhp. apply same_shape_map. intros r. unfold head_payload_row.
    rewrite length_zip_with, length_flip_row, length_map. lia.
Qed.

Lemma batch_shape_witness :
  length (input_ids (example_batch (ex_nml_labels four_label_example)))
  = length [four_label_example]
  /\ same_shape (pkt_seg_ind (example_batch (ex_nml_labels four_label_example)))
                (input_ids (example_batch (ex_nml_labels four_label_example))).
Proof.
  assert (E : __call__ (collator (3 # 20) 3 5 6) [four_label_example] []
              = Ok (example_batch (ex_nml_labels four_label_example), []))
    by (vm_compute; reflexivity).
  destruct (batch_shape _ _ _ _ _ E) as (H1 & _ & _ & _ & _ & _ & H7 & _).
  split; [exact H1|exact H7].
Defined.

Lemma pkt_seg_from (self : DataCollatorForPretrain) (row : list Z) :
  forall (acc : Z) (i : nat),
  (i < length row)%nat ->
  zip_with Z.sub
    (np.cumsum_from acc (map (fun x => Z.b2z (x =? PKT_ID self)) row))
    (map (fun x => Z.b2z (x =? PKT_ID self)) row) !! i
  = Some (acc + pkt_count self (take i row)).
Proof.
  unfold pkt_count.
  induction row as [|x row IH]; intros acc i Hi; [simpl in Hi; lia|].
  cbn [map np.cumsum_from zip_with]. destruct i as [|i].
  - simpl. f_equal. lia.
  - rewrite lookup_cons_ne_0 by lia. cbn [pred].
    rewrite IH by (simpl in Hi; lia). f_equal. rewrite firstn_cons.
    destruct (Z.eqb_spec x (PKT_ID self)) as [E|E].
    + rewrite filter_cons_True by assumption. cbn [length Z.b2z]. lia.
    + rewrite filter_cons_False by assumption. cbn [Z.b2z]. lia.
Qed.

(** X7: [pkt_seg_ind] numbers the packets of a row from 0: its entry at a
    position is the number of [<pkt>] tokens strictly before that position
    in the returned [input_ids] row, so a [<pkt>] token carries the index
    of the packet it closes. *)
Theorem pkt_seg_counts (self : DataCollatorForPretrain)
    (examples : list Example) (g : rng) (batch : Batch) (g' : rng)
    (r i : nat) (row : list Z) :
  __call__ self examples g = Ok (batch, g') ->
  input_ids batch !! r = Some row ->
  (i < length row)%nat ->
  exists seg,
    pkt_seg_ind batch !! r = Some seg
    /\ seg !! i = Some (pkt_count self (take i row)).
Proof.
  intros H Hrow Hi.
  apply call_inv_shape in H as (_ & _ & _ & _ & _ & Hpkt).
  exists (pkt_seg_row self row). split.
  - rewrite Hpkt, map_fmap, list_lookup_fmap, Hrow. reflexivity.
  - unfold pkt_seg_row, np.cumsum. rewrite pkt_seg_from by assumption.
    reflexivity.
Qed.

Lemma pkt_seg_counts_witness :
  exists seg,
    pkt_seg_ind (example_batch (ex_nml_labels four_label_example)) !! 0%nat
    = Some seg
    /\ seg !! 4%nat = Some 1.
Proof.
  assert (E : __call__ (collator (3 # 20) 3 5 6) [four_label_example] []
              = Ok (example_batch (ex_nml_labels four_label_example), []))
    by (vm_compute; reflexivity).
  destruct (pkt_seg_counts _ _ _ _ _ 0%nat 4%nat [10; 3; 11; 4; 1; 0] E)
    as (seg & Hseg & Hval); [reflexivity|simpl; lia|].
  exists seg. split; [exact Hseg|]. rewrite Hval. reflexivity.
Defined.

(** ** What [__call__] requires and what its rows contain *)

Lemma mapM_Forall {A B} (f : A -> M B) (P : A -> Prop) :
  (forall x g y g', f x g = Ok (y, g') -> P x) ->
  forall l g r g', mapM f l g = Ok (r, g') -> Forall P l.
Proof.
  intros Hf. induction l as [|x l IH]; intros g r g' H; [constructor|].
  simpl in H. apply bind_Ok in H as (y & g1 & Hy & H).
  apply bind_Ok in H as (ys & g2 & Hys & _).
  constructor; [eapply Hf; exact Hy|eapply IH; exact Hys].
Qed.

Lemma rmapM2_Forall {A B C} (f : A -> B -> result C) (P : C -> Prop) :
  (forall x y z, f x y = Ok z -> P z) ->
  forall l k r, rmapM2 f l k = Ok r -> Forall P r.
Proof.
  intros Hf. induction l as [|x l IH]; intros [|y k] r H; simpl in H;
    try discriminate.
  - inversion H. constructor.
  - apply rbind_Ok in H as (z & Hz & H). apply rbind_Ok in H as (zs & Hzs & H).
    inversion H; subst. constructor; [eapply Hf; exact Hz|eapply IH; exact Hzs].
Qed.

Lemma elem_of_zip_map {A B C} (f : A -> B) (h : A -> C) (x : A) l :
  x ∈ l -> (f x, h x) ∈ zip (map f l) (map h l).
Proof.
  induction 1 as [x l|x y l _ IH]; cbn [map zip zip_with].
  - apply list_elem_of_here.
  - apply list_elem_of_further. exact IH.
Qed.

(** X8: [__call__] returns a batch only for a non-empty list of examples in
    which no row carries more than [optimal_len] entries other than -100:
    a longer row makes the pad width of its mask negative. *)
Theorem call_requires (self : DataCollatorForPretrain)
    (examples : list Example) (g : rng) (batch : Batch) (g' : rng) :
  __call__ self examples g = Ok (batch, g') ->
  examples <> []
  /\ Forall (fun ex => count_valid (ex_input_ids ex) <= optimal_len self)
            examples.
Proof.
  intros H. split; [apply call_inv_shape in H; tauto|].
  apply call_inv_steps in H as (masks & _ & _ & Hm & _).
  apply mapM_Forall
    with (P := fun p : list Z * Z => p.2 <= optimal_len self) in Hm.
  - rewrite Forall_forall in Hm. apply Forall_forall. intros ex Hex.
    apply (Hm (map (fun x => if (x =? PKT_ID self) || (x =? HEAD_ID self)
                             then 0 else 1) (ex_input_ids ex),
               count_valid (ex_input_ids ex))).
    apply (elem_of_zip_map
             (map (fun x => if (x =? PKT_ID self) || (x =? HEAD_ID self)
                            then 0 else 1)) count_valid).
    rewrite map_fmap. apply list_elem_of_fmap. exists ex. auto.
  - intros [attn real_len] g0 y g1 Hy. unfold spans_noise_mask in Hy.
    apply bind_Ok in Hy as (m & g2 & _ & Hy). apply lift_Ok in Hy as [Hy _].
    rewrite pad_right in Hy. cbn [snd].
    destruct (Z.ltb_spec (optimal_len self - real_len) 0); [discriminate|lia].
Qed.

Lemma call_requires_witness :
  [four_label_example] <> []
  /\ Forall (fun ex => count_valid (ex_input_ids ex) <= 6) [four_label_example].
Proof.
  assert (E : __call__ (collator (3 # 20) 3 5 6) [four_label_example] []
              = Ok (example_batch (ex_nml_labels four_label_example), []))
    by (vm_compute; reflexivity).
  exact (call_requires _ _ _ _ _ E).
Defined.

Lemma filter_row_entries self set_length is_label input_ids sentinel_ids row :
  filter_row self set_length is_label input_ids sentinel_ids = Ok row ->
  0 <= EOS_ID self ->
  Forall (fun x => 0 <= x \/ x = (if is_label then -100 else PAD_ID self)) row.
Proof.
  unfold filter_row. intros H Heos.
  apply rbind_Ok in H as (full & _ & H).
  apply rbind_Ok in H as (with_eos & Hw & H).
  rewrite pad_right in Hw, H. change (1 <? 0) with false in Hw.
  inversion Hw; subst with_eos; clear Hw.
  destruct (_ <? 0); [discriminate|]. inversion H; subst row; clear H.
  rewrite !Forall_app. split; [split|].
  - assert (Hk : Forall (fun x => 0 <= x) (filter (fun x => 0 <= x) full)).
    { apply Forall_forall. intros x Hx. apply list_elem_of_filter in Hx. tauto. }
    unfold shrink_row. destruct is_label.
    + unfold drop_last. apply Forall_take.
      eapply Forall_impl; [exact Hk|]. auto.
    + eapply Forall_impl; [exact Hk|]. auto.
  - cbn [Z.to_nat Pos.to_nat replicate]. repeat constructor. assumption.
  - apply Forall_forall. intros x Hx. apply elem_of_replicate in Hx. tauto.
Qed.

(** X9: With non-negative ids for the end marker and the padding, no negative
    number reaches the model: every entry of the returned [input_ids] is
    at least 0, and every entry of the returned [labels] is at least 0 or
    the ignore value -100. *)
Theorem batch_entries (self : DataCollatorForPretrain)
    (examples : list Example) (g : rng) (batch : Batch) (g' : rng) :
  0 <= EOS_ID self ->
  0 <= PAD_ID self ->
  __call__ self examples g = Ok (batch, g') ->
  Forall (Forall (fun x => 0 <= x)) (input_ids batch)
  /\ Forall (Forall (fun x => 0 <= x \/ x = -100)) (labels batch).
Proof.
  intros Heos Hpad H.
  apply call_inv_steps in H as (masks & isent & lsent & _ & _ & _ & Hin & Hlab).
  unfold filter_input_ids in *. split.
  - eapply rmapM2_Forall; [|exact Hin]. intros x y z Hz.
    apply filter_row_entries in Hz; [|assumption].
    eapply Forall_impl; [exact Hz|]. cbn. intros v [Hv| ->]; assumption.
  - eapply rmapM2_Forall; [|exact Hlab]. intros x y z Hz.
    apply filter_row_entries in Hz; [|assumption]. exact Hz.
Qed.

Lemma batch_entries_witness :
  Forall (Forall (fun x => 0 <= x))
         (input_ids (example_batch (ex_nml_labels four_label_example)))
  /\ Forall (Forall (fun x => 0 <= x \/ x = -100))
            (labels (example_batch (ex_nml_labels four_label_example))).
Proof.
  assert (E : __call__ (collator (3 # 20) 3 5 6) [four_label_example] []
              = Ok (example_batch (ex_nml_labels four_label_example), []))
    by (vm_compute; reflexivity).
  apply (batch_entries (collator (3 # 20) 3 5 6) [four_label_example] [] _ []);
    [simpl; lia|simpl; lia|exact E].
Defined.

(** ** The flow preprocessor: packets in, packets out *)

Lemma split_packets_run (pkt_id : Z) (p : list Z) : forall cur l,
  pkt_id ∉ p ->
  pt.split_packets pkt_id cur (p ++ l) = pt.split_packets pkt_id (cur ++ p) l.
Proof.
  induction p as [|x p IH]; intros cur l Hp.
  - rewrite app_nil_r. reflexivity.
  - apply not_elem_of_cons in Hp as [Hx Hp]. cbn [app pt.split_packets].
    destruct (Z.eqb_spec x pkt_id); [congruence|].
    rewrite IH by exact Hp. rewrite <- app_assoc. reflexivity.
Qed.

Lemma split_packets_serialize (c : pt.config) (packets : list (list Z)) :
  forall rest,
  Forall (is_packet c) packets ->
  pt.split_packets (pt.PKT_ID c) [] (serialize c packets ++ rest)
  = packets ++ pt.split_packets (pt.PKT_ID c) [] rest.
Proof.
  unfold serialize.
  induction packets as [|p packets IH]; intros rest Hall; [reflexivity|].
  inversion Hall as [|? ? [Hne Hp] Hrest]; subst.
  cbn [map concat]. rewrite <- !app_assoc.
  rewrite split_packets_run by exact Hp. cbn [app pt.split_packets].
  rewrite Z.eqb_refl. destruct p as [|x p]; [done|].
  cbn [app]. f_equal. apply IH. exact Hrest.
Qed.

Lemma split_packets_inv (pkt_id : Z) (l : list Z) : forall cur,
  pkt_id ∉ cur ->
  Forall (fun p => p <> [] /\ (pkt_id ∉ p)) (pt.split_packets pkt_id cur l).
Proof.
  induction l as [|x l IH]; intros cur Hcur; cbn [pt.split_packets].
  - destruct cur; repeat constructor; [discriminate|assumption].
  - destruct (Z.eqb_spec x pkt_id) as [->|Hx].
    + destruct cur as [|y cur].
      * apply IH. apply not_elem_of_nil.
      * constructor; [split; [discriminate|assumption]|].
        apply IH. apply not_elem_of_nil.
    + apply IH. rewrite elem_of_app, list_elem_of_singleton. intros [?|?]; auto.
Qed.

Lemma Forall_drop_last {A} (P : A -> Prop) (l : list A) :
  Forall P l -> Forall P (drop_last l).
Proof. intros H. unfold drop_last. apply Forall_take. exact H. Qed.

(** X10: Whatever the input, the packets [tokenize_pt_func] works on are
    non-empty and free of [<pkt>]; an input without any token other than
    [<pkt>] (the empty one included) has no last group, and
    [packets[-1]] raises [IndexError]. *)
Theorem flow_packets_groups (c : pt.config) (input_text : list Z) :
  (forall packets, pt.flow_packets c input_text = Ok packets ->
     Forall (is_packet c) packets)
  /\ (Forall (fun x => x = pt.PKT_ID c) input_text ->
      pt.flow_packets c input_text = Raise IndexError).
Proof.
  split.
  - intros packets H. unfold pt.flow_packets in H.
    pose proof (split_packets_inv (pt.PKT_ID c) input_text []
                  (not_elem_of_nil _)) as Hinv.
    destruct (last _); [|discriminate].
    destruct (_ && _); inversion H; subst; clear H.
    + apply Forall_drop_last. exact Hinv.
    + exact Hinv.
  - intros Hall. unfold pt.flow_packets.
    assert (E : pt.split_packets (pt.PKT_ID c) [] input_text = []).
    { induction Hall as [|x l -> _ IH]; [reflexivity|].
      cbn [pt.split_packets]. rewrite Z.eqb_refl. exact IH. }
    rewrite E. reflexivity.
Qed.

(** X11: Round trip on a flow as the tokenizer writes it, every packet closed
    by [<pkt>] and the end marker last: the packets are recovered, and a
    flow that is not selected for POP and not over-long comes out as its
    packets, each closed by [<pkt>], without the end marker; its
    [pop_order] row stays at -100 and no randomness is drawn. *)
Theorem process_flow_round_trip (c : pt.config) (packets : list (list Z))
    (g : rng) :
  Forall (is_packet c) packets ->
  pt.EOS_ID c <> pt.PKT_ID c ->
  0 <= pt.pkt_per_flow c ->
  Z.of_nat (length (serialize c packets ++ [pt.EOS_ID c])) <= pt.optim_len c ->
  pt.flow_packets c (serialize c packets ++ [pt.EOS_ID c]) = Ok packets
  /\ pt.process_flow c false (serialize c packets ++ [pt.EOS_ID c]) g
     = Ok (serialize c packets,
           replicate (Z.to_nat (pt.pkt_per_flow c)) (-100), g).
Proof.
  intros Hall Heos Hw Hlen.
  assert (Hp : pt.flow_packets c (serialize c packets ++ [pt.EOS_ID c])
               = Ok packets).
  { unfold pt.flow_packets. rewrite split_packets_serialize by exact Hall.
    cbn [pt.split_packets]. destruct (Z.eqb_spec (pt.EOS_ID c) (pt.PKT_ID c));
      [contradiction|].
    cbn [app pt.split_packets]. rewrite last_snoc.
    cbn [head default length]. rewrite Z.eqb_refl. cbn [andb Nat.eqb].
    unfold drop_last. rewrite length_app. cbn [length].
    rewrite Nat.add_sub, take_app_length. reflexivity. }
  split; [exact Hp|]. unfold pt.process_flow.
  unfold bind at 1, lift at 1, full_row.
  destruct (Z.ltb_spec (pt.pkt_per_flow c) 0); [lia|].
  unfold bind at 1. rewrite Hp. cbn [lift].
  destruct (Z.ltb_spec (pt.optim_len c)
              (Z.of_nat (length (serialize c packets ++ [pt.EOS_ID c]))));
    [lia|].
  unfold bind at 1, ret at 1. unfold bind at 1, ret at 1.
  fold (serialize c packets).
  destruct (Z.leb_spec (Z.of_nat (length (serialize c packets)))
                       (pt.optim_len c - 1)) as [_|Hbad]; [reflexivity|].
  rewrite length_app in Hlen. cbn [length] in Hlen. lia.
Qed.

Lemma process_flow_round_trip_witness :
  pt.flow_packets (flow_config 8 4 5) [10; 3; 11; 4; 20; 3; 4; 1]
  = Ok [[10; 3; 11]; [20; 3]]
  /\ pt.process_flow (flow_config 8 4 5) false [10; 3; 11; 4; 20; 3; 4; 1] []
     = Ok ([10; 3; 11; 4; 20; 3; 4], replicate 4 (-100), []).
Proof.
  apply (process_flow_round_trip (flow_config 8 4 5) [[10; 3; 11]; [20; 3]] []).
  - repeat constructor; try discriminate;
      intros H; repeat (apply elem_of_cons in H as [H|H]; [discriminate|]);
      apply elem_of_nil in H; exact H.
  - discriminate.
  - simpl. lia.
  - simpl. lia.
Defined.

Lemma flow_packets_groups_witness :
  pt.flow_packets (flow_config 8 4 5) [4; 4] = Raise IndexError.
Proof.
  apply (flow_packets_groups (flow_config 8 4 5) [4; 4]).
  repeat constructor.
Defined.

(** ** Packet order prediction: the swap *)

Lemma insert_Permutation {A} (l : list A) : forall (i : nat) (x y : A),
  l !! i = Some y -> Permutation (y :: <[i := x]> l) (x :: l).
Proof.
  induction l as [|a l IH]; intros i x y Hi; [done|].
  destruct i as [|i]; simpl in Hi.
  - inversion Hi; subst. simpl. apply perm_swap.
  - simpl. rewrite (perm_swap a y), (IH _ x _ Hi). apply perm_swap.
Qed.

Lemma swap_at_Permutation {A} (l : list A) : forall (s t : nat),
  Permutation (swap_at s t l) l.
Proof.
  unfold swap_at. induction l as [|a l IH]; intros s t; [by destruct s|].
  destruct (_ !! s) as [x|] eqn:Hs; [|reflexivity].
  destruct (_ !! t) as [y|] eqn:Ht; [|reflexivity].
  destruct s as [|s], t as [|t]; simpl in Hs, Ht; simpl.
  - inversion Hs; subst. reflexivity.
  - inversion Hs; subst. apply insert_Permutation. exact Ht.
  - inversion Ht; subst. rewrite (insert_Permutation _ _ _ _ Hs). reflexivity.
  - apply perm_skip. specialize (IH s t). rewrite Hs, Ht in IH. exact IH.
Qed.

Lemma length_swap_at {A} (s t : nat) (l : list A) :
  length (swap_at s t l) = length l.
Proof.
  unfold swap_at. destruct (l !! s), (l !! t); try reflexivity.
  rewrite !length_insert. reflexivity.
Qed.

Lemma swap_at_fmap {A B} (f : A -> B) (s t : nat) (l : list A) :
  f <$> swap_at s t l = swap_at s t (f <$> l).
Proof.
  unfold swap_at. rewrite !list_lookup_fmap.
  destruct (l !! s), (l !! t); try reflexivity.
  cbn [fmap option_fmap option_map]. rewrite !list_fmap_insert. reflexivity.
Qed.

Lemma reorder_map (packets : list (list Z)) (order : list Z) :
  Forall (fun o => 0 <= o < Z.of_nat (length packets)) order ->
  pt.reorder packets order
  = Ok ((fun o => default [] (packets !! Z.to_nat o)) <$> order).
Proof.
  unfold pt.reorder. induction 1 as [|o order Ho _ IH]; [reflexivity|].
  cbn [rmapM]. rewrite index_Z by exact Ho. cbn [rbind]. rewrite IH.
  reflexivity.
Qed.

Lemma arange_packets (packets : list (list Z)) :
  (fun o => default [] (packets !! Z.to_nat o))
    <$> np.arange (Z.of_nat (length packets)) = packets.
Proof.
  apply list_eq. intros i. rewrite list_lookup_fmap.
  destruct (Nat.lt_ge_cases i (length packets)) as [Hlt|Hge].
  - rewrite arange_lookup by lia. cbn. rewrite Nat2Z.id.
    destruct (lookup_lt_is_Some_2 packets i Hlt) as [p ->]. reflexivity.
  - rewrite (lookup_ge_None_2 packets) by exact Hge.
    rewrite lookup_ge_None_2; [reflexivity|]. rewrite length_arange. lia.
Qed.

Lemma arange_range (n : nat) :
  Forall (fun o => 0 <= o < Z.of_nat n) (np.arange (Z.of_nat n)).
Proof.
  unfold np.arange. rewrite Nat2Z.id. apply Forall_forall.
  intros o Ho. rewrite map_fmap in Ho.
  apply list_elem_of_fmap in Ho as (i & -> & Hi).
  apply elem_of_seq in Hi. lia.
Qed.

Lemma swap_into_swap_at (n s t : nat) :
  (s < n)%nat -> (t < n)%nat ->
  pt.swap_into (np.arange (Z.of_nat n)) (np.arange (Z.of_nat n))
               (Z.of_nat s) (Z.of_nat t)
  = Ok (swap_at s t (np.arange (Z.of_nat n))).
Proof.
  intros Hs Ht. rewrite swap_into_arange by assumption.
  unfold swap_at. rewrite !arange_lookup by (rewrite Nat2Z.id; assumption).
  reflexivity.
Qed.

(** The POP block in full: the order array is [arange] with at most one
    swap, the packets are rearranged by it and the row of [pop_order]
    takes it as int8. *)
Lemma pop_permute_spec (c : pt.config) (packets : list (list Z))
    (width : nat) (g : rng) :
  0 <= pt.pop_switch_gap c ->
  (length packets <= width)%nat ->
  exists (s t : nat) g',
    pt.pop_permute c (Z.of_nat (length packets)) packets
                   (replicate width (-100)) g
    = Ok ((swap_at s t packets,
           map wrap8 (swap_at s t (np.arange (Z.of_nat (length packets))))
           ++ replicate (width - length packets) (-100)), g')
    /\ (if Z.of_nat (length packets) <=? pt.pop_switch_gap c
        then s = t /\ g' = g
        else t = (s + Z.to_nat (pt.pop_switch_gap c))%nat
             /\ (t < length packets)%nat).
Proof.
  intros Hgap Hw. unfold pt.pop_permute.
  set (n := length packets) in *. set (gap := Z.to_nat (pt.pop_switch_gap c)).
  assert (Hfin : forall (s t : nat) g1,
    (bind (lift (assign_prefix (replicate width (-100))
                   (swap_at s t (np.arange (Z.of_nat n)))))
       (fun pop_row =>
          bind (lift (pt.reorder packets
                        (swap_at s t (np.arange (Z.of_nat n)))))
            (fun packets0 => ret (packets0, pop_row)))) g1
    = Ok ((swap_at s t packets,
           map wrap8 (swap_at s t (np.arange (Z.of_nat n)))
           ++ replicate (width - n) (-100)), g1)).
  { intros s t g1. unfold bind at 1.
    rewrite assign_prefix_fits
      by (rewrite length_swap_at, length_arange; lia).
    cbn [lift]. unfold bind at 1. rewrite reorder_map.
    - cbn [lift]. unfold ret. rewrite swap_at_fmap, arange_packets.
      rewrite length_swap_at, length_arange, Nat2Z.id. reflexivity.
    - eapply Permutation_Forall; [symmetry; apply swap_at_Permutation|].
      apply arange_range. }
  destruct (Z.leb_spec (Z.of_nat n) (pt.pop_switch_gap c)).
  - exists 0%nat, 0%nat, g. split; [|auto].
    unfold bind at 1, ret at 1.
    assert (E : forall A (l : list A), swap_at 0 0 l = l).
    { intros A [|a l]; reflexivity. }
    pose proof (Hfin 0%nat 0%nat g) as H0. rewrite !E in H0 |- *. exact H0.
  - unfold bind at 1. unfold bind at 1. unfold randint.
    destruct (Z.leb_spec (Z.of_nat n - pt.pop_switch_gap c) 0); [lia|].
    destruct (draw (Z.to_nat (Z.of_nat n - pt.pop_switch_gap c)) g)
      as [s g1] eqn:Hd.
    assert (Hs : (s < n - gap)%nat).
    { unfold draw in Hd. destruct g as [|x g]; inversion Hd; subst.
      - unfold gap. lia.
      - replace (Z.to_nat (Z.of_nat n - pt.pop_switch_gap c))
          with (n - gap)%nat by (unfold gap; lia).
        apply Nat.mod_upper_bound. unfold gap. lia. }
    replace (Z.of_nat s + pt.pop_switch_gap c) with (Z.of_nat (s + gap))
      by (unfold gap; lia).
    rewrite swap_into_swap_at by lia. unfold lift at 1.
    exists s, (s + gap)%nat, g1. split; [apply Hfin|]. split; [reflexivity|lia].
Qed.

Lemma serialize_Permutation (c : pt.config) (l1 l2 : list (list Z)) :
  Permutation l1 l2 -> Permutation (serialize c l1) (serialize c l2).
Proof.
  unfold serialize. induction 1 as [|p l1 l2 _ IH|p q l|l1 l2 l3 _ IH1 _ IH2];
    cbn [map concat].
  - reflexivity.
  - apply Permutation_app_head. exact IH.
  - apply Permutation_app_swap_app.
  - etransitivity; eassumption.
Qed.

(** X12: A flow selected for POP that is not over-long and has more packets
    than [pop_switch_gap] (and at most [pkt_per_flow]) comes out with
    exactly two packets exchanged, those at a drawn position [s] and at
    [s + pop_switch_gap]; all other packets stay in place, and the
    [pop_order] row is the identity order with the same two entries
    exchanged (as int8), then -100. *)
Theorem pop_swap_flow (c : pt.config) (input_text : list Z)
    (packets : list (list Z)) (g : rng) :
  pt.flow_packets c input_text = Ok packets ->
  Z.of_nat (length input_text) <= pt.optim_len c ->
  0 <= pt.pop_switch_gap c < Z.of_nat (length packets) ->
  Z.of_nat (length packets) <= pt.pkt_per_flow c ->
  Z.of_nat (length (serialize c packets)) <= pt.optim_len c - 1 ->
  exists (s : nat) (g' : rng),
    let t := (s + Z.to_nat (pt.pop_switch_gap c))%nat in
    (t < length packets)%nat
    /\ pt.process_flow c true input_text g
       = Ok (serialize c (swap_at s t packets),
             map wrap8 (swap_at s t (np.arange (Z.of_nat (length packets))))
             ++ replicate (Z.to_nat (pt.pkt_per_flow c) - length packets)
                          (-100),
             g').
Proof.
  intros Hp Hlen Hgap Hfit Hassert.
  destruct (pop_permute_spec c packets (Z.to_nat (pt.pkt_per_flow c)) g)
    as (s & t & g' & E & Hst); [lia|lia|].
  destruct (Z.leb_spec (Z.of_nat (length packets)) (pt.pop_switch_gap c));
    [lia|].
  destruct Hst as [-> Ht]. exists s, g'. cbv zeta. split; [exact Ht|].
  unfold pt.process_flow.
  unfold bind at 1, lift at 1, full_row.
  destruct (Z.ltb_spec (pt.pkt_per_flow c) 0); [lia|].
  unfold bind at 1. rewrite Hp. cbn [lift].
  destruct (Z.ltb_spec (pt.optim_len c) (Z.of_nat (length input_text)));
    [lia|].
  unfold bind at 1, ret at 1. unfold bind at 1. rewrite E.
  fold (serialize c (swap_at s (s + Z.to_nat (pt.pop_switch_gap c)) packets)).
  assert (Hsame : length (serialize c (swap_at s (s + Z.to_nat (pt.pop_switch_gap c)) packets))
                  = length (serialize c packets)).
  { apply Permutation_length, serialize_Permutation, swap_at_Permutation. }
  rewrite Hsame.
  destruct (Z.leb_spec (Z.of_nat (length (serialize c packets)))
                       (pt.optim_len c - 1)); [reflexivity|lia].
Qed.

Lemma pop_swap_flow_witness :
  exists (s : nat) (g' : rng),
    pt.process_flow (flow_config 20 4 1) true
      [10; 3; 11; 12; 4; 20; 3; 21; 4; 30; 3; 4; 1] [7%nat]
    = Ok (serialize (flow_config 20 4 1)
            (swap_at s (s + 1) [[10; 3; 11; 12]; [20; 3; 21]; [30; 3]]),
          map wrap8 (swap_at s (s + 1) [0; 1; 2]) ++ replicate 1 (-100),
          g').
Proof.
  destruct (pop_swap_flow (flow_config 20 4 1)
              [10; 3; 11; 12; 4; 20; 3; 21; 4; 30; 3; 4; 1]
              [[10; 3; 11; 12]; [20; 3; 21]; [30; 3]] [7%nat])
    as (s & g' & _ & E);
    [reflexivity | simpl; lia | simpl; lia | simpl; lia | simpl; lia |].
  exists s, g'. exact E.
Defined.

(** ** What a returned flow is made of *)

Lemma assign_prefix_length (dst src r : list Z) :
  assign_prefix dst src = Ok r -> length r = length dst.
Proof.
  unfold assign_prefix. intros H.
  destruct (Nat.eqb_spec (length src) (Nat.min (length src) (length dst))).
  - inversion H; subst. rewrite length_app, length_map, length_drop. lia.
  - destruct (length src =? 1)%nat; [|discriminate].
    inversion H; subst. rewrite length_app, length_replicate, length_drop. lia.
Qed.

Lemma pop_permute_inv (c : pt.config) (packets : list (list Z))
    (pop_row : list Z) (g : rng) reordered row g' :
  0 <= pt.pop_switch_gap c ->
  pt.pop_permute c (Z.of_nat (length packets)) packets pop_row g
  = Ok ((reordered, row), g') ->
  Permutation reordered packets /\ length row = length pop_row.
Proof.
  intros Hgap H. unfold pt.pop_permute in H.
  set (n := length packets) in *. set (gap := Z.to_nat (pt.pop_switch_gap c)).
  apply bind_Ok in H as (order & g1 & Ho & H).
  assert (Hord : exists s t, order = swap_at s t (np.arange (Z.of_nat n))).
  { destruct (Z.leb_spec (Z.of_nat n) (pt.pop_switch_gap c)).
    - exists 0%nat, 0%nat. inversion Ho; subst.
      destruct (np.arange _); reflexivity.
    - apply bind_Ok in Ho as (first_cand & g2 & Hr & Ho).
      apply lift_Ok in Ho as [Ho _]. unfold randint in Hr.
      destruct (Z.leb_spec (Z.of_nat n - pt.pop_switch_gap c) 0); [lia|].
      destruct (draw (Z.to_nat (Z.of_nat n - pt.pop_switch_gap c)) g)
        as [s g3] eqn:Hd.
      assert (Hs : (s < n - gap)%nat).
      { unfold draw in Hd. destruct g as [|x g]; inversion Hd; subst.
        - unfold gap. lia.
        - replace (Z.to_nat (Z.of_nat n - pt.pop_switch_gap c))
            with (n - gap)%nat by (unfold gap; lia).
          apply Nat.mod_upper_bound. unfold gap. lia. }
      inversion Hr; subst first_cand g2; clear Hr.
      replace (Z.of_nat s + pt.pop_switch_gap c) with (Z.of_nat (s + gap))
        in Ho by (unfold gap; lia).
      rewrite swap_into_swap_at in Ho by lia. inversion Ho. eauto. }
  destruct Hord as (s & t & ->).
  apply bind_Ok in H as (row' & g2 & Hrow & H).
  apply lift_Ok in Hrow as [Hrow _]. apply assign_prefix_length in Hrow.
  apply bind_Ok in H as (re & g3 & Hre & H).
  apply lift_Ok in Hre as [Hre _]. rewrite reorder_map in Hre.
  - inversion Hre; subst re; clear Hre. inversion H; subst; clear H.
    split; [|exact Hrow].
    rewrite swap_at_fmap, arange_packets. apply swap_at_Permutation.
  - eapply Permutation_Forall; [symmetry; apply swap_at_Permutation|].
    apply arange_range.
Qed.

Lemma rmapM_Forall2 {A B} (f : A -> result B) (l : list A) : forall r,
  rmapM f l = Ok r -> Forall2 (fun x y => f x = Ok y) l r.
Proof.
  induction l as [|x l IH]; intros r H; simpl in H.
  - inversion H. constructor.
  - apply rbind_Ok in H as (y & Hy & H). apply rbind_Ok in H as (ys & Hys & H).
    inversion H; subst. constructor; [exact Hy|apply IH; exact Hys].
Qed.

Lemma rmapM2_Forall2 {A B C} (f : A -> B -> result C) (l : list A) :
  forall k r,
  rmapM2 f l k = Ok r -> Forall2 (fun x z => exists y, f x y = Ok z) l r.
Proof.
  induction l as [|x l IH]; intros [|y k] r H; simpl in H; try discriminate.
  - inversion H. constructor.
  - apply rbind_Ok in H as (z & Hz & H). apply rbind_Ok in H as (zs & Hzs & H).
    inversion H; subst. constructor; [eauto|eapply IH; exact Hzs].
Qed.

Lemma Forall2_compose {A B C} (R1 : A -> B -> Prop) (R2 : B -> C -> Prop)
    (l1 : list A) : forall (l2 : list B) (l3 : list C),
  Forall2 R1 l1 l2 -> Forall2 R2 l2 l3 ->
  Forall2 (fun x z => exists y, R1 x y /\ R2 y z) l1 l3.
Proof.
  induction l1 as [|x l1 IH]; intros l2 l3 H1 H2.
  - inversion H1; subst. inversion H2; subst. constructor.
  - inversion H1; subst. inversion H2; subst.
    constructor; [eauto|eapply IH; eassumption].
Qed.

(** Whatever the truncation branch returns is the packets cut at their
    ends, one for one. *)
Lemma truncate_inv (c : pt.config) (current_len : Z)
    (packets cut : list (list Z)) :
  pt.truncate c current_len packets = Ok cut ->
  Forall2 (truncated c) packets cut.
Proof.
  unfold pt.truncate. intros H.
  apply rbind_Ok in H as (hp & Hhp & H).
  apply rbind_Ok in H as (hp' & Hcut & H). inversion H; subst cut; clear H.
  apply rmapM_Forall2 in Hhp.
  assert (Hrel : Forall2 (fun q q' : pt.hd_pd =>
                            pt.header q' `prefix_of` pt.header q
                            /\ pt.raw q' `prefix_of` pt.raw q) hp hp').
  { destruct (_ <=? _).
    - apply rbind_Ok in Hcut as (ratio & _ & Hcut).
      apply rmapM2_Forall2 in Hcut.
      eapply Forall2_impl; [exact Hcut|]. intros q q' (r & Hq).
      apply rbind_Ok in Hq as (raw' & Hraw & Hq). inversion Hq; subst q'.
      cbn [pt.header pt.raw]. split; [reflexivity|].
      eapply cut_end_prefix; exact Hraw.
    - apply rbind_Ok in Hcut as (ratio & _ & Hcut).
      apply rmapM2_Forall2 in Hcut.
      eapply Forall2_impl; [exact Hcut|]. intros q q' (r & Hq).
      apply rbind_Ok in Hq as (header' & Hheader & Hq). inversion Hq; subst q'.
      cbn [pt.header pt.raw]. split; [|apply prefix_nil].
      eapply cut_end_prefix; exact Hheader. }
  rewrite map_fmap. apply Forall2_fmap_r.
  eapply Forall2_impl; [exact (Forall2_compose _ _ _ _ _ Hhp Hrel)|].
  intros pkt q' (q & Hq & Hh & Hr). cbn beta.
  apply split_header_inv in Hq as [-> Hnot].
  exists (pt.header q), (pt.raw q), (pt.header q'), (pt.raw q'). auto.
Qed.

(** What a returned flow went through. *)
Lemma process_flow_inv (c : pt.config) (in_pop_index : bool)
    (input_text : list Z) (g : rng) (tokens pop_row : list Z) (g' : rng) :
  0 <= pt.pop_switch_gap c ->
  pt.process_flow c in_pop_index input_text g = Ok (tokens, pop_row, g') ->
  exists packets cut reordered,
    pt.flow_packets c input_text = Ok packets
    /\ (if pt.optim_len c <? Z.of_nat (length input_text)
        then pt.truncate c (Z.of_nat (length input_text)) packets = Ok cut
        else cut = packets)
    /\ Permutation reordered cut
    /\ (in_pop_index = false -> reordered = cut)
    /\ tokens = serialize c reordered
    /\ Z.of_nat (length tokens) <= pt.optim_len c - 1
    /\ Z.of_nat (length pop_row) = pt.pkt_per_flow c.
Proof.
  intros Hgap H. unfold pt.process_flow in H.
  apply bind_Ok in H as (row0 & g0 & Hrow0 & H).
  apply lift_Ok in Hrow0 as [Hrow0 ->]. unfold full_row in Hrow0.
  destruct (Z.ltb_spec (pt.pkt_per_flow c) 0); [discriminate|].
  inversion Hrow0; subst row0; clear Hrow0.
  apply bind_Ok in H as (packets & g1 & Hp & H).
  apply lift_Ok in Hp as [Hp ->].
  apply bind_Ok in H as (cut & g2 & Ht & H).
  assert (Hcut : (if pt.optim_len c <? Z.of_nat (length input_text)
                  then pt.truncate c (Z.of_nat (length input_text)) packets
                       = Ok cut
                  else cut = packets) /\ g2 = g).
  { destruct (_ <? _).
    - apply lift_Ok in Ht as [Ht ->]. auto.
    - inversion Ht; auto. }
  destruct Hcut as [Hcut ->]. clear Ht.
  assert (Hsame : length cut = length packets).
  { destruct (_ <? _); [|subst; reflexivity].
    apply truncate_inv, Forall2_length in Hcut. auto. }
  apply bind_Ok in H as ([reordered row] & g3 & Hre & H).
  fold (serialize c reordered) in H.
  destruct (Z.leb_spec (Z.of_nat (length (serialize c reordered)))
                       (pt.optim_len c - 1)) as [Hfit|]; [|discriminate].
  inversion H; subst; clear H.
  exists packets, cut, reordered. split; [exact Hp|]. split; [exact Hcut|].
  destruct in_pop_index.
  - rewrite <- Hsame in Hre.
    apply pop_permute_inv in Hre as [Hperm Hlen]; [|exact Hgap].
    split; [exact Hperm|]. split; [discriminate|]. split; [reflexivity|].
    split; [exact Hfit|]. rewrite Hlen, length_replicate. lia.
  - inversion Hre; subst. split; [reflexivity|]. split; [reflexivity|].
    split; [reflexivity|]. split; [exact Hfit|]. rewrite length_replicate. lia.
Qed.

(** X13: Tokens are neither lost nor invented: whenever a flow that is not
    over-long comes out of the loop body of [tokenize_pt_func], its token
    list consists of the packets found in the input, each closed by one
    [<pkt>], in the original order or (for a flow selected for POP) a
    rearrangement of it; it has at most [optim_len - 1] tokens and its
    [pop_order] row has [pkt_per_flow] entries. *)
Theorem process_flow_returns (c : pt.config) (in_pop_index : bool)
    (input_text : list Z) (g : rng) (tokens pop_row : list Z) (g' : rng) :
  0 <= pt.pop_switch_gap c ->
  Z.of_nat (length input_text) <= pt.optim_len c ->
  pt.process_flow c in_pop_index input_text g = Ok (tokens, pop_row, g') ->
  exists packets reordered,
    pt.flow_packets c input_text = Ok packets
    /\ Permutation reordered packets
    /\ (in_pop_index = false -> reordered = packets)
    /\ tokens = serialize c reordered
    /\ Z.of_nat (length tokens) <= pt.optim_len c - 1
    /\ Z.of_nat (length pop_row) = pt.pkt_per_flow c.
Proof.
  intros Hgap Hlen H.
  apply process_flow_inv in H
    as (packets & cut & reordered & Hp & Hcut & Hrest); [|exact Hgap].
  destruct (Z.ltb_spec (pt.optim_len c) (Z.of_nat (length input_text)));
    [lia|].
  subst cut. exists packets, reordered. auto.
Qed.

Lemma process_flow_returns_witness :
  exists packets reordered,
    pt.flow_packets (flow_config 20 4 1)
      [10; 3; 11; 12; 4; 20; 3; 21; 4; 1] = Ok packets
    /\ Permutation reordered packets
    /\ [20; 3; 21; 4; 10; 3; 11; 12; 4]
       = serialize (flow_config 20 4 1) reordered.
Proof.
  destruct (process_flow_returns (flow_config 20 4 1) true
              [10; 3; 11; 12; 4; 20; 3; 21; 4; 1] []
              [20; 3; 21; 4; 10; 3; 11; 12; 4] [1; 0; -100; -100] [])
    as (packets & reordered & Hp & Hperm & _ & Htok & _);
    [simpl; lia | simpl; lia | vm_compute; reflexivity |].
  exists packets, reordered. auto.
Defined.




(** X14: The [pop_order] row has room for [pkt_per_flow] packets only: a flow
    of two or more packets, more than [pkt_per_flow], that is selected for
    POP raises [ValueError] when its order is written into the row, while
    the same flow passes when it is not selected. *)
Theorem too_many_packets (c : pt.config) (input_text : list Z)
    (packets : list (list Z)) (g : rng) :
  pt.flow_packets c input_text = Ok packets ->
  Z.of_nat (length input_text) <= pt.optim_len c ->
  0 <= pt.pop_switch_gap c ->
  0 <= pt.pkt_per_flow c < Z.of_nat (length packets) ->
  (2 <= length packets)%nat ->
  Z.of_nat (length (serialize c packets)) <= pt.optim_len c - 1 ->
  pt.process_flow c true input_text g = Raise ValueError
  /\ pt.process_flow c false input_text g
     = Ok (serialize c packets,
           replicate (Z.to_nat (pt.pkt_per_flow c)) (-100), g).
Proof.
  intros Hp Hlen Hgap Hw H2 Hassert.
  assert (Hhead : forall sel,
    pt.process_flow c sel input_text g
    = (reordered <-
         (if sel
          then pt.pop_permute c (Z.of_nat (length packets)) packets
                 (replicate (Z.to_nat (pt.pkt_per_flow c)) (-100))
          else ret (packets,
                    replicate (Z.to_nat (pt.pkt_per_flow c)) (-100))) ;;
       let '(packets, pop_row) := reordered in
       let tokens := concat (map (fun pkt => pkt ++ [pt.PKT_ID c]) packets) in
       if Z.of_nat (length tokens) <=? pt.optim_len c - 1
       then ret (tokens, pop_row)
       else raise AssertionError) g).
  { intros sel. unfold pt.process_flow.
    unfold bind at 1, lift at 1, full_row.
    destruct (Z.ltb_spec (pt.pkt_per_flow c) 0); [lia|].
    unfold bind at 1. rewrite Hp. cbn [lift].
    destruct (Z.ltb_spec (pt.optim_len c) (Z.of_nat (length input_text)));
      [lia|].
    unfold bind at 1, ret at 1. reflexivity. }
  rewrite !Hhead. clear Hhead.
  split.
  - unfold bind at 1. unfold pt.pop_permute.
    set (n := length packets) in *.
    set (gap := Z.to_nat (pt.pop_switch_gap c)).
    assert (Hbad : forall order,
               length order = n ->
               assign_prefix (replicate (Z.to_nat (pt.pkt_per_flow c)) (-100))
                             order = Raise ValueError).
    { intros order Ho. unfold assign_prefix. rewrite length_replicate, Ho.
      destruct (Nat.eqb_spec n (Nat.min n (Z.to_nat (pt.pkt_per_flow c))));
        [lia|].
      destruct (Nat.eqb_spec n 1); [lia|reflexivity]. }
    destruct (Z.leb_spec (Z.of_nat n) (pt.pop_switch_gap c)).
    + unfold bind at 1, ret at 1. unfold bind at 1.
      rewrite Hbad by (rewrite length_arange; lia). reflexivity.
    + unfold bind at 1. unfold bind at 1. unfold randint.
      destruct (Z.leb_spec (Z.of_nat n - pt.pop_switch_gap c) 0); [lia|].
      destruct (draw (Z.to_nat (Z.of_nat n - pt.pop_switch_gap c)) g)
        as [s g1] eqn:Hd.
      assert (Hs : (s < n - gap)%nat).
      { unfold draw in Hd. destruct g as [|x g]; inversion Hd; subst.
        - unfold gap. lia.
        - replace (Z.to_nat (Z.of_nat n - pt.pop_switch_gap c))
            with (n - gap)%nat by (unfold gap; lia).
          apply Nat.mod_upper_bound. unfold gap. lia. }
      replace (Z.of_nat s + pt.pop_switch_gap c) with (Z.of_nat (s + gap))
        by (unfold gap; lia).
      rewrite swap_into_swap_at by lia. unfold lift at 1.
      unfold bind at 1.
      rewrite Hbad by (rewrite length_swap_at, length_arange; lia).
      reflexivity.
  - unfold bind at 1, ret at 1. fold (serialize c packets).
    destruct (Z.leb_spec (Z.of_nat (length (serialize c packets)))
                         (pt.optim_len c - 1)); [reflexivity|lia].
Qed.

Lemma too_many_packets_witness :
  pt.process_flow (flow_config 20 2 5) true
    [10; 3; 4; 20; 3; 4; 30; 3; 4; 1] [] = Raise ValueError
  /\ pt.process_flow (flow_config 20 2 5) false
       [10; 3; 4; 20; 3; 4; 30; 3; 4; 1] []
     = Ok ([10; 3; 4; 20; 3; 4; 30; 3; 4], replicate 2 (-100), []).
Proof.
  apply (too_many_packets (flow_config 20 2 5)
           [10; 3; 4; 20; 3; 4; 30; 3; 4; 1] [[10; 3]; [20; 3]; [30; 3]] []);
    [reflexivity | simpl; lia | simpl; lia | simpl; lia | simpl; lia
    | simpl; lia].
Defined.

(** ** The arrays [tokenize_pt_func] returns *)

Lemma rmapM_Forall {A B} (f : A -> result B) (P : B -> Prop) :
  (forall x y, f x = Ok y -> P y) ->
  forall l r, rmapM f l = Ok r -> Forall P r.
Proof.
  intros Hf. induction l as [|x l IH]; intros r H; simpl in H.
  - inversion H. constructor.
  - apply rbind_Ok in H as (y & Hy & H). apply rbind_Ok in H as (ys & Hys & H).
    inversion H; subst. constructor; [eapply Hf; exact Hy|apply IH; exact Hys].
Qed.

Lemma mapM_Forall_out {A B} (f : A -> M B) (P : B -> Prop) :
  (forall x g y g', f x g = Ok (y, g') -> P y) ->
  forall l g r g', mapM f l g = Ok (r, g') -> Forall P r.
Proof.
  intros Hf. induction l as [|x l IH]; intros g r g' H; simpl in H.
  - inversion H. constructor.
  - apply bind_Ok in H as (y & g1 & Hy & H).
    apply bind_Ok in H as (ys & g2 & Hys & H). inversion H; subst.
    constructor; [eapply Hf; exact Hy|eapply IH; exact Hys].
Qed.

Lemma process_flow_shape (c : pt.config) (in_pop_index : bool)
    (input_text : list Z) (g : rng) (tokens pop_row : list Z) (g' : rng) :
  pt.process_flow c in_pop_index input_text g = Ok (tokens, pop_row, g') ->
  Z.of_nat (length tokens) <= pt.optim_len c - 1
  /\ Z.of_nat (length pop_row) = pt.pkt_per_flow c.
Proof.
  intros H. unfold pt.process_flow in H.
  apply bind_Ok in H as (row0 & g0 & Hrow0 & H).
  apply lift_Ok in Hrow0 as [Hrow0 _]. unfold full_row in Hrow0.
  destruct (Z.ltb_spec (pt.pkt_per_flow c) 0); [discriminate|].
  inversion Hrow0; subst row0; clear Hrow0.
  apply bind_Ok in H as (packets & g1 & _ & H).
  apply bind_Ok in H as (packets' & g2 & _ & H).
  apply bind_Ok in H as ([reordered row] & g3 & Hre & H).
  destruct (Z.leb_spec (Z.of_nat (length (concat (map (fun pkt => pkt ++ [pt.PKT_ID c]) reordered))))
                       (pt.optim_len c - 1)) as [Hfit|]; [|discriminate].
  inversion H; subst; clear H. split; [exact Hfit|].
  destruct in_pop_index.
  - unfold pt.pop_permute in Hre.
    apply bind_Ok in Hre as (order & g4 & _ & Hre).
    apply bind_Ok in Hre as (row' & g5 & Hrow & Hre).
    apply lift_Ok in Hrow as [Hrow _]. apply assign_prefix_length in Hrow.
    apply bind_Ok in Hre as (re & g6 & _ & Hre). inversion Hre; subst.
    rewrite Hrow, length_replicate. lia.
  - inversion Hre; subst. rewrite length_replicate. lia.
Qed.

Lemma count_valid_padded (i : list Z) (n : nat) :
  count_valid (i ++ replicate n (-100)) <= Z.of_nat (length i).
Proof.
  unfold count_valid. rewrite filter_app, length_app.
  assert (E : filter (fun x => x <> -100) (replicate n (-100)) = []).
  { induction n as [|n IH]; [reflexivity|]. cbn [replicate].
    rewrite filter_cons_False by (intros H; apply H; reflexivity). exact IH. }
  rewrite E. cbn [length]. pose proof (length_filter (fun x => x <> -100) i).
  lia.
Qed.

(** X15: The three arrays [tokenize_pt_func] returns have one row per flow;
    every [input_ids] row has [optim_len] entries, of which at most
    [optim_len - 1] differ from -100 (so the collator, run with the same
    [optimal_len], finds room for the end marker); every [pop_order] row
    has [pkt_per_flow] entries and every [nml_labels] row
    [pkt_per_flow * nml_label_gap]. *)
Theorem tokenize_shapes (c : pt.config) (tknzed_input : list (list Z))
    (nml_actual_labels : list (list Z)) (g : rng)
    (ids pop nml : list (list Z)) (g' : rng) :
  pt.tokenize_pt_func c tknzed_input nml_actual_labels g
  = Ok (ids, pop, nml, g') ->
  length ids = length tknzed_input
  /\ length pop = length tknzed_input
  /\ length nml = length tknzed_input
  /\ Forall (fun row => Z.of_nat (length row) = pt.optim_len c
                        /\ count_valid row <= pt.optim_len c - 1) ids
  /\ Forall (fun row => Z.of_nat (length row) = pt.pkt_per_flow c) pop
  /\ Forall (fun row => Z.of_nat (length row)
                        = pt.pkt_per_flow c * pt.nml_label_gap c) nml.
Proof.
  unfold pt.tokenize_pt_func. intros H.
  apply bind_Ok in H as (sel & gs & _ & H).
  apply bind_Ok in H as (pi & g1 & _ & H).
  apply bind_Ok in H as (nml' & g2 & Hn & H).
  apply bind_Ok in H as (rows & g3 & Hrows & H).
  unfold ret in H. inversion H; subst; clear H.
  apply lift_Ok in Hn as [Hn _].
  destruct (Nat.ltb_spec (length tknzed_input) (length nml_actual_labels));
    [discriminate|].
  pose proof (mapM_length _ _ _ _ _ Hrows) as Hlen.
  rewrite length_zip, length_arange, Nat2Z.id, Nat.min_id in Hlen.
  pose proof (rmapM_length _ _ _ Hn) as Hnl.
  rewrite length_app, length_replicate in Hnl.
  assert (Hshape : Forall (fun r : list Z * list Z =>
                     Z.of_nat (length r.1) <= pt.optim_len c - 1
                     /\ Z.of_nat (length r.2) = pt.pkt_per_flow c) rows).
  { eapply mapM_Forall_out; [|exact Hrows].
    intros [i text] g0 [tokens row] g4 Hx.
    apply process_flow_shape in Hx. exact Hx. }
  rewrite !length_map.
  split; [exact Hlen|]. split; [exact Hlen|]. split; [lia|].
  split; [|split].
  - rewrite map_fmap. apply Forall_fmap.
    eapply Forall_impl; [exact Hshape|]. intros [i row] [Hi _]. cbn in *.
    split.
    + rewrite length_app, length_replicate. lia.
    + pose proof (count_valid_padded i
                    (Z.to_nat (pt.optim_len c - Z.of_nat (length i)))).
      lia.
  - rewrite map_fmap. apply Forall_fmap.
    eapply Forall_impl; [exact Hshape|]. intros [i row] [_ Hr]. exact Hr.
  - eapply rmapM_Forall; [|exact Hn]. intros x y Hy. unfold pt.nml_row in Hy.
    apply rbind_Ok in Hy as (row & Hrow & Hy). unfold full_row in Hrow.
    destruct (Z.ltb_spec (pt.pkt_per_flow c * pt.nml_label_gap c) 0);
      [discriminate|].
    inversion Hrow; subst row. apply assign_prefix_length in Hy.
    rewrite Hy, length_replicate. lia.
Qed.

Lemma tokenize_shapes_witness :
  length [[10; 3; 4; 20; 3; 4; -100; -100]] = length [[10; 3; 4; 20; 3; 4; 1]]
  /\ Forall (fun row => Z.of_nat (length row) = 8 /\ count_valid row <= 8 - 1)
            [[10; 3; 4; 20; 3; 4; -100; -100]].
Proof.
  assert (E : pt.tokenize_pt_func (flow_config 8 4 5)
                [[10; 3; 4; 20; 3; 4; 1]] [[0; 2; 3; 2; 1; 1; 1; 1]] []
              = Ok ([[10; 3; 4; 20; 3; 4; -100; -100]],
                    [[0; 1; -100; -100]],
                    [[0; 2; 3; 2; 1; 1; 1; 1] ++ replicate 8 (-100)], []))
    by (vm_compute; reflexivity).
  destruct (tokenize_shapes _ _ _ _ _ _ _ _ E) as (H1 & _ & _ & H4 & _).
  split; [exact H1|exact H4].
Defined.

(** ** [_trunc_sanity_check] *)

(** X16: The sanity check only ever shortens: what it returns is the input
    without its last token, without its last two, or unchanged; and on a
    single token whose decoding contains a hash sign it reads
    [truncted_content[-2]] and raises [IndexError]. *)
Theorem trunc_sanity_check_prefix (c : pt.config) (truncted_content : list Z) :
  (forall r, pt._trunc_sanity_check c truncted_content = Ok r ->
     exists k : nat, (k <= 2)%nat
       /\ r = take (length truncted_content - k) truncted_content)
  /\ (forall x, truncted_content = [x] ->
        pt.has_hash (pt.decode c x) = true ->
        pt._trunc_sanity_check c truncted_content = Raise IndexError).
Proof.
  split.
  - intros r H. unfold pt._trunc_sanity_check in H.
    assert (H0 : exists k : nat, (k <= 2)%nat
               /\ truncted_content
                  = take (length truncted_content - k) truncted_content).
    { exists 0%nat. split; [lia|]. rewrite Nat.sub_0_r, firstn_all.
      reflexivity. }
    destruct (0 <? length truncted_content)%nat; [|inversion H; subst; exact H0].
    apply rbind_Ok in H as (str & _ & H).
    destruct (negb (pt.has_hash str) && pt.short str).
    { inversion H; subst. exists 1%nat. split; [lia|reflexivity]. }
    destruct (pt.has_hash str); [|inversion H; subst; exact H0].
    apply rbind_Ok in H as (str2 & _ & H).
    destruct (_ && _); inversion H; subst; [|exact H0].
    exists 2%nat. split; [lia|reflexivity].
  - intros x -> Hx. unfold pt._trunc_sanity_check, pt.from_end.
    cbn. rewrite Hx. reflexivity.
Qed.

Lemma trunc_sanity_check_prefix_witness :
  pt._trunc_sanity_check
    {| pt.numpy := np.from_2_1;
       pt.decode := fun _ => "#ab"%string;
       pt.EOS_ID := 1; pt.HEAD_ID := 3; pt.PKT_ID := 4;
       pt.optim_len := 8; pt.pkt_per_flow := 4;
       pt.pop_percent := decimal 1; pt.pop_switch_gap := 5;
       pt.nml_label_gap := 4 |} [10]
  = Raise IndexError.
Proof.
  apply (trunc_sanity_check_prefix _ [10]) with (x := 10); reflexivity.
Defined.

(** ** [compute_input_and_target_lengths] *)




(** ** The collator end to end: every row is span-corrupted *)

Lemma rmapM_lookup {A B} (f : A -> result B) (l : list A) :
  forall r (i : nat) x,
  rmapM f l = Ok r -> l !! i = Some x ->
  exists y, r !! i = Some y /\ f x = Ok y.
Proof.
  induction l as [|a l IH]; intros r i x H Hi; [done|].
  simpl in H. apply rbind_Ok in H as (y & Hy & H).
  apply rbind_Ok in H as (ys & Hys & H). inversion H; subst.
  destruct i as [|i]; simpl in Hi.
  - inversion Hi; subst. exists y. auto.
  - simpl. eapply IH; eassumption.
Qed.

Lemma rmapM2_lookup {A B C} (f : A -> B -> result C) (l : list A) :
  forall k r (i : nat) x y,
  rmapM2 f l k = Ok r -> l !! i = Some x -> k !! i = Some y ->
  exists z, r !! i = Some z /\ f x y = Ok z.
Proof.
  induction l as [|a l IH]; intros [|b k] r i x y H Hi Hk; try done.
  simpl in H. apply rbind_Ok in H as (z & Hz & H).
  apply rbind_Ok in H as (zs & Hzs & H). inversion H; subst.
  destruct i as [|i]; simpl in Hi, Hk.
  - inversion Hi; inversion Hk; subst. exists z. auto.
  - simpl. eapply IH; eassumption.
Qed.

Lemma mapM_lookup {A B} (f : A -> M B) (l : list A) :
  forall g r g' (i : nat) x,
  mapM f l g = Ok (r, g') -> l !! i = Some x ->
  exists y g1 g2, r !! i = Some y /\ f x g1 = Ok (y, g2).
Proof.
  induction l as [|a l IH]; intros g r g' i x H Hi; [done|].
  simpl in H. apply bind_Ok in H as (y & g1 & Hy & H).
  apply bind_Ok in H as (ys & g2 & Hys & H). inversion H; subst.
  destruct i as [|i]; simpl in Hi.
  - inversion Hi; subst. exists y, g, g1. auto.
  - simpl. eapply IH; eassumption.
Qed.

Lemma lookup_zip_map {A B C} (f : A -> B) (h : A -> C) (l : list A)
    (i : nat) (x : A) :
  l !! i = Some x -> zip (map f l) (map h l) !! i = Some (f x, h x).
Proof.
  revert i. induction l as [|a l IH]; intros [|i] H; try done.
  - inversion H; subst. reflexivity.
  - simpl. apply IH. exact H.
Qed.

Lemma count_valid_le (row : list Z) :
  0 <= count_valid row <= Z.of_nat (length row).
Proof.
  unfold count_valid. pose proof (length_filter (fun x => x <> -100) row). lia.
Qed.

Lemma spans_noise_mask_layout (self : DataCollatorForPretrain)
    (attn : list Z) (real_len : Z) (g : rng) (mask : list bool) (g' : rng) :
  0 <= real_len <= Z.of_nat (length attn) ->
  spans_noise_mask self attn real_len g = Ok (mask, g') ->
  Z.of_nat (length mask) = optimal_len self
  /\ forall i : nat, real_len <= Z.of_nat i < optimal_len self ->
       mask !! i = Some false.
Proof.
  intros Hr H. unfold spans_noise_mask in H.
  apply bind_Ok in H as (m & g1 & Hm & H). apply lift_Ok in H as [H _].
  rewrite pad_right in H.
  destruct (Z.ltb_spec (optimal_len self - real_len) 0); [discriminate|].
  inversion H; subst mask; clear H.
  apply segment_spans_random_mask_aligned, Forall2_length in Hm.
  rewrite length_take in Hm.
  split.
  - rewrite length_app, length_replicate. lia.
  - intros i Hi. rewrite lookup_app_r by lia.
    apply lookup_replicate_2. lia.
Qed.

Lemma filter_row_corrupt (self : DataCollatorForPretrain) (set_length : Z)
    (is_label : bool) (mask : list bool) (tokens row : list Z) :
  length tokens = length mask ->
  (true_runs false mask <= 106)%nat ->
  filter_row self set_length is_label tokens (sentinel_spec false 0 mask)
  = Ok row ->
  row = (if is_label then drop_last (corrupt false 0 mask tokens)
         else corrupt false 0 mask tokens)
        ++ [EOS_ID self]
        ++ replicate
             (Z.to_nat (set_length
                        - Z.of_nat (length (if is_label
                                            then drop_last (corrupt false 0 mask tokens)
                                            else corrupt false 0 mask tokens))
                        - 1))
             (if is_label then -100 else PAD_ID self).
Proof.
  intros Hlen Hruns H.
  rewrite filter_row_spec in H by (rewrite length_sentinel_spec; exact Hlen).
  destruct (Z_le_dec _ _); [|discriminate]. inversion H; subst row; clear H.
  unfold padded_row. rewrite <- !compacted_shrink. unfold shrink_row.
  rewrite overlay_corrupt by (try assumption; lia).
  destruct is_label; reflexivity.
Qed.

(** X18: What the collator does to an example whose [input_ids] row has
    [optimal_len] entries: a mask of that length is drawn that leaves
    [<head>], [<pkt>] and the -100 padding unmasked; the returned
    [input_ids] row is the span corruption of the example under this
    mask, and the returned [labels] row that under the complementary mask
    without its last sentinel, each with the end marker and the padding
    behind it (each as long as its mask has at most 106 spans). *)
Theorem call_span_corruption (self : DataCollatorForPretrain)
    (examples : list Example) (g : rng) (batch : Batch) (g' : rng)
    (r : nat) (ex : Example) :
  __call__ self examples g = Ok (batch, g') ->
  examples !! r = Some ex ->
  Z.of_nat (length (ex_input_ids ex)) = optimal_len self ->
  exists mask : list bool,
    length mask = length (ex_input_ids ex)
    /\ (forall (i : nat) (x : Z),
          ex_input_ids ex !! i = Some x -> is_marker self x = true ->
          mask !! i = Some false)
    /\ (forall i : nat,
          count_valid (ex_input_ids ex) <= Z.of_nat i < optimal_len self ->
          mask !! i = Some false)
    /\ ((true_runs false mask <= 106)%nat ->
        let body := corrupt false 0 mask (ex_input_ids ex) in
        input_ids batch !! r
        = Some (body ++ [EOS_ID self]
                  ++ replicate
                       (Z.to_nat (max_length self - Z.of_nat (length body) - 1))
                       (PAD_ID self)))
    /\ ((true_runs false (map negb mask) <= 106)%nat ->
        let body :=
          drop_last (corrupt false 0 (map negb mask) (ex_input_ids ex)) in
        labels batch !! r
        = Some (body ++ [EOS_ID self]
                  ++ replicate
                       (Z.to_nat (max_labels_length self
                                  - Z.of_nat (length body) - 1))
                       (-100))).
Proof.
  intros H Hex Hrow.
  apply call_inv_steps in H
    as (masks & isent & lsent & Hm & Hi & Hl & Hin & Hlab).
  set (tokens := ex_input_ids ex) in *.
  assert (Htok : map ex_input_ids examples !! r = Some tokens)
    by (rewrite map_fmap, list_lookup_fmap, Hex; reflexivity).
  pose proof (lookup_zip_map
                (map (fun x => if (x =? PKT_ID self) || (x =? HEAD_ID self)
                               then 0 else 1))
                count_valid _ _ _ Htok) as Hz.
  destruct (mapM_lookup _ _ _ _ _ _ _ Hm Hz)
    as (mask & g1 & g2 & Hmask & Hrun).
  cbn beta iota in Hrun.
  pose proof (count_valid_le tokens) as Hcv.
  destruct (spans_noise_mask_layout self _ _ _ _ _
              ltac:(rewrite length_map; exact Hcv) Hrun) as [Hlen Hpad].
  assert (Hlen' : length mask = length tokens) by lia.
  assert (Hne : mask <> []).
  { intros ->. unfold create_sentinel_ids in Hi.
    assert (Hb : map (map Z.b2z) masks !! r = Some (map Z.b2z []))
      by (rewrite map_fmap, list_lookup_fmap, Hmask; reflexivity).
    destruct (rmapM_lookup _ _ _ _ _ Hi Hb) as (s & _ & Hs). discriminate. }
  exists mask. split; [exact Hlen'|]. split; [|split; [exact Hpad|split]].
  - intros i x Hx Hmk.
    apply (spans_noise_mask_excludes _ _ _ _ _ _ Hrun).
    + rewrite Hlen'. apply lookup_lt_Some in Hx. exact Hx.
    + rewrite map_fmap, list_lookup_fmap, Hx. cbn.
      unfold is_marker in Hmk. rewrite orb_comm, Hmk. reflexivity.
  - intros Hruns. cbv zeta.
    assert (Hb : map (map Z.b2z) masks !! r = Some (map Z.b2z mask))
      by (rewrite map_fmap, list_lookup_fmap, Hmask; reflexivity).
    unfold create_sentinel_ids in Hi.
    destruct (rmapM_lookup _ _ _ _ _ Hi Hb) as (s & Hs & Hs').
    rewrite create_sentinel_row_spec in Hs' by exact Hne.
    inversion Hs'; subst s; clear Hs'.
    unfold filter_input_ids in Hin.
    destruct (rmapM2_lookup _ _ _ _ _ _ _ Hin Htok Hs) as (row & Hrw & Hf).
    rewrite Hrw. f_equal.
    apply (filter_row_corrupt self (max_length self) false) in Hf;
      [exact Hf|lia|exact Hruns].
  - intros Hruns. cbv zeta.
    assert (Hb : map (map Z.b2z) (map (map negb) masks) !! r
                 = Some (map Z.b2z (map negb mask)))
      by (rewrite !map_fmap, !list_lookup_fmap, Hmask; reflexivity).
    unfold create_sentinel_ids in Hl.
    destruct (rmapM_lookup _ _ _ _ _ Hl Hb) as (s & Hs & Hs').
    rewrite create_sentinel_row_spec in Hs'
      by (destruct mask; [done|discriminate]).
    inversion Hs'; subst s; clear Hs'.
    unfold filter_input_ids in Hlab.
    destruct (rmapM2_lookup _ _ _ _ _ _ _ Hlab Htok Hs) as (row & Hrw & Hf).
    rewrite Hrw. f_equal.
    apply (filter_row_corrupt self (max_labels_length self) true) in Hf;
      [exact Hf|rewrite length_map; lia|exact Hruns].
Qed.

Lemma call_span_corruption_witness :
  exists mask : list bool,
    length mask = length (ex_input_ids four_label_example)
    /\ (forall (i : nat) (x : Z),
          ex_input_ids four_label_example !! i = Some x ->
          is_marker (collator (3 # 20) 3 5 6) x = true ->
          mask !! i = Some false).
Proof.
  assert (E : __call__ (collator (3 # 20) 3 5 6) [four_label_example] []
              = Ok (example_batch (ex_nml_labels four_label_example), []))
    by (vm_compute; reflexivity).
  destruct (call_span_corruption _ _ _ _ _ 0%nat four_label_example E)
    as (mask & Hlen & Hmk & _); [reflexivity|reflexivity|].
  exists mask. split; [exact Hlen|exact Hmk].
Defined.

(** ** The layer labels of a flow *)

(** X19: Whenever [tokenize_pt_func] returns (with room for at least one
    label per row), the labels of every flow fit into
    [pkt_per_flow * nml_label_gap] slots, and the flow's row of
    [nml_labels] holds them in their order (as int8) followed by -100. *)
Theorem tokenize_nml_rows (c : pt.config) (tknzed_input : list (list Z))
    (nml_actual_labels : list (list Z)) (g : rng)
    (ids pop nml : list (list Z)) (g' : rng) (i : nat) (actual_label : list Z) :
  pt.tokenize_pt_func c tknzed_input nml_actual_labels g
  = Ok (ids, pop, nml, g') ->
  nml_actual_labels !! i = Some actual_label ->
  0 < pt.pkt_per_flow c * pt.nml_label_gap c ->
  Z.of_nat (length actual_label) <= pt.pkt_per_flow c * pt.nml_label_gap c
  /\ nml !! i
     = Some (map wrap8 actual_label
             ++ replicate
                  (Z.to_nat (pt.pkt_per_flow c * pt.nml_label_gap c)
                   - length actual_label) (-100)).
Proof.
  intros H Hi Hw. apply tokenize_nml_labels in H.
  assert (Hi' : (nml_actual_labels
                 ++ replicate (length tknzed_input - length nml_actual_labels) [])
                !! i = Some actual_label)
    by (apply lookup_app_l_Some; exact Hi).
  destruct (rmapM_lookup _ _ _ _ _ H Hi') as (row & Hrow & Hf).
  rewrite Hrow. unfold pt.nml_row, full_row in Hf.
  destruct (Z.ltb_spec (pt.pkt_per_flow c * pt.nml_label_gap c) 0); [lia|].
  cbn [rbind] in Hf. unfold assign_prefix in Hf.
  rewrite length_replicate in Hf.
  set (w := Z.to_nat (pt.pkt_per_flow c * pt.nml_label_gap c)) in *.
  destruct (Nat.eqb_spec (length actual_label)
                         (Nat.min (length actual_label) w)) as [E|E].
  - inversion Hf; subst row. split; [lia|].
    rewrite Nat.min_l by lia. rewrite drop_replicate. reflexivity.
  - destruct (Nat.eqb_spec (length actual_label) 1); [lia|discriminate].
Qed.

Lemma tokenize_nml_rows_witness :
  Z.of_nat (length [0; 2; 3; 2; 1; 1; 1; 1]) <= 4 * 4
  /\ [[0; 2; 3; 2; 1; 1; 1; 1] ++ replicate 8 (-100)] !! 0%nat
     = Some (map wrap8 [0; 2; 3; 2; 1; 1; 1; 1]
             ++ replicate (Z.to_nat (4 * 4) - length [0; 2; 3; 2; 1; 1; 1; 1])
                          (-100)).
Proof.
  assert (E : pt.tokenize_pt_func (flow_config 8 4 5)
                [[10; 3; 4; 20; 3; 4; 1]] [[0; 2; 3; 2; 1; 1; 1; 1]] []
              = Ok ([[10; 3; 4; 20; 3; 4; -100; -100]],
                    [[0; 1; -100; -100]],
                    [[0; 2; 3; 2; 1; 1; 1; 1] ++ replicate 8 (-100)], []))
    by (vm_compute; reflexivity).
  apply (tokenize_nml_rows _ _ _ _ _ _ _ _ 0%nat _ E); [reflexivity|simpl; lia].
Defined.
